(** * AMTManager: Digest authentication and the WS-Management request executor

    A shallow embedding of [digest-auth.ts] and [amt-manager.ts].

    Conventions of the embedding.
    - A JavaScript string is a [string]; its code units are restricted to
      U+0000..U+00FF, so that one [ascii] is one code unit.
    - A thrown exception is a value [Throw e] of [result]; an [async] function
      is a computation over an explicit [World] that records every observable
      action (DNS lookups, HTTP exchanges, timer waits) in a trace.
    - The network, the resolver and the random source are parameters: the
      theorems hold for every behaviour of the environment.
    - The body of a response is read by [response.text()], which is awaited
      and can fail: a response carries the outcome of that read.
    - Console output is not modelled. *)

From Stdlib Require Import ZArith NArith List Ascii String Bool Lia DecimalString.
From stdpp Require Import gmap strings.

Local Open Scope string_scope.
Local Open Scope list_scope.

(** ** JavaScript primitives *)

Module Js.

(** The double quote, code unit 34. *)
Definition dquote : ascii := "034"%char.
Definition dq : string := String dquote "".

(** An [Error] object as the code inspects it: [message], and the optional
    [code] and [type] fields of node-fetch's system errors. *)
Record Error := mkError {
  message : string;
  code : option string;
  type : option string
}.

(** [new Error(msg)]: neither [code] nor [type] is set. *)
Definition new_Error (msg : string) : Error :=
  {| message := msg; code := None; type := None |}.

Inductive result (A : Type) : Type :=
| Ok (a : A)
| Throw (e : Error).
Arguments Ok {A} a.
Arguments Throw {A} e.

(** *** Character classes of the regular expressions *)

Definition in_range (lo hi : nat) (c : ascii) : bool :=
  (lo <=? nat_of_ascii c)%nat && (nat_of_ascii c <=? hi)%nat.

(** [\d] *)
Definition is_digit (c : ascii) : bool := in_range 48 57 c.

(** [\w] is [A-Za-z0-9_]. *)
Definition is_word (c : ascii) : bool :=
  in_range 65 90 c || in_range 97 122 c || is_digit c || Ascii.eqb c "_"%char.

(** The class of every code unit but the double quote. *)
Definition not_dquote (c : ascii) : bool := negb (Ascii.eqb c dquote).

(** *** A backtracking matcher for the fragment the code uses

    Literals, greedy [+] over a character class with backtracking, and
    capture by continuation.  A continuation receives the text consumed by
    the class and the rest of the input. *)

(** Match the literal [t] at the head of [s]; the rest of [s] on success. *)
Fixpoint lit (t s : string) : option string :=
  match t with
  | EmptyString => Some s
  | String a t' =>
      match s with
      | String b s' => if Ascii.eqb a b then lit t' s' else None
      | EmptyString => None
      end
  end.

Section Backtracking.
Context {R : Type}.

(** Greedy [p*]: take one more code unit when possible and try the rest of
    the pattern; on failure give the code unit back. *)
Fixpoint star_greedy (p : ascii -> bool) (acc s : string)
         (k : string -> string -> option R) : option R :=
  match s with
  | String c s' =>
      if p c then
        match star_greedy p (acc +:+ String c "") s' k with
        | Some r => Some r
        | None => k acc s
        end
      else k acc s
  | EmptyString => k acc s
  end.

(** Greedy [p+]. *)
Definition plus_greedy (p : ascii -> bool) (s : string)
           (k : string -> string -> option R) : option R :=
  match s with
  | String c s' => if p c then star_greedy p (String c "") s' k else None
  | EmptyString => None
  end.

(** An unanchored pattern is tried at every start position, leftmost
    first. *)
Fixpoint search (m : string -> option R) (s : string) : option R :=
  match m s with
  | Some r => Some r
  | None =>
      match s with
      | String _ s' => search m s'
      | EmptyString => None
      end
  end.
End Backtracking.

(** [String.prototype.includes] *)
Definition includes (s t : string) : bool :=
  match search (lit t) s with Some _ => true | None => false end.

(** The longest prefix of [s] in the class [p], and what follows it. *)
Fixpoint span (p : ascii -> bool) (s : string) : string * string :=
  match s with
  | String c s' =>
      if p c then let '(a, b) := span p s' in (String c a, b) else ("", s)
  | EmptyString => ("", "")
  end.

Fixpoint forallb_str (p : ascii -> bool) (s : string) : bool :=
  match s with
  | String c s' => p c && forallb_str p s'
  | EmptyString => true
  end.

(** *** Numbers *)

(** A number as the code can obtain one from [parseInt]: an integer that a
    double represents, an infinity, or NaN. *)
Inductive number :=
| Finite (z : Z)
| Infinity
| NaN.

(** The double nearest to a natural number, ties to the even significand:
    exact up to 53 bits, infinite from [2^1024] on. *)
Definition to_double (n : N) : number :=
  let bits := N.size n in
  if (bits <=? 53)%N then Finite (Z.of_N n)
  else
    let sh := (bits - 53)%N in
    let q := N.shiftr n sh in
    let r := N.land n (N.ones sh) in
    let half := N.shiftl 1 (sh - 1) in
    let q' := if (half <? r)%N || ((r =? half)%N && N.odd q)
              then (q + 1)%N else q in
    let v := N.shiftl q' sh in
    if (2 ^ 1024 <=? v)%N then Infinity else Finite (Z.of_N v).

(** The value of a string of decimal digits. *)
Fixpoint decimal_value (acc : N) (s : string) : N :=
  match s with
  | String c s' => decimal_value (10 * acc + (N_of_ascii c - 48))%N s'
  | EmptyString => acc
  end.

(** White space of [parseInt] below U+0100. *)
Definition is_space (c : ascii) : bool :=
  in_range 9 13 c || Ascii.eqb c " "%char || (nat_of_ascii c =? 160)%nat.

Fixpoint trim_start (s : string) : string :=
  match s with
  | String c s' => if is_space c then trim_start s' else s
  | EmptyString => s
  end.

(** [parseInt(s, 10)]: leading white space, an optional sign, then the
    longest run of digits; NaN when there is none.  ECMAScript lets an
    implementation replace the digits after the 20th significant one by
    zeros; the model keeps them, so it is the specified result for every
    number of at most 20 significant digits. *)
Definition parseInt (s : string) : number :=
  let s1 := trim_start s in
  let '(neg, s2) :=
    match s1 with
    | String c s' =>
        if Ascii.eqb c "-"%char then (true, s')
        else if Ascii.eqb c "+"%char then (false, s')
        else (false, s1)
    | EmptyString => (false, s1)
    end in
  match fst (span is_digit s2) with
  | EmptyString => NaN
  | ds =>
      match to_double (decimal_value 0 ds) with
      | Finite z => Finite (if neg then - z else z)%Z
      | other => other
      end
  end.

(** A number in a template literal. *)
Definition show_N (n : N) : string := NilZero.string_of_uint (N.to_uint n).

(** An optional value in a template literal. *)
Definition show_opt {A} (show : A -> string) (o : option A) : string :=
  match o with Some a => show a | None => "undefined" end.

(** *** Text encodings *)

(** UTF-8 of a string whose code units are below U+0100: one byte below
    U+0080, two bytes from there on. *)
Fixpoint utf8 (s : string) : list N :=
  match s with
  | EmptyString => []
  | String c s' =>
      let n := N_of_ascii c in
      if (n <? 128)%N then n :: utf8 s'
      else (192 + N.shiftr n 6)%N :: (128 + N.land n 63)%N :: utf8 s'
  end.

Definition hex_digit (n : N) : ascii :=
  if (n <? 10)%N then ascii_of_N (48 + n) else ascii_of_N (87 + n).

(** [Buffer.toString('hex')]: two lower-case digits for every byte. *)
Fixpoint hex (bs : list N) : string :=
  match bs with
  | [] => ""
  | b :: bs' =>
      String (hex_digit (N.shiftr b 4)) (String (hex_digit (N.land b 15)) (hex bs'))
  end.

End Js.

(** ** The MD5 message digest (RFC 1321)

    [crypto.createHash('md5').update(text).digest('hex')] of Node.js: the
    text is encoded as UTF-8, digested, and printed as lower-case
    hexadecimal.  Words are 32-bit values in [N], reduced after every
    addition. *)

Module Md5.

Definition mask32 : N := 0xffffffff.
Definition add32 (a b : N) : N := N.land (a + b) mask32.
Definition not32 (a : N) : N := N.lxor a mask32.
Definition rotl32 (x c : N) : N :=
  N.land (N.lor (N.shiftl x c) (N.shiftr x (32 - c))) mask32.

Definition shifts : list N :=
  [7; 12; 17; 22; 7; 12; 17; 22; 7; 12; 17; 22; 7; 12; 17; 22;
   5; 9; 14; 20; 5; 9; 14; 20; 5; 9; 14; 20; 5; 9; 14; 20;
   4; 11; 16; 23; 4; 11; 16; 23; 4; 11; 16; 23; 4; 11; 16; 23;
   6; 10; 15; 21; 6; 10; 15; 21; 6; 10; 15; 21; 6; 10; 15; 21]%N.

Definition sines : list N :=
  [ 0xd76aa478; 0xe8c7b756; 0x242070db; 0xc1bdceee;
    0xf57c0faf; 0x4787c62a; 0xa8304613; 0xfd469501;
    0x698098d8; 0x8b44f7af; 0xffff5bb1; 0x895cd7be;
    0x6b901122; 0xfd987193; 0xa679438e; 0x49b40821;
    0xf61e2562; 0xc040b340; 0x265e5a51; 0xe9b6c7aa;
    0xd62f105d; 0x02441453; 0xd8a1e681; 0xe7d3fbc8;
    0x21e1cde6; 0xc33707d6; 0xf4d50d87; 0x455a14ed;
    0xa9e3e905; 0xfcefa3f8; 0x676f02d9; 0x8d2a4c8a;
    0xfffa3942; 0x8771f681; 0x6d9d6122; 0xfde5380c;
    0xa4beea44; 0x4bdecfa9; 0xf6bb4b60; 0xbebfbc70;
    0x289b7ec6; 0xeaa127fa; 0xd4ef3085; 0x04881d05;
    0xd9d4d039; 0xe6db99e5; 0x1fa27cf8; 0xc4ac5665;
    0xf4292244; 0x432aff97; 0xab9423a7; 0xfc93a039;
    0x655b59c3; 0x8f0ccc92; 0xffeff47d; 0x85845dd1;
    0x6fa87e4f; 0xfe2ce6e0; 0xa3014314; 0x4e0811a1;
    0xf7537e82; 0xbd3af235; 0x2ad7d2bb; 0xeb86d391 ]%N.

(** Little-endian bytes of a word, and back. *)
Fixpoint le_bytes (n : nat) (w : N) : list N :=
  match n with
  | O => []
  | S n' => N.land w 0xff :: le_bytes n' (N.shiftr w 8)
  end.

Fixpoint le_word (bs : list N) : N :=
  match bs with
  | [] => 0
  | b :: bs' => (b + 256 * le_word bs')%N
  end.

(** Padding: a one bit, zeros up to 56 modulo 64, the bit length on 64
    bits. *)
Definition pad (msg : list N) : list N :=
  let len := List.length msg in
  let zeros := ((55 + 64 - len mod 64) mod 64)%nat in
  msg ++ 0x80%N :: repeat 0%N zeros ++ le_bytes 8 (N.of_nat len * 8).

Fixpoint words (n : nat) (bs : list N) : list N :=
  match n with
  | O => []
  | S n' => le_word (firstn 4 bs) :: words n' (skipn 4 bs)
  end.

Fixpoint chunks (n : nat) (bs : list N) : list (list N) :=
  match n with
  | O => []
  | S n' => words 16 (firstn 64 bs) :: chunks n' (skipn 64 bs)
  end.

Record state := mkState { sa : N; sb : N; sc : N; sd : N }.

Definition init : state :=
  mkState 0x67452301 0xefcdab89 0x98badcfe 0x10325476.

Definition round (m : list N) (i : nat) (st : state) : state :=
  let '(mkState a b c d) := st in
  let '(f, g) :=
    if (i <? 16)%nat then
      (N.lor (N.land b c) (N.land (not32 b) d), i)
    else if (i <? 32)%nat then
      (N.lor (N.land d b) (N.land (not32 d) c), ((5 * i + 1) mod 16)%nat)
    else if (i <? 48)%nat then
      (N.lxor (N.lxor b c) d, ((3 * i + 5) mod 16)%nat)
    else
      (N.lxor c (N.lor b (not32 d)), ((7 * i) mod 16)%nat) in
  let f' := add32 (add32 (add32 f a) (nth i sines 0%N)) (nth g m 0%N) in
  mkState d (add32 b (rotl32 f' (nth i shifts 0%N))) b c.

Definition compress (st : state) (m : list N) : state :=
  let st' := fold_left (fun s i => round m i s) (seq 0 64) st in
  mkState (add32 (sa st) (sa st')) (add32 (sb st) (sb st'))
          (add32 (sc st) (sc st')) (add32 (sd st) (sd st')).

Definition digest (msg : list N) : list N :=
  let bs := pad msg in
  let st := fold_left compress (chunks (List.length bs / 64) bs) init in
  le_bytes 4 (sa st) ++ le_bytes 4 (sb st) ++
  le_bytes 4 (sc st) ++ le_bytes 4 (sd st).

End Md5.

(** ** The runtime: promises, timers, DNS, HTTP and the random source *)

Module Node.
Import Js.

(** An [async] computation over a state [S]: it ends with a value or with a
    thrown error, and leaves a state behind in both cases. *)
Definition M (S A : Type) : Type := S -> result A * S.

Definition ret {S A} (a : A) : M S A := fun s => (Ok a, s).
Definition throw {S A} (e : Error) : M S A := fun s => (Throw e, s).
Definition bind {S A B} (c : M S A) (k : A -> M S B) : M S B :=
  fun s => match c s with
           | (Ok a, s') => k a s'
           | (Throw e, s') => (Throw e, s')
           end.
(** [try { c } catch (error) { h error }] *)
Definition try_catch {S A} (c : M S A) (h : Error -> M S A) : M S A :=
  fun s => match c s with
           | (Ok a, s') => (Ok a, s')
           | (Throw e, s') => h e s'
           end.
Definition of_result {S A} (r : result A) : M S A := fun s => (r, s).

(** The connection agent ([http.Agent] or [https.Agent]) with the options
    the code sets. *)
Record Agent := mkAgent {
  secure : bool;
  rejectUnauthorized : option bool;
  keepAlive : bool;
  agent_timeout : option N;
  ciphers : option string;
  secureProtocol : option string;
  family : option N
}.

(** The argument of [fetch].  A header whose value is [None] is a property
    that is present with the value [undefined]. *)
Record Request := mkRequest {
  req_url : string;
  req_method : string;
  req_headers : gmap string (option string);
  req_body : option string;
  req_agent : option Agent;
  req_timeout : option N
}.

(** What the code reads of a [Response]; header names are lower-case, as
    node-fetch stores them.  [res_body] is how [await response.text()] ends:
    with the text of the body, or with the error of a body that does not
    arrive (node-fetch rejects with a FetchError of type system). *)
Record Response := mkResponse {
  status : N;
  statusText : string;
  res_headers : gmap string string;
  res_body : result string
}.

(** [await response.text()] *)
Definition text {S} (response : Response) : M S string :=
  of_result (res_body response).

(** [response.ok] *)
Definition ok (r : Response) : bool :=
  (200 <=? status r)%N && (status r <=? 299)%N.

(** The observable actions.  A wait records the delay handed to
    [setTimeout] and which of the two retry loops asked for it. *)
Inductive Event :=
| Lookup (hostname : string) (fam : N)
| Probe (r : Request)
| Post (r : Request)
| ProbeWait (ms : N)
| RetryWait (ms : N).

(** The environment answers the n-th call of each kind; the answer to an
    HTTP exchange may depend on the request. *)
Record Env := mkEnv {
  dns : nat -> string -> N -> result string;
  probe_reply : nat -> Request -> result Response;
  post_reply : nat -> Request -> result Response;
  random_bytes : nat -> nat -> list Byte.byte;
  random_uuid : nat -> string
}.

Record World := mkWorld {
  lookups : nat;
  probes : nat;
  posts : nat;
  randoms : nat;
  uuids : nat;
  trace : list Event
}.

Definition world0 : World := mkWorld 0 0 0 0 0 [].

Definition log (e : Event) (w : World) : World :=
  mkWorld (lookups w) (probes w) (posts w) (randoms w) (uuids w) (trace w ++ [e]).

Definition count_lookup (w : World) : World :=
  mkWorld (S (lookups w)) (probes w) (posts w) (randoms w) (uuids w) (trace w).
Definition count_probe (w : World) : World :=
  mkWorld (lookups w) (S (probes w)) (posts w) (randoms w) (uuids w) (trace w).
Definition count_post (w : World) : World :=
  mkWorld (lookups w) (probes w) (S (posts w)) (randoms w) (uuids w) (trace w).
Definition count_random (w : World) : World :=
  mkWorld (lookups w) (probes w) (posts w) (S (randoms w)) (uuids w) (trace w).
Definition count_uuid (w : World) : World :=
  mkWorld (lookups w) (probes w) (posts w) (randoms w) (S (uuids w)) (trace w).

Section Effects.
Variable E : Env.

(** [await lookup(hostname, {family})] *)
Definition lookup (hostname : string) (fam : N) : M World string :=
  fun w => (dns E (lookups w) hostname fam,
            count_lookup (log (Lookup hostname fam) w)).

(** [await fetch(url, init)] at the call site of [getDigestHeader]. *)
Definition fetch_probe (r : Request) : M World Response :=
  fun w => (probe_reply E (probes w) r, count_probe (log (Probe r) w)).

(** [await fetch(url, init)] at the call site of [makeRequest]. *)
Definition fetch_post (r : Request) : M World Response :=
  fun w => (post_reply E (posts w) r, count_post (log (Post r) w)).

(** [crypto.randomBytes(size)] *)
Definition randomBytes (size : nat) : M World (list Byte.byte) :=
  fun w => (Ok (random_bytes E (randoms w) size), count_random w).

(** [crypto.randomUUID()] *)
Definition randomUUID : M World string :=
  fun w => (Ok (random_uuid E (uuids w)), count_uuid w).
End Effects.

(** [await new Promise(resolve => setTimeout(resolve, delay))] *)
Definition sleep (e : N -> Event) (delay : N) : M World unit :=
  fun w => (Ok tt, log (e delay) w).

End Node.

Declare Scope async_scope.
Delimit Scope async_scope with async.
Notation "x <- c ;; k" := (Node.bind c (fun x => k))
  (at level 100, c at next level, right associativity) : async_scope.
Notation "c ;;; k" := (Node.bind c (fun _ => k))
  (at level 100, right associativity) : async_scope.

(** ** digest-auth.ts *)

Module DigestAuth.
Import Js Node.
Local Open Scope async_scope.

(** [interface AuthParams { realm; nonce; [key: string]: string }]: the two
    declared properties and the properties added through the index
    signature. *)
Record AuthParams := mkAuthParams {
  realm : string;
  nonce : string;
  others : gmap string string
}.

(** [authParams[k] = v] on an ordinary object whose own properties [realm]
    and [nonce] exist.  The key [__proto__] reaches the setter inherited from
    [Object.prototype], which ignores a string. *)
Definition set_param (k v : string) (p : AuthParams) : AuthParams :=
  if String.eqb k "realm" then mkAuthParams v (nonce p) (others p)
  else if String.eqb k "nonce" then mkAuthParams (realm p) v (others p)
  else if String.eqb k "__proto__" then p
  else mkAuthParams (realm p) (nonce p) (<[k := v]> (others p)).

(** One attempt of the pattern of [parseAuthHeader] at the head of [s]: a
    greedy run of word characters (capture 1), an equals sign, a double quote,
    a greedy run of code units other than the double quote (capture 2), a
    double quote.  The result is the two captures and the input after the
    match. *)
Definition auth_regex_at (s : string) : option (string * string * string) :=
  plus_greedy is_word s (fun key s1 =>
    match lit ("=" +:+ dq) s1 with
    | None => None
    | Some s2 =>
        plus_greedy not_dquote s2 (fun val s3 =>
          match lit dq s3 with
          | None => None
          | Some s4 => Some (key, val, s4)
          end)
    end).

(** [regex.exec(authHeader)] with the [g] flag, from the position where [s]
    starts: the leftmost match at or after it. *)
Definition auth_regex_exec (s : string) : option (string * string * string) :=
  search auth_regex_at s.

(** The [while (match = regex.exec(authHeader))] loop.  Every match consumes
    at least one code unit, so [String.length authHeader] iterations are
    enough (see [parse_loop_unfold]). *)
Fixpoint parse_loop (fuel : nat) (s : string) (p : AuthParams) : AuthParams :=
  match fuel with
  | O => p
  | S fuel' =>
      match auth_regex_exec s with
      | Some (k, v, rest) => parse_loop fuel' rest (set_param k v p)
      | None => p
      end
  end.

Definition missing_params : Error :=
  new_Error "Missing required digest authentication parameters".

Definition parseAuthHeader (authHeader : string) : result AuthParams :=
  let authParams :=
    parse_loop (String.length authHeader) authHeader
               (mkAuthParams "" "" ∅) in
  if String.eqb (realm authParams) "" || String.eqb (nonce authParams) ""
  then Throw missing_params
  else Ok authParams.

(** The pairs the loop captures, in order: the quoted key=value pairs of the
    challenge. *)
Fixpoint captures_fuel (fuel : nat) (s : string) : list (string * string) :=
  match fuel with
  | O => []
  | S fuel' =>
      match auth_regex_exec s with
      | Some (k, v, rest) => (k, v) :: captures_fuel fuel' rest
      | None => []
      end
  end.

Definition captures (authHeader : string) : list (string * string) :=
  captures_fuel (String.length authHeader) authHeader.

(** One assignment of the loop. *)
Definition assign (p : AuthParams) (kv : string * string) : AuthParams :=
  set_param (fst kv) (snd kv) p.

(** The value of the last captured pair with key [k]. *)
Fixpoint last_value (k : string) (l : list (string * string)) : option string :=
  match l with
  | [] => None
  | (k', v) :: l' =>
      match last_value k l' with
      | Some v' => Some v'
      | None => if String.eqb k' k then Some v else None
      end
  end.


(** [crypto.createHash('md5').update(text).digest('hex')] *)
Definition md5_hex (text : string) : string := hex (Md5.digest (utf8 text)).

(** [interface DigestOptions] *)
Record DigestOptions := mkDigestOptions {
  url : string;
  username : string;
  password : string;
  method : option string;
  headers : option (gmap string string)
}.

(** [interface DigestHeaderOptions extends DigestOptions] *)
Record DigestHeaderOptions := mkDigestHeaderOptions {
  base : DigestOptions;
  retryCount : option nat;
  maxRetries : option nat
}.

Definition default {A} (d : A) (o : option A) : A :=
  match o with Some a => a | None => d end.

(** The header as the specification words it: HA1, HA2 and the response of
    RFC 2617 with qop auth and the nonce count 00000001, as a function of the
    challenge, the credentials, the request line and the client nonce. *)
Definition digest_header_spec
           (realm nonce username password method uri cnonce : string) : string :=
  let HA1 := md5_hex (username +:+ ":" +:+ realm +:+ ":" +:+ password) in
  let HA2 := md5_hex (method +:+ ":" +:+ uri) in
  let response :=
    md5_hex (HA1 +:+ ":" +:+ nonce +:+ ":00000001:" +:+ cnonce +:+ ":auth:" +:+ HA2) in
  "Digest username=" +:+ dq +:+ username +:+ dq +:+ ", realm=" +:+ dq +:+ realm
  +:+ dq +:+ ", nonce=" +:+ dq +:+ nonce +:+ dq +:+ ", uri=" +:+ dq +:+ uri +:+ dq
  +:+ ", cnonce=" +:+ dq +:+ cnonce +:+ dq +:+ ", nc=00000001, qop=auth, response="
  +:+ dq +:+ response +:+ dq.

(** The challenge a reply to the probe carries, if it carries one that
    [parseAuthHeader] accepts. *)
Definition challenge (reply : result Response) : option AuthParams :=
  match reply with
  | Ok response =>
      match res_headers response !! "www-authenticate" with
      | Some wwwAuthenticate =>
          match parseAuthHeader wwwAuthenticate with
          | Ok authParams => Some authParams
          | Throw _ => None
          end
      | None => None
      end
  | Throw _ => None
  end.

(** [n] failed probes from attempt number [retryCount] on: each is a request
    and a wait of [2^retryCount] seconds. *)
Fixpoint failed_probes (r : Request) (retryCount n : nat) : list Event :=
  match n with
  | O => []
  | S n' =>
      Probe r :: ProbeWait (2 ^ N.of_nat retryCount * 1000)
            :: failed_probes r (S retryCount) n'
  end.

(** The world after [k] failed probes with the request [r] and one more
    probe. *)
Definition probed (r : Request) (retryCount k : nat) (w : World) : World :=
  mkWorld (lookups w) (probes w + k + 1) (posts w) (randoms w) (uuids w)
          (trace w ++ failed_probes r retryCount k ++ [Probe r]).

Section WithEnv.
Variable E : Env.

Definition constructDigestAuthHeader (authParams : AuthParams)
           (options : DigestOptions) : M World string :=
  let realm := realm authParams in
  let nonce := nonce authParams in
  let url := url options in
  let username := username options in
  let password := password options in
  let method := default "POST" (method options) in
  rnd <- randomBytes E 16 ;;
  let cnonce := hex (map Byte.to_N rnd) in
  let nc := "00000001" in
  let qop := "auth" in
  let A1 := username +:+ ":" +:+ realm +:+ ":" +:+ password in
  let A2 := method +:+ ":" +:+ url in
  let ha1 := md5_hex A1 in
  let ha2 := md5_hex A2 in
  let response :=
    md5_hex (ha1 +:+ ":" +:+ nonce +:+ ":" +:+ nc +:+ ":" +:+ cnonce +:+ ":"
             +:+ qop +:+ ":" +:+ ha2) in
  ret ("Digest username=" +:+ dq +:+ username +:+ dq
       +:+ ", realm=" +:+ dq +:+ realm +:+ dq
       +:+ ", nonce=" +:+ dq +:+ nonce +:+ dq
       +:+ ", uri=" +:+ dq +:+ url +:+ dq
       +:+ ", cnonce=" +:+ dq +:+ cnonce +:+ dq
       +:+ ", nc=" +:+ nc +:+ ", qop=" +:+ qop
       +:+ ", response=" +:+ dq +:+ response +:+ dq).

(** The headers of the probe: the two fixed ones, then [...headers]. *)
Definition probe_headers (headers : gmap string string) : gmap string (option string) :=
  Some <$> (headers ∪ {[ "User-Agent" := "node-fetch"; "Accept" := "*/*" ]}).

(** The argument of [fetch] in [getDigestHeader]. *)
Definition probe_request (url method : string) (headers : gmap string string)
  : Request :=
  mkRequest url method (probe_headers headers) None None None.

(** The body of the [try] block of [getDigestHeader]. *)
Definition probe (url username password method : string)
           (headers : gmap string string) : M World string :=
  response <- fetch_probe E (probe_request url method headers) ;;
  match res_headers response !! "www-authenticate" with
  | None | Some EmptyString =>
      throw (new_Error "No WWW-Authenticate header received")
  | Some wwwAuthenticate =>
      authParams <- of_result (parseAuthHeader wwwAuthenticate) ;;
      digestHeader <- constructDigestAuthHeader authParams
        (mkDigestOptions url username password (Some method) None) ;;
      ret digestHeader
  end.

(** [getDigestHeader] calls itself with [retryCount + 1] while
    [retryCount < maxRetries]; the recursion is on what is left of
    [maxRetries - retryCount] (see [getDigestHeader_unfold]). *)
Fixpoint getDigestHeader_from (left : nat) (o : DigestOptions)
         (retryCount : nat) : M World (option string) :=
  try_catch
    (digestHeader <- probe (url o) (username o) (password o)
                           (default "GET" (method o)) (default ∅ (headers o)) ;;
     ret (Some digestHeader))
    (fun error =>
       match left with
       | S left' =>
           let delay := (2 ^ N.of_nat retryCount * 1000)%N in
           sleep ProbeWait delay ;;;
           getDigestHeader_from left' o (S retryCount)
       | O => ret None
       end).

Definition getDigestHeader (options : DigestHeaderOptions) : M World (option string) :=
  let retryCount := default 0%nat (retryCount options) in
  let maxRetries := default 3%nat (maxRetries options) in
  getDigestHeader_from (maxRetries - retryCount) (base options) retryCount.

End WithEnv.

End DigestAuth.

(** ** amt-manager.ts *)

Module AMT.
Import Js Node DigestAuth.
Local Open Scope async_scope.

Inductive PowerState := PowerOn | PowerOff | Reset.

Definition PowerState_code (p : PowerState) : N :=
  match p with PowerOn => 2 | PowerOff => 8 | Reset => 10 end%N.

Definition show_PowerState (p : PowerState) : string := show_N (PowerState_code p).

(** A property of the object literal given to the constructor: left out,
    given as [undefined], or given. *)
Inductive prop (A : Type) : Type :=
| Absent
| Undefined
| Given (a : A).
Arguments Absent {A}.
Arguments Undefined {A}.
Arguments Given {A} a.

(** [interface AMTConfig] as the caller writes it.  The retry count is a
    natural number, the port and the timeout are integers. *)
Record AMTConfig := mkAMTConfig {
  host : string;
  port : prop N;
  username : string;
  password : string;
  protocol : prop string;
  timeout : prop N;
  retries : prop nat;
  verifySSL : prop bool;
  forceIPv4 : prop bool
}.

(** [this.config]: every property is present; one given as [undefined]
    stays [undefined]. *)
Record Config := mkConfig {
  c_host : string;
  c_port : option N;
  c_username : string;
  c_password : string;
  c_protocol : option string;
  c_timeout : option N;
  c_retries : option nat;
  c_verifySSL : option bool;
  c_forceIPv4 : option bool
}.

(** [{ key: dflt, ...config }] for one key. *)
Definition spread {A} (dflt : A) (p : prop A) : option A :=
  match p with
  | Absent => Some dflt
  | Undefined => None
  | Given a => Some a
  end.

(** The fields of an [AMTManager]; [auth] is written by the constructor and
    never read, and is left out. *)
Record AMTManager := mkAMTManager {
  config : Config;
  baseUrl : string;
  agent : option Agent;
  resolvedHost : string
}.

Definition constructor (cfg : AMTConfig) : AMTManager :=
  mkAMTManager
    (mkConfig (host cfg)
              (spread 16992%N (port cfg))
              (username cfg)
              (password cfg)
              (spread "http" (protocol cfg))
              (spread 5000%N (timeout cfg))
              (spread 3%nat (retries cfg))
              (spread false (verifySSL cfg))
              (spread true (forceIPv4 cfg)))
    "" None (host cfg).

(** The state of a call: the manager it runs on and the world. *)
Record Session := mkSession {
  self : AMTManager;
  world : World
}.

Definition lift {A} (c : M World A) : M Session A :=
  fun s => let '(r, w) := c (world s) in (r, mkSession (self s) w).

Definition get_this : M Session AMTManager := fun s => (Ok (self s), s).
Definition set_this (m : AMTManager) : M Session unit :=
  fun s => (Ok tt, mkSession m (world s)).

Definition truthy (b : option bool) : bool := default false b.

Definition is_null {A} (o : option A) : bool :=
  match o with Some _ => false | None => true end.

Definition createPowerStateChangeRequest (powerState : PowerState) : string :=
  "<?xml version=" +:+ dq +:+ "1.0" +:+ dq +:+ " encoding=" +:+ dq +:+ "utf-8" +:+ dq +:+ "?>
      <Envelope xmlns:xsi=" +:+ dq +:+ "http://www.w3.org/2001/XMLSchema-instance" +:+ dq +:+ "
                xmlns:xsd=" +:+ dq +:+ "http://www.w3.org/2001/XMLSchema" +:+ dq +:+ "
                xmlns:a=" +:+ dq +:+ "http://schemas.xmlsoap.org/ws/2004/08/addressing" +:+ dq +:+ "
                xmlns:w=" +:+ dq +:+ "http://schemas.dmtf.org/wbem/wsman/1/wsman.xsd" +:+ dq +:+ "
                xmlns=" +:+ dq +:+ "http://www.w3.org/2003/05/soap-envelope" +:+ dq +:+ ">
        <Header>
          <a:Action>http://schemas.dmtf.org/wbem/wscim/1/cim-schema/2/CIM_PowerManagementService/RequestPowerStateChange</a:Action>
          <a:To>/wsman</a:To>
          <w:ResourceURI>http://schemas.dmtf.org/wbem/wscim/1/cim-schema/2/CIM_PowerManagementService</w:ResourceURI>
          <a:MessageID>1</a:MessageID>
          <a:ReplyTo>
            <a:Address>http://schemas.xmlsoap.org/ws/2004/08/addressing/role/anonymous</a:Address>
          </a:ReplyTo>
          <w:OperationTimeout>PT60S</w:OperationTimeout>
        </Header>
        <Body>
          <r:RequestPowerStateChange_INPUT xmlns:r=" +:+ dq +:+ "http://schemas.dmtf.org/wbem/wscim/1/cim-schema/2/CIM_PowerManagementService" +:+ dq +:+ ">
            <r:PowerState>" +:+ show_PowerState powerState +:+ "</r:PowerState>
            <r:ManagedElement>
              <Address xmlns=" +:+ dq +:+ "http://schemas.xmlsoap.org/ws/2004/08/addressing" +:+ dq +:+ ">http://schemas.xmlsoap.org/ws/2004/08/addressing</Address>
              <ReferenceParameters xmlns=" +:+ dq +:+ "http://schemas.xmlsoap.org/ws/2004/08/addressing" +:+ dq +:+ ">
                <ResourceURI xmlns=" +:+ dq +:+ "http://schemas.dmtf.org/wbem/wsman/1/wsman.xsd" +:+ dq +:+ ">http://schemas.dmtf.org/wbem/wscim/1/cim-schema/2/CIM_ComputerSystem</ResourceURI>
                <SelectorSet xmlns=" +:+ dq +:+ "http://schemas.dmtf.org/wbem/wsman/1/wsman.xsd" +:+ dq +:+ ">
                  <Selector Name=" +:+ dq +:+ "CreationClassName" +:+ dq +:+ ">CIM_ComputerSystem</Selector>
                  <Selector Name=" +:+ dq +:+ "Name" +:+ dq +:+ ">ManagedSystem</Selector>
                </SelectorSet>
              </ReferenceParameters>
            </r:ManagedElement>
          </r:RequestPowerStateChange_INPUT>
        </Body>
      </Envelope>".

Definition createGetPowerStateRequest_with (uuid : string) : string :=
  "<?xml version=" +:+ dq +:+ "1.0" +:+ dq +:+ " encoding=" +:+ dq +:+ "utf-8" +:+ dq +:+ "?>
<Envelope xmlns=" +:+ dq +:+ "http://www.w3.org/2003/05/soap-envelope" +:+ dq +:+ "
          xmlns:a=" +:+ dq +:+ "http://schemas.xmlsoap.org/ws/2004/08/addressing" +:+ dq +:+ "
          xmlns:w=" +:+ dq +:+ "http://schemas.dmtf.org/wbem/wsman/1/wsman.xsd" +:+ dq +:+ ">
  <Header>
    <a:To>/wsman</a:To>
    <a:Action>http://schemas.xmlsoap.org/ws/2004/09/transfer/Get</a:Action>
    <a:MessageID>uuid:" +:+ uuid +:+ "</a:MessageID>
    <a:ReplyTo>
      <a:Address>http://schemas.xmlsoap.org/ws/2004/08/addressing/role/anonymous</a:Address>
    </a:ReplyTo>
    <w:ResourceURI>http://schemas.dmtf.org/wbem/wscim/1/cim-schema/2/CIM_AssociatedPowerManagementService</w:ResourceURI>
    <w:SelectorSet>
      <w:Selector Name=" +:+ dq +:+ "UserOfService" +:+ dq +:+ ">
        <a:EndpointReference>
          <a:Address>http://schemas.xmlsoap.org/ws/2004/08/addressing/role/anonymous</a:Address>
          <a:ReferenceParameters>
            <w:ResourceURI>http://schemas.dmtf.org/wbem/wscim/1/cim-schema/2/CIM_ComputerSystem</w:ResourceURI>
            <w:SelectorSet>
              <w:Selector Name=" +:+ dq +:+ "CreationClassName" +:+ dq +:+ ">CIM_ComputerSystem</w:Selector>
              <w:Selector Name=" +:+ dq +:+ "Name" +:+ dq +:+ ">ManagedSystem</w:Selector>
            </w:SelectorSet>
          </a:ReferenceParameters>
        </a:EndpointReference>
      </w:Selector>
      <w:Selector Name=" +:+ dq +:+ "ServiceProvided" +:+ dq +:+ ">
        <a:EndpointReference>
          <a:Address>http://schemas.xmlsoap.org/ws/2004/08/addressing/role/anonymous</a:Address>
          <a:ReferenceParameters>
            <w:ResourceURI>http://schemas.dmtf.org/wbem/wscim/1/cim-schema/2/CIM_PowerManagementService</w:ResourceURI>
            <w:SelectorSet>
              <w:Selector Name=" +:+ dq +:+ "CreationClassName" +:+ dq +:+ ">CIM_PowerManagementService</w:Selector>
              <w:Selector Name=" +:+ dq +:+ "Name" +:+ dq +:+ ">Intel(r) AMT Power Management Service</w:Selector>
              <w:Selector Name=" +:+ dq +:+ "SystemCreationClassName" +:+ dq +:+ ">CIM_ComputerSystem</w:Selector>
              <w:Selector Name=" +:+ dq +:+ "SystemName" +:+ dq +:+ ">Intel(r) AMT</w:Selector>
            </w:SelectorSet>
          </a:ReferenceParameters>
        </a:EndpointReference>
      </w:Selector>
    </w:SelectorSet>
  </Header>
  <Body/>
</Envelope>".

Definition power_action : string :=
  "http://schemas.dmtf.org/wbem/wscim/1/cim-schema/2/CIM_PowerManagementService/RequestPowerStateChange".

Definition enumerate_action : string :=
  "http://schemas.dmtf.org/wbem/wscim/1/wsman/Enumerate".

(** One attempt of [/<r:PowerState>(\d+)<\/r:PowerState>/] at the head of
    [s]: the capture. *)
Definition power_regex_at (s : string) : option string :=
  match lit "<r:PowerState>" s with
  | None => None
  | Some s1 =>
      plus_greedy is_digit s1 (fun ds s2 =>
        match lit "</r:PowerState>" s2 with
        | None => None
        | Some _ => Some ds
        end)
  end.

(** [text.match(regex)]: the first capture of the leftmost match. *)
Definition power_regex_match (text : string) : option string :=
  search power_regex_at text.

(** The elements the specification speaks of, in its own words: an element
    [<r:PowerState>ds</r:PowerState>] whose content [ds] is a non-empty run
    of decimal digits stands in [text] right after [pre]; the first such
    element is the one that starts leftmost; a body may hold none. *)
Definition element_at (text pre ds post : string) : Prop :=
  text = pre +:+ "<r:PowerState>" +:+ ds +:+ "</r:PowerState>" +:+ post
  /\ ds <> "" /\ forallb_str is_digit ds = true.

Definition first_element (text pre ds post : string) : Prop :=
  element_at text pre ds post
  /\ forall pre' ds' post',
      element_at text pre' ds' post' ->
      (String.length pre <= String.length pre')%nat.

Definition no_element (text : string) : Prop :=
  forall pre ds post, ~ element_at text pre ds post.

(** Whether the [catch] of [makeRequest] takes the error for a connection
    fault. *)
Definition is_connection_error (e : Error) : bool :=
  match code e with
  | Some c => String.eqb c "ECONNRESET" || String.eqb c "ETIMEDOUT"
              || String.eqb c "ECONNREFUSED"
  | None => false
  end
  || match type e with Some t => String.eqb t "system" | None => false end.

(** [family] of the lookup: [this.config.forceIPv4 ? 4 : 0]. *)
Definition lookup_family (cfg : Config) : N :=
  if truthy (c_forceIPv4 cfg) then 4%N else 0%N.

(** The assignments of [resolveHost] after a successful lookup:
    [resolvedHost], [baseUrl] and the agent for the protocol. *)
Definition connection (cfg : Config) (address : string) : AMTManager :=
  let resolvedHost := address in
  let port := c_port cfg in
  let protocol := c_protocol cfg in
  let baseUrl := show_opt id protocol +:+ "://" +:+ resolvedHost +:+ ":"
                 +:+ show_opt show_N port +:+ "/wsman" in
  let family := if truthy (c_forceIPv4 cfg) then Some 4%N else None in
  let agent :=
    if default false (String.eqb "https" <$> protocol) then
      mkAgent true (c_verifySSL cfg) true (c_timeout cfg)
              (Some "ALL") (Some "TLSv1_2_method") family
    else
      mkAgent false None true (c_timeout cfg) None None family in
  mkAMTManager cfg baseUrl (Some agent) resolvedHost.

(** The error thrown by the [catch] block of [resolveHost]; what [lookup]
    throws is an [Error], so its message is used. *)
Definition resolution_error (cfg : Config) (error : Error) : Error :=
  new_Error ("Failed to resolve host " +:+ c_host cfg +:+ ": " +:+ message error).

(** [!this.baseUrl || !this.agent] *)
Definition needs_resolve (this : AMTManager) : bool :=
  String.eqb (baseUrl this) "" || is_null (agent this).

(** The argument of [getDigestHeader] in [makeRequest]. *)
Definition digest_options (this : AMTManager) : DigestHeaderOptions :=
  mkDigestHeaderOptions
    (mkDigestOptions (baseUrl this) (c_username (config this))
                     (c_password (config this)) (Some "POST") None)
    None (c_retries (config this)).

Definition post_headers (digestHeader : option string) (action : string)
  : gmap string (option string) :=
  {[ "Authorization" := digestHeader;
     "Content-Type" := Some "application/soap+xml;charset=UTF-8";
     "SOAPAction" := Some action;
     "User-Agent" := Some "Intel AMT Client";
     "Accept" := Some "*/*";
     "Connection" := Some "keep-alive" ]}.

(** [requestOptions] *)
Definition request_options (this : AMTManager) (digestHeader : option string)
           (action body : string) : Request :=
  mkRequest (baseUrl this) "POST" (post_headers digestHeader action)
            (Some body) (agent this) (c_timeout (config this)).

(** The error thrown for a response that is not [ok], once its body has
    been read. *)
Definition protocol_error (response : Response) (responseText : string) : Error :=
  new_Error ("AMT request failed: " +:+ show_N (status response)
             +:+ " " +:+ statusText response
             +:+ String "010" "Response: " +:+ responseText).

(** How the [try] block of [makeRequest] ends for a given outcome of
    [fetch] (see [send] and [send_eq]). *)
Definition attempt (reply : result Response) : result Response :=
  match reply with
  | Ok response =>
      if ok response then Ok response
      else match res_body response with
           | Ok responseText => Throw (protocol_error response responseText)
           | Throw e => Throw e
           end
  | Throw e => Throw e
  end.

(** The last two lines of the [try] block of [getPowerState]. *)
Definition power_state_of (text : string) : number :=
  match power_regex_match text with
  | Some digits => parseInt digits
  | None => Finite (-1)
  end.

(** The world after the lookup of [resolveHost], and after an authenticated
    request. *)
Definition after_lookup (cfg : Config) (w : World) : World :=
  count_lookup (log (Lookup (c_host cfg) (lookup_family cfg)) w).

Definition after_post (r : Request) (w : World) : World :=
  count_post (log (Post r) w).

(** What the request executor does, as read off a trace: resolutions,
    authenticated requests and its own waits.  The exchanges and waits of the
    challenge fetch are left out. *)
Inductive Step :=
| Resolve
| Send
| Wait (ms : N).

Definition executor_step (e : Event) : list Step :=
  match e with
  | Lookup _ _ => [Resolve]
  | Post _ => [Send]
  | RetryWait ms => [Wait ms]
  | Probe _ | ProbeWait _ => []
  end.

Definition executor_view (t : list Event) : list Step :=
  flat_map executor_step t.

(** [n] failed attempts from attempt number [retryCount] on: each is a
    request, a wait of [2^retryCount] seconds and a resolution. *)
Fixpoint retries_view (retryCount n : nat) : list Step :=
  match n with
  | O => []
  | S n' =>
      Send :: Wait (2 ^ N.of_nat retryCount * 1000) :: Resolve
           :: retries_view (S retryCount) n'
  end.

(** The resolution a call starts with when the manager has no connection
    yet. *)
Definition first_resolve (this : AMTManager) : list Step :=
  if needs_resolve this then [Resolve] else [].

Definition first_lookups (this : AMTManager) : nat :=
  if needs_resolve this then 1%nat else 0%nat.

(** The target of a request, written out: protocol, address and port of the
    device, and the path of the WS-Management service. *)
Definition wsman_url (cfg : Config) (address : string) : string :=
  show_opt id (c_protocol cfg) +:+ "://" +:+ address +:+ ":"
  +:+ show_opt show_N (c_port cfg) +:+ "/wsman".

(** With [addr k] the answer of the k-th lookup from now on: the address
    and the URL that attempt [i] of a call goes to.  Attempt 0 uses the
    connection the manager holds, or the first lookup when it holds none;
    every later attempt uses the lookup made after the wait before it. *)
Definition attempt_address (this : AMTManager) (addr : nat -> string) (i : nat)
  : string :=
  match i with
  | O => if needs_resolve this then addr 0%nat else resolvedHost this
  | S j => addr (first_lookups this + j)%nat
  end.

Definition attempt_url (this : AMTManager) (addr : nat -> string) (i : nat)
  : string :=
  match i with
  | O => if needs_resolve this then wsman_url (config this) (addr 0%nat)
         else baseUrl this
  | S j => wsman_url (config this) (addr (first_lookups this + j)%nat)
  end.

(** The lookups and the authenticated requests of a trace, in order. *)
Definition resolved (t : list Event) : list (string * N) :=
  flat_map (fun e => match e with Lookup h f => [(h, f)] | _ => [] end) t.

Definition posted (t : list Event) : list Request :=
  flat_map (fun e => match e with Post r => [r] | _ => [] end) t.

(** The waits of a view, in order. *)
Definition waits (v : list Step) : list N :=
  flat_map (fun st => match st with Wait ms => [ms] | _ => [] end) v.

Section WithEnv.
Variable E : Env.

Definition createGetPowerStateRequest : M Session string :=
  uuid <- lift (randomUUID E) ;;
  ret (createGetPowerStateRequest_with uuid).

Definition resolveHost : M Session unit :=
  this <- get_this ;;
  let cfg := config this in
  try_catch
    (address <- lift (lookup E (c_host cfg) (lookup_family cfg)) ;;
     set_this (connection cfg address))
    (fun error => throw (resolution_error cfg error)).

(** [if (!this.baseUrl || !this.agent) await this.resolveHost()] *)
Definition ensureResolved : M Session unit :=
  this <- get_this ;;
  if needs_resolve this then resolveHost else ret tt.

(** The digest header and [requestOptions]. *)
Definition prepareRequest (action body : string) : M Session Request :=
  this <- get_this ;;
  digestHeader <- lift (getDigestHeader E (digest_options this)) ;;
  ret (request_options this digestHeader action body).

(** The [try] block of [makeRequest]. *)
Definition send (requestOptions : Request) : M Session Response :=
  response <- lift (fetch_post E requestOptions) ;;
  if negb (ok response) then
    responseText <- text response ;;
    throw (protocol_error response responseText)
  else ret response.

(** The error of the last line of the [catch] block's connection branch. *)
Definition exhausted (this : AMTManager) (systemError : Error) : Error :=
  new_Error
    ("Failed to connect to AMT device after "
     +:+ show_opt (fun n => show_N (N.of_nat n)) (c_retries (config this))
     +:+ " attempts. " +:+ "Last error: " +:+ message systemError
     +:+ " (" +:+ resolvedHost this +:+ ":"
     +:+ show_opt show_N (c_port (config this)) +:+ ")").

(** [makeRequest] calls itself with [retryCount + 1] while
    [retryCount < this.config.retries]; the recursion is on what is left
    of that difference (see [makeRequest_unfold]). *)
Fixpoint makeRequest_from (left : nat) (action body : string)
         (retryCount : nat) : M Session Response :=
  ensureResolved ;;;
  requestOptions <- prepareRequest action body ;;
  try_catch
    (send requestOptions)
    (fun systemError =>
       if is_connection_error systemError then
         match left with
         | S left' =>
             let delay := (2 ^ N.of_nat retryCount * 1000)%N in
             lift (sleep RetryWait delay) ;;;
             resolveHost ;;;
             makeRequest_from left' action body (S retryCount)
         | O =>
             this <- get_this ;;
             throw (exhausted this systemError)
         end
       else throw systemError).

Definition makeRequest (action body : string) (retryCount : nat)
  : M Session Response :=
  this <- get_this ;;
  makeRequest_from (default 0%nat (c_retries (config this)) - retryCount)
                   action body retryCount.

Definition changePowerState (powerState : PowerState) : M Session bool :=
  try_catch
    (response <- makeRequest power_action
                   (createPowerStateChangeRequest powerState) 0 ;;
     text <- text response ;;
     ret (includes text "ReturnValue>0</"))
    (fun error => throw error).

Definition powerOn : M Session bool := changePowerState PowerOn.
Definition powerOff : M Session bool := changePowerState PowerOff.
Definition reset : M Session bool := changePowerState Reset.

Definition getPowerState : M Session number :=
  try_catch
    (body <- createGetPowerStateRequest ;;
     response <- makeRequest enumerate_action body 0 ;;
     text <- text response ;;
     ret (power_state_of text))
    (fun error => throw error).

Definition testConnection : M Session bool :=
  try_catch (getPowerState ;;; ret true) (fun error => ret false).

End WithEnv.

End AMT.

(** ** Scenarios

    A device, a resolver and a random source with fixed answers, on which
    the theorems are instantiated. *)

Module Scenario.
Import Js Node DigestAuth AMT.

Definition econnreset : Error :=
  mkError "socket hang up" (Some "ECONNRESET") (Some "system").

Definition enotfound : Error :=
  mkError "getaddrinfo ENOTFOUND amt.local" (Some "ENOTFOUND") None.

(** A challenge as an AMT device sends it. *)
Definition challenge_header : string :=
  "Digest realm=" +:+ dq +:+ "Digest:A4070000000000000000000000000000" +:+ dq
  +:+ ", nonce=" +:+ dq +:+ "k3VhAAkGAAAAAAAAtvKcM9Wt1Qd0rFBD" +:+ dq
  +:+ ",stale=" +:+ dq +:+ "false" +:+ dq +:+ ",qop=" +:+ dq +:+ "auth" +:+ dq.

Definition unauthorized : Response :=
  mkResponse 401 "Unauthorized" {[ "www-authenticate" := challenge_header ]}
             (Ok "unauthorized").

Definition answer (body : string) : Response := mkResponse 200 "OK" ∅ (Ok body).

(** The error of node-fetch for a body that breaks off. *)
Definition premature_close : Error :=
  mkError "Invalid response body while trying to fetch http://10.0.0.5:16992/wsman: Premature close"
          (Some "ERR_STREAM_PREMATURE_CLOSE") (Some "system").

(** A 500 and a 200 whose bodies break off. *)
Definition broken_failure : Response :=
  mkResponse 500 "Internal Server Error" ∅ (Throw premature_close).

Definition broken_answer : Response :=
  mkResponse 200 "OK" ∅ (Throw premature_close).

Definition sixteen_bytes : list Byte.byte :=
  [Byte.x00; Byte.x01; Byte.x02; Byte.x03; Byte.x04; Byte.x05; Byte.x06; Byte.x07;
   Byte.x08; Byte.x09; Byte.x0a; Byte.x0b; Byte.x0c; Byte.x0d; Byte.x0e; Byte.x0f].

(** A device that resolves, challenges every probe, drops the first
    [faults] authenticated requests and answers [final] to the others. *)
Definition device (faults : nat) (final : result Response) : Env :=
  mkEnv (fun _ _ _ => Ok "10.0.0.5")
        (fun _ _ => Ok unauthorized)
        (fun n _ => if (n <? faults)%nat then Throw econnreset else final)
        (fun _ _ => sixteen_bytes)
        (fun _ => "4f2c6a1e-0000-4000-8000-000000000001").

(** The same device behind a name whose address changes with every
    lookup. *)
Definition roaming_device (faults : nat) (final : result Response) : Env :=
  mkEnv (fun k _ _ => Ok (nth k ["10.0.0.5"; "10.0.0.6"; "10.0.0.7"] "10.0.0.8"))
        (fun _ _ => Ok unauthorized)
        (fun n _ => if (n <? faults)%nat then Throw econnreset else final)
        (fun _ _ => sixteen_bytes)
        (fun _ => "4f2c6a1e-0000-4000-8000-000000000001").

(** The same device when it never answers a probe. *)
Definition mute_device (final : result Response) : Env :=
  mkEnv (fun _ _ _ => Ok "10.0.0.5")
        (fun _ _ => Throw econnreset)
        (fun _ _ => final)
        (fun _ _ => sixteen_bytes)
        (fun _ => "4f2c6a1e-0000-4000-8000-000000000001").

(** A host name that does not resolve. *)
Definition unresolvable : Env :=
  mkEnv (fun _ _ _ => Throw enotfound)
        (fun _ _ => Ok unauthorized)
        (fun _ _ => Ok (answer ""))
        (fun _ _ => sixteen_bytes)
        (fun _ => "4f2c6a1e-0000-4000-8000-000000000001").

Definition manager (maxRetries : prop nat) : AMTManager :=
  constructor (mkAMTConfig "amt.local" Absent "admin" "secret" Absent Absent
                           maxRetries Absent Absent).

Definition fresh : Session := mkSession (manager Absent) world0.

(** The example of RFC 2617, section 3.5, with a client nonce of 16 bytes. *)
Definition rfc_params : AuthParams :=
  mkAuthParams "testrealm@host.com" "dcd98b7102dd2f0e8b11d0f600bfb0c093" ∅.

Definition rfc_options : DigestOptions :=
  mkDigestOptions "/dir/index.html" "Mufasa" "Circle Of Life" (Some "GET") None.

Definition rfc_header : string :=
  "Digest username=" +:+ dq +:+ "Mufasa" +:+ dq
  +:+ ", realm=" +:+ dq +:+ "testrealm@host.com" +:+ dq
  +:+ ", nonce=" +:+ dq +:+ "dcd98b7102dd2f0e8b11d0f600bfb0c093" +:+ dq
  +:+ ", uri=" +:+ dq +:+ "/dir/index.html" +:+ dq
  +:+ ", cnonce=" +:+ dq +:+ "000102030405060708090a0b0c0d0e0f" +:+ dq
  +:+ ", nc=00000001, qop=auth, response=" +:+ dq
  +:+ "49c6bbb30901167641da0e7a57cd2b20" +:+ dq.

End Scenario.

(** ** Measures of a trace *)

Module Trace.
Import Js Node.

(** The waits of the challenge fetch, and the waits of both retry loops. *)
Definition probe_waits (t : list Event) : list N :=
  flat_map (fun e => match e with ProbeWait ms => [ms] | _ => [] end) t.

Definition all_waits (t : list Event) : list N :=
  flat_map (fun e => match e with
                     | ProbeWait ms | RetryWait ms => [ms]
                     | _ => []
                     end) t.

Definition total (l : list N) : N := fold_right N.add 0%N l.

(** The probes of a trace, in order. *)
Definition probed_requests (t : list Event) : list Request :=
  flat_map (fun e => match e with Probe r => [r] | _ => [] end) t.

(** Whether every authenticated request of a trace comes after a probe that
    no earlier request of the trace has before it: [probed] tells whether a
    probe was seen since the last request. *)
Fixpoint each_post_probed (probed : bool) (t : list Event) : bool :=
  match t with
  | [] => true
  | Probe _ :: t' => each_post_probed true t'
  | Post _ :: t' => probed && each_post_probed false t'
  | _ :: t' => each_post_probed probed t'
  end.

(** A request that carries the given action and body the way [makeRequest]
    sends them. *)
Definition sent_as (action body : string) (r : Request) : Prop :=
  req_method r = "POST" /\ req_body r = Some body /\
  req_headers r !! "SOAPAction" = Some (Some action) /\
  req_headers r !! "Content-Type" = Some (Some "application/soap+xml;charset=UTF-8").

(** The lower-case hexadecimal digits. *)
Definition is_hex_digit (c : ascii) : bool := is_digit c || in_range 97 102 c.

End Trace.

(** ** index.ts: the command line front ends

    The file holds two front ends.  The first builds its configuration from
    the arguments and the optional environment variables; the second falls
    back on defaults for every argument. *)

Module Cli.
Import Js Node DigestAuth AMT.
Local Open Scope async_scope.

(** [parseInt(s)] without a radix: as [parseInt(s, 10)], but after the sign
    the prefix 0x or 0X selects radix 16. *)
Definition hex_value (c : ascii) : N :=
  if is_digit c then (N_of_ascii c - 48)%N
  else if in_range 97 102 c then (N_of_ascii c - 87)%N
  else (N_of_ascii c - 55)%N.

Definition is_hex (c : ascii) : bool :=
  is_digit c || in_range 97 102 c || in_range 65 70 c.

Fixpoint hex_string_value (acc : N) (s : string) : N :=
  match s with
  | String c s' => hex_string_value (16 * acc + hex_value c)%N s'
  | EmptyString => acc
  end.

Definition parseInt_auto (s : string) : number :=
  let s1 := trim_start s in
  let '(neg, s2) :=
    match s1 with
    | String c s' =>
        if Ascii.eqb c "-"%char then (true, s')
        else if Ascii.eqb c "+"%char then (false, s')
        else (false, s1)
    | EmptyString => (false, s1)
    end in
  let '(hexa, s3) :=
    match s2 with
    | String z (String x s') =>
        if Ascii.eqb z "0"%char && (Ascii.eqb x "x"%char || Ascii.eqb x "X"%char)
        then (true, s') else (false, s2)
    | _ => (false, s2)
    end in
  let ds := fst (span (if hexa then is_hex else is_digit) s3) in
  match ds with
  | EmptyString => NaN
  | _ =>
      match to_double (if hexa then hex_string_value 0 ds else decimal_value 0 ds) with
      | Finite z => Finite (if neg then - z else z)%Z
      | other => other
      end
  end.

(** [process.env]: a variable that is not set reads as [undefined]. *)
Definition Environment := gmap string string.

(** Truthiness of a string that may be [undefined]. *)
Definition truthy_string (o : option string) : bool :=
  match o with
  | Some (String _ _) => true
  | _ => false
  end.

(** [a || b] on strings that may be [undefined]. *)
Definition or_else (a : option string) (b : string) : string :=
  match a with
  | Some (String c s) => String c s
  | _ => b
  end.

(** *** The first front end *)

(** [const [command, host, username, password] = process.argv.slice(2)] and
    the test [!command || !host || !username || !password]. *)
Definition missing_argument (argv : list string) : bool :=
  negb (truthy_string (argv !! 0%nat)) || negb (truthy_string (argv !! 1%nat))
  || negb (truthy_string (argv !! 2%nat)) || negb (truthy_string (argv !! 3%nat)).

(** The object literal [config]: every property is written, so none is
    [Absent]; the port is whatever [parseInt] makes of the variable. *)
Record EnvConfig := mkEnvConfig {
  e_host : string;
  e_username : string;
  e_password : string;
  e_port : prop number;
  e_protocol : prop string;
  e_verifySSL : prop bool;
  e_forceIPv4 : prop bool
}.

Definition env_config (env : Environment) (host username password : string)
  : EnvConfig :=
  mkEnvConfig host username password
    (if truthy_string (env !! "AMT_PORT")
     then Given (parseInt_auto (default "" (env !! "AMT_PORT")))
     else Undefined)
    (match env !! "AMT_PROTOCOL" with Some p => Given p | None => Undefined end)
    (Given (bool_decide (env !! "AMT_VERIFY_SSL" = Some "true")))
    (Given (negb (bool_decide (env !! "AMT_FORCE_IPV4" = Some "false")))).

(** The port as [AMTConfig] holds it.  The manager is modelled for ports
    that are natural numbers; [None] is a port outside them (NaN, an
    infinity, a negative number). *)
Definition port_of (p : prop number) : option (prop N) :=
  match p with
  | Absent => Some Absent
  | Undefined => Some Undefined
  | Given (Finite z) => if (0 <=? z)%Z then Some (Given (Z.to_N z)) else None
  | Given _ => None
  end.

(** [new AMTManager(config)] *)
Definition new_manager (c : EnvConfig) : option AMTManager :=
  match port_of (e_port c) with
  | Some p =>
      Some (constructor
              (mkAMTConfig (e_host c) p (e_username c) (e_password c)
                           (e_protocol c) Absent Absent
                           (e_verifySSL c) (e_forceIPv4 c)))
  | None => None
  end.

(** How a run ends: by [process.exit(code)], or by running to its end. *)
Inductive Exit :=
| Completes
| Exits (code : N).

Section WithEnv.
Variable E : Env.

(** [executeCommand()] of the first front end. *)
Definition executeCommand (command : string) : M Session Exit :=
  try_catch
    (if String.eqb command "power-on" then
       powerOnResult <- powerOn E ;; ret Completes
     else if String.eqb command "power-off" then
       powerOffResult <- powerOff E ;; ret Completes
     else if String.eqb command "reset" then
       resetResult <- reset E ;; ret Completes
     else if String.eqb command "status" then
       powerState <- getPowerState E ;; ret Completes
     else ret (Exits 1))
    (fun error => ret (Exits 1)).
End WithEnv.

(** *** The second front end *)

Definition defaultHost (env : Environment) : string :=
  or_else (env !! "AMT_HOST") "192.168.1.100".
Definition defaultUsername (env : Environment) : string :=
  or_else (env !! "AMT_USERNAME") "admin".
Definition defaultPassword (env : Environment) : string :=
  or_else (env !! "AMT_PASSWORD") "password".
Definition defaultPort (env : Environment) : number :=
  parseInt (or_else (env !! "AMT_PORT") "16992").
Definition defaultProtocol (env : Environment) : string :=
  or_else (env !! "AMT_PROTOCOL") "http".

Definition amtHost (argv : list string) (env : Environment) : string :=
  or_else (argv !! 1%nat) (defaultHost env).
Definition amtUsername (argv : list string) (env : Environment) : string :=
  or_else (argv !! 2%nat) (defaultUsername env).
Definition amtPassword (argv : list string) (env : Environment) : string :=
  or_else (argv !! 3%nat) (defaultPassword env).

(** [!amtHost || !amtUsername || !amtPassword] *)
Definition missing_parameters (argv : list string) (env : Environment) : bool :=
  String.eqb (amtHost argv env) "" || String.eqb (amtUsername argv env) ""
  || String.eqb (amtPassword argv env) "".

End Cli.

(** ** The standard form of a challenge

    A challenge written from its directives: the scheme, then the
    directives as key, equals sign and quoted value, separated by a comma
    and a space.  It is the input [parseAuthHeader] is written for. *)

Module Challenge.
Import Js.

Definition directive (kv : string * string) : string :=
  fst kv +:+ "=" +:+ dq +:+ snd kv +:+ dq.

Fixpoint directives (l : list (string * string)) : string :=
  match l with
  | [] => ""
  | kv :: l' =>
      match l' with
      | [] => directive kv
      | _ => directive kv +:+ ", " +:+ directives l'
      end
  end.

Definition render (l : list (string * string)) : string :=
  "Digest " +:+ directives l.

(** The keys [parseAuthHeader] does not file under the index signature. *)
Definition reserved (k : string) : bool :=
  String.eqb k "realm" || String.eqb k "nonce" || String.eqb k "__proto__".

(** A directive the pattern can capture: a key of word characters and a
    value without double quote, neither empty. *)
Definition well_formed (kv : string * string) : Prop :=
  fst kv <> "" /\ forallb_str is_word (fst kv) = true /\
  snd kv <> "" /\ forallb_str not_dquote (snd kv) = true.

End Challenge.

(** ** More scenarios *)

Module Scenario2.
Import Js Node DigestAuth AMT Scenario.

(** The error of node-fetch when its own timeout runs out. *)
Definition request_timeout : Error :=
  mkError "network timeout at: http://10.0.0.5:16992/wsman" None (Some "request-timeout").

(** A device that answers nothing at all. *)
Definition dead_device : Env := mute_device (Throw econnreset).

(** A device whose answers to the authenticated request run into the
    timeout of node-fetch. *)
Definition slow_device : Env := device 0 (Throw request_timeout).

Definition full_challenge : list (string * string) :=
  [("realm", "Digest:A4070000000000000000000000000000");
   ("nonce", "k3VhAAkGAAAAAAAAtvKcM9Wt1Qd0rFBD");
   ("stale", "false"); ("qop", "auth")].

End Scenario2.
(** ** Facts about the JavaScript primitives *)

Module JsFacts.
Import Js.
#[local] Arguments String.append !s1 s2 : simpl nomatch.

Lemma str_app_assoc (a b c : string) : (a +:+ b) +:+ c = a +:+ (b +:+ c).
Proof. induction a as [|x a IH]; simpl; [reflexivity | now rewrite IH]. Qed.

Lemma str_app_nil_r (a : string) : a +:+ "" = a.
Proof. induction a as [|x a IH]; simpl; [reflexivity | now rewrite IH]. Qed.

Lemma str_app_length (a b : string) :
  String.length (a +:+ b) = (String.length a + String.length b)%nat.
Proof. induction a as [|x a IH]; simpl; [reflexivity | now rewrite IH]. Qed.

Lemma lit_app (t r : string) : lit t (t +:+ r) = Some r.
Proof.
  induction t as [|a t IH]; simpl; [reflexivity|].
  now rewrite Ascii.eqb_refl.
Qed.

Lemma lit_Some (t s r : string) : lit t s = Some r -> s = t +:+ r.
Proof.
  revert s; induction t as [|a t IH]; intros s H; simpl in *.
  - now injection H.
  - destruct s as [|b s]; [discriminate|].
    destruct (Ascii.eqb_spec a b) as [->|]; [|discriminate].
    now rewrite (IH _ H).
Qed.

Lemma lit_iff (t s r : string) : lit t s = Some r <-> s = t +:+ r.
Proof. split; [apply lit_Some | intros ->; apply lit_app]. Qed.

(** [span] splits its input, the first part lies in the class, and the second
    part does not start in it. *)
Lemma span_app (p : ascii -> bool) (s : string) :
  s = fst (span p s) +:+ snd (span p s).
Proof.
  induction s as [|c s IH]; simpl; [reflexivity|].
  destruct (p c); simpl; [|reflexivity].
  destruct (span p s); simpl in *. now rewrite IH at 1.
Qed.

Lemma span_forallb (p : ascii -> bool) (s : string) :
  forallb_str p (fst (span p s)) = true.
Proof.
  induction s as [|c s IH]; simpl; [reflexivity|].
  destruct (p c) eqn:Hc; simpl; [|reflexivity].
  destruct (span p s); simpl in *. now rewrite Hc.
Qed.

Lemma span_stop (p : ascii -> bool) (s : string) (c : ascii) (r : string) :
  snd (span p s) = String c r -> p c = false.
Proof.
  induction s as [|x s IH]; simpl; [discriminate|].
  destruct (p x) eqn:Hx; simpl.
  - destruct (span p s); simpl in *. exact IH.
  - intros H; injection H as -> _. exact Hx.
Qed.

(** A run of the class followed by something outside it is what [span]
    finds. *)
Lemma span_run (p : ascii -> bool) (a b : string) :
  forallb_str p a = true ->
  match b with String c _ => p c = false | EmptyString => True end ->
  span p (a +:+ b) = (a, b).
Proof.
  intros Ha Hb. induction a as [|x a IH]; simpl in *.
  - destruct b as [|c b]; [reflexivity|]. simpl. now rewrite Hb.
  - apply andb_true_iff in Ha as [Hx Ha]. now rewrite Hx, (IH Ha).
Qed.

Section Greedy.
Context {R : Type}.
Variable p : ascii -> bool.
Variable k : string -> string -> option R.

(** When the rest of the pattern cannot start with a code unit of the
    class, giving code units back never helps: greedy repetition with
    backtracking takes the longest run and commits. *)
Hypothesis k_refuses : forall acc c r, p c = true -> k acc (String c r) = None.

Lemma star_greedy_commits (acc s : string) :
  star_greedy p acc s k = k (acc +:+ fst (span p s)) (snd (span p s)).
Proof.
  revert acc; induction s as [|c s IH]; intros acc; simpl.
  - now rewrite str_app_nil_r.
  - destruct (p c) eqn:Hc; simpl.
    + rewrite IH, str_app_assoc. simpl.
      destruct (span p s) as [a b]; simpl.
      rewrite (k_refuses acc c s Hc).
      now destruct (k (acc +:+ String c a) b).
    + now rewrite str_app_nil_r.
Qed.

Lemma plus_greedy_commits (s : string) :
  plus_greedy p s k =
  match fst (span p s) with
  | EmptyString => None
  | run => k run (snd (span p s))
  end.
Proof.
  destruct s as [|c s]; simpl; [reflexivity|].
  destruct (p c) eqn:Hc; simpl; [|reflexivity].
  rewrite star_greedy_commits. simpl.
  now destruct (span p s).
Qed.
End Greedy.

Section Search.
Context {R : Type}.
Variable m : string -> option R.

Lemma search_Some (s : string) (r : R) :
  search m s = Some r ->
  exists pre suf, s = pre +:+ suf /\ m suf = Some r.
Proof.
  induction s as [|c s IH]; simpl.
  - destruct (m "") eqn:H0; [|discriminate].
    intros [= ->]. now exists "", "".
  - destruct (m (String c s)) eqn:H0.
    + intros [= ->]. now exists "", (String c s).
    + intros H. destruct (IH H) as (pre & suf & -> & Hm).
      now exists (String c pre), suf.
Qed.

Lemma search_None (s : string) :
  search m s = None <-> forall pre suf, s = pre +:+ suf -> m suf = None.
Proof.
  induction s as [|c s IH]; simpl.
  - split.
    + intros H pre suf E. destruct pre; [|discriminate]. simpl in E; subst suf.
      now destruct (m "").
    + intros H. now rewrite (H "" "" eq_refl).
  - split.
    + intros H pre suf E. destruct (m (String c s)) eqn:H0; [discriminate|].
      destruct pre as [|x pre]; simpl in E.
      * now subst suf.
      * injection E as -> E. destruct IH as [IH _].
        destruct s; apply (IH H pre suf E).
    + intros H. rewrite (H "" _ eq_refl).
      apply IH. intros pre suf E. apply (H (String c pre) suf). simpl. now rewrite E.
Qed.

(** Nothing matches at a position before the one of the match found. *)
Lemma search_Some_first (s : string) (r : R) :
  search m s = Some r ->
  exists pre suf,
    s = pre +:+ suf /\ m suf = Some r /\
    forall pre' suf', s = pre' +:+ suf' ->
                      (String.length pre' < String.length pre)%nat ->
                      m suf' = None.
Proof.
  induction s as [|c s IH]; simpl.
  - destruct (m "") eqn:H0; [|discriminate].
    intros [= ->]. exists "", "". split_and!; [reflexivity | exact H0 |].
    intros pre' suf' _ Hl. simpl in Hl. lia.
  - destruct (m (String c s)) eqn:H0.
    + intros [= ->]. exists "", (String c s).
      split_and!; [reflexivity | exact H0 |].
      intros pre' suf' _ Hl. simpl in Hl. lia.
    + intros H. destruct (IH H) as (pre & suf & -> & Hm & Hfirst).
      exists (String c pre), suf. split_and!; [reflexivity | exact Hm |].
      intros [|x p'] suf' E Hl; simpl in E.
      * now subst suf'.
      * injection E as _ E. apply (Hfirst p' suf' E). simpl in Hl. lia.
Qed.

(** The match found is the leftmost one. *)
Lemma search_leftmost (pre suf : string) (r : R) :
  m suf = Some r ->
  (forall a b, pre = a +:+ b -> b <> "" -> m (b +:+ suf) = None) ->
  search m (pre +:+ suf) = Some r.
Proof.
  intros Hm. induction pre as [|c pre IH]; intros Hno; simpl.
  - destruct suf; simpl; now rewrite Hm.
  - pose proof (Hno "" (String c pre) eq_refl ltac:(discriminate)) as H0.
    simpl in H0. rewrite H0.
    apply IH. intros a b E Hb. apply (Hno (String c a) b); [simpl; now rewrite E | exact Hb].
Qed.
End Search.

Lemma includes_true (s t : string) :
  includes s t = true <-> exists pre post, s = pre +:+ t +:+ post.
Proof.
  unfold includes. split.
  - destruct (search (lit t) s) eqn:H; [|discriminate]. intros _.
    apply search_Some in H as (pre & suf & -> & H).
    apply lit_Some in H. exists pre, s0. now rewrite H.
  - intros (pre & post & ->).
    destruct (search (lit t) (pre +:+ t +:+ post)) eqn:H; [reflexivity|].
    rewrite search_None in H. specialize (H pre _ eq_refl).
    now rewrite lit_app in H.
Qed.

Lemma includes_false (s t : string) :
  includes s t = false <-> forall pre post, s <> pre +:+ t +:+ post.
Proof.
  split.
  - intros H pre post E.
    assert (includes s t = true) by (apply includes_true; eauto). congruence.
  - intros H. destruct (includes s t) eqn:E; [|reflexivity].
    apply includes_true in E as (pre & post & E). now destruct (H pre post).
Qed.

End JsFacts.

(** ** Facts about the runtime *)

Module NodeFacts.
Import Js Node.

Section Laws.
Context {S A B : Type}.

Lemma bind_Ok (c : M S A) (k : A -> M S B) (s s' : S) (a : A) :
  c s = (Ok a, s') -> bind c k s = k a s'.
Proof. unfold bind. now intros ->. Qed.

Lemma bind_Throw (c : M S A) (k : A -> M S B) (s s' : S) (e : Error) :
  c s = (Throw e, s') -> bind c k s = (Throw e, s').
Proof. unfold bind. now intros ->. Qed.

Lemma try_catch_Ok (c : M S A) (h : Error -> M S A) (s s' : S) (a : A) :
  c s = (Ok a, s') -> try_catch c h s = (Ok a, s').
Proof. unfold try_catch. now intros ->. Qed.

Lemma try_catch_Throw (c : M S A) (h : Error -> M S A) (s s' : S) (e : Error) :
  c s = (Throw e, s') -> try_catch c h s = h e s'.
Proof. unfold try_catch. now intros ->. Qed.
End Laws.

(** A handler that throws its error again changes nothing. *)
Lemma try_catch_rethrow {S A} (c : M S A) (s : S) :
  try_catch c (fun error => throw error) s = c s.
Proof. unfold try_catch, throw. now destruct (c s) as [[a|e] s']. Qed.

End NodeFacts.

(** ** Facts about digest-auth.ts *)

Module DigestAuthFacts.
Import Js Node DigestAuth JsFacts.
#[local] Arguments String.append !s1 s2 : simpl nomatch.

(** *** The pattern of [parseAuthHeader] *)

Lemma word_then_equals (c : ascii) (r : string) :
  is_word c = true -> lit ("=" +:+ dq) (String c r) = None.
Proof.
  intros Hc.
  change (lit ("=" +:+ dq) (String c r))
    with (if Ascii.eqb "="%char c then lit dq r else None).
  destruct (Ascii.eqb_spec "="%char c) as [<-|]; [|reflexivity].
  discriminate Hc.
Qed.

Lemma value_then_quote (c : ascii) (r : string) :
  not_dquote c = true -> lit dq (String c r) = None.
Proof.
  unfold not_dquote. intros Hc.
  change (lit dq (String c r)) with (if Ascii.eqb dquote c then Some r else None).
  rewrite Ascii.eqb_sym. now destruct (Ascii.eqb c dquote).
Qed.

(** Backtracking never changes the outcome of this pattern: both runs are
    followed by a code unit outside their class, so each attempt is the
    longest key, the two literal code units, the longest value and the
    closing quote. *)
Lemma auth_regex_at_eq (s : string) :
  auth_regex_at s =
  match fst (span is_word s) with
  | EmptyString => None
  | key =>
      match lit ("=" +:+ dq) (snd (span is_word s)) with
      | None => None
      | Some s2 =>
          match fst (span not_dquote s2) with
          | EmptyString => None
          | val =>
              match lit dq (snd (span not_dquote s2)) with
              | None => None
              | Some s4 => Some (key, val, s4)
              end
          end
      end
  end.
Proof.
  unfold auth_regex_at. rewrite plus_greedy_commits.
  - destruct (fst (span is_word s)); [reflexivity|].
    destruct (lit ("=" +:+ dq) (snd (span is_word s))) as [s2|]; [|reflexivity].
    rewrite plus_greedy_commits; [reflexivity|].
    intros acc c r Hc. now rewrite value_then_quote.
  - intros acc c r Hc. now rewrite word_then_equals.
Qed.

Lemma auth_regex_at_Some (s key val rest : string) :
  auth_regex_at s = Some (key, val, rest) ->
  key <> "" /\ forallb_str is_word key = true /\
  val <> "" /\ forallb_str not_dquote val = true /\
  s = key +:+ "=" +:+ dq +:+ val +:+ dq +:+ rest.
Proof.
  rewrite auth_regex_at_eq.
  pose proof (span_app is_word s) as Hs.
  pose proof (span_forallb is_word s) as Hk.
  destruct (fst (span is_word s)) as [|k0 k] eqn:Ek; [discriminate|].
  destruct (lit ("=" +:+ dq) (snd (span is_word s))) as [s2|] eqn:El; [|discriminate].
  pose proof (span_app not_dquote s2) as Hs2.
  pose proof (span_forallb not_dquote s2) as Hv.
  destruct (fst (span not_dquote s2)) as [|v0 v] eqn:Ev; [discriminate|].
  destruct (lit dq (snd (span not_dquote s2))) as [s4|] eqn:Eq; [|discriminate].
  intros [= <- <- <-].
  apply lit_Some in El, Eq.
  repeat split; try discriminate; try assumption.
  rewrite Hs, El, Hs2, Eq. now rewrite !str_app_assoc.
Qed.

Lemma auth_regex_at_intro (key val rest : string) :
  key <> "" -> forallb_str is_word key = true ->
  val <> "" -> forallb_str not_dquote val = true ->
  auth_regex_at (key +:+ "=" +:+ dq +:+ val +:+ dq +:+ rest) = Some (key, val, rest).
Proof.
  intros Hk Hkw Hv Hvq. rewrite auth_regex_at_eq.
  rewrite (span_run is_word key ("=" +:+ dq +:+ val +:+ dq +:+ rest) Hkw) by reflexivity.
  cbn [fst snd].
  destruct key as [|k0 key]; [contradiction|].
  change ("=" +:+ dq +:+ val +:+ dq +:+ rest)
    with (("=" +:+ dq) +:+ val +:+ dq +:+ rest).
  rewrite lit_app.
  rewrite (span_run not_dquote val (dq +:+ rest) Hvq) by reflexivity.
  cbn [fst snd]. destruct val; [contradiction|]. now rewrite lit_app.
Qed.

(** A match is a piece of the challenge, and the loop resumes after it. *)
Lemma auth_regex_exec_Some (s key val rest : string) :
  auth_regex_exec s = Some (key, val, rest) ->
  exists pre,
    s = pre +:+ key +:+ "=" +:+ dq +:+ val +:+ dq +:+ rest /\
    key <> "" /\ forallb_str is_word key = true /\
    val <> "" /\ forallb_str not_dquote val = true.
Proof.
  intros H. apply search_Some in H as (pre & suf & -> & H).
  apply auth_regex_at_Some in H as (? & ? & ? & ? & ->).
  now exists pre.
Qed.

Lemma auth_regex_exec_shorter (s key val rest : string) :
  auth_regex_exec s = Some (key, val, rest) ->
  (String.length rest < String.length s)%nat.
Proof.
  intros H. apply auth_regex_exec_Some in H as (pre & -> & _).
  rewrite !str_app_length. simpl. lia.
Qed.

Lemma auth_regex_exec_empty : auth_regex_exec "" = None.
Proof. reflexivity. Qed.

(** *** The loop *)

(** The loop never runs out of iterations: any bound from the length of the
    input on gives the same parameters. *)
Lemma parse_loop_fuel (f1 f2 : nat) (s : string) (p : AuthParams) :
  (String.length s <= f1)%nat -> (String.length s <= f2)%nat ->
  parse_loop f1 s p = parse_loop f2 s p.
Proof.
  revert f2 s p. induction f1 as [|f1 IH]; intros f2 s p H1 H2.
  - destruct s; [|simpl in H1; lia]. destruct f2; reflexivity.
  - destruct f2 as [|f2].
    + destruct s; [|simpl in H2; lia]. reflexivity.
    + simpl. destruct (auth_regex_exec s) as [[[k v] rest]|] eqn:Ex; [|reflexivity].
      apply auth_regex_exec_shorter in Ex. apply IH; lia.
Qed.

(** The loop as the source writes it: run the pattern, assign, go on after
    the match. *)
Lemma parse_loop_unfold (s : string) (p : AuthParams) :
  parse_loop (String.length s) s p =
  match auth_regex_exec s with
  | Some (k, v, rest) => parse_loop (String.length rest) rest (set_param k v p)
  | None => p
  end.
Proof.
  destruct s as [|c s]; [reflexivity|].
  change (String.length (String c s)) with (S (String.length s)).
  cbn [parse_loop].
  destruct (auth_regex_exec (String c s)) as [[[k v] rest]|] eqn:Ex; [|reflexivity].
  apply auth_regex_exec_shorter in Ex. simpl in Ex.
  apply parse_loop_fuel; lia.
Qed.

Lemma captures_fuel_enough (f1 f2 : nat) (s : string) :
  (String.length s <= f1)%nat -> (String.length s <= f2)%nat ->
  captures_fuel f1 s = captures_fuel f2 s.
Proof.
  revert f2 s. induction f1 as [|f1 IH]; intros f2 s H1 H2.
  - destruct s; [|simpl in H1; lia]. destruct f2; reflexivity.
  - destruct f2 as [|f2].
    + destruct s; [|simpl in H2; lia]. reflexivity.
    + simpl. destruct (auth_regex_exec s) as [[[k v] rest]|] eqn:Ex; [|reflexivity].
      apply auth_regex_exec_shorter in Ex. f_equal. apply IH; lia.
Qed.

Lemma captures_unfold (s : string) :
  captures s =
  match auth_regex_exec s with
  | Some (k, v, rest) => (k, v) :: captures rest
  | None => []
  end.
Proof.
  unfold captures. destruct s as [|c s]; [reflexivity|].
  change (String.length (String c s)) with (S (String.length s)).
  cbn [captures_fuel].
  destruct (auth_regex_exec (String c s)) as [[[k v] rest]|] eqn:Ex; [|reflexivity].
  apply auth_regex_exec_shorter in Ex. simpl in Ex.
  f_equal. apply captures_fuel_enough; lia.
Qed.

Lemma parse_loop_captures (fuel : nat) (s : string) (p : AuthParams) :
  parse_loop fuel s p = fold_left assign (captures_fuel fuel s) p.
Proof.
  revert s p. induction fuel as [|fuel IH]; intros s p; simpl; [reflexivity|].
  destruct (auth_regex_exec s) as [[[k v] rest]|]; [|reflexivity].
  simpl. apply IH.
Qed.

(** Every captured value is a non-empty text. *)
Lemma captures_fuel_values (fuel : nat) (s k v : string) :
  In (k, v) (captures_fuel fuel s) -> v <> "".
Proof.
  revert s. induction fuel as [|fuel IH]; intros s; simpl; [contradiction|].
  destruct (auth_regex_exec s) as [[[k' v'] rest]|] eqn:Ex; [|contradiction].
  intros [[= -> ->]|H]; [|now apply (IH rest)].
  now apply auth_regex_exec_Some in Ex as (_ & _ & _ & _ & ? & _).
Qed.

(** Every capture is written in the challenge as key, equals sign, quoted
    value. *)
Lemma captures_fuel_occur (fuel : nat) (s k v : string) :
  In (k, v) (captures_fuel fuel s) ->
  exists pre post, s = pre +:+ k +:+ "=" +:+ dq +:+ v +:+ dq +:+ post.
Proof.
  revert s. induction fuel as [|fuel IH]; intros s; simpl; [contradiction|].
  destruct (auth_regex_exec s) as [[[k' v'] rest]|] eqn:Ex; [|contradiction].
  apply auth_regex_exec_Some in Ex as (pre & -> & _).
  intros [[= -> ->]|H]; [now exists pre, rest|].
  destruct (IH rest H) as (pre' & post & ->).
  exists (pre +:+ k' +:+ "=" +:+ dq +:+ v' +:+ dq +:+ pre'), post.
  now rewrite !str_app_assoc.
Qed.

(** *** Assignments *)

Lemma realm_set_param (k v : string) (p : AuthParams) :
  realm (set_param k v p) = if String.eqb k "realm" then v else realm p.
Proof.
  unfold set_param. destruct (String.eqb k "realm"); [reflexivity|].
  destruct (String.eqb k "nonce"); [reflexivity|].
  now destruct (String.eqb k "__proto__").
Qed.

Lemma nonce_set_param (k v : string) (p : AuthParams) :
  nonce (set_param k v p) = if String.eqb k "nonce" then v else nonce p.
Proof.
  unfold set_param. destruct (String.eqb_spec k "realm") as [->|]; [reflexivity|].
  destruct (String.eqb k "nonce"); [reflexivity|].
  now destruct (String.eqb k "__proto__").
Qed.

Lemma realm_fold (l : list (string * string)) (p : AuthParams) :
  realm (fold_left assign l p) = default (realm p) (last_value "realm" l).
Proof.
  revert p. induction l as [|[k v] l IH]; intros p; simpl; [reflexivity|].
  rewrite IH. unfold assign; simpl. rewrite realm_set_param.
  destruct (last_value "realm" l); [reflexivity|].
  now destruct (String.eqb k "realm").
Qed.

Lemma nonce_fold (l : list (string * string)) (p : AuthParams) :
  nonce (fold_left assign l p) = default (nonce p) (last_value "nonce" l).
Proof.
  revert p. induction l as [|[k v] l IH]; intros p; simpl; [reflexivity|].
  rewrite IH. unfold assign; simpl. rewrite nonce_set_param.
  destruct (last_value "nonce" l); [reflexivity|].
  now destruct (String.eqb k "nonce").
Qed.

Lemma last_value_In (k v : string) (l : list (string * string)) :
  last_value k l = Some v -> In (k, v) l.
Proof.
  induction l as [|[k' v'] l IH]; simpl; [discriminate|].
  destruct (last_value k l) as [v''|].
  - intros [= ->]. right. now apply IH.
  - destruct (String.eqb_spec k' k) as [->|]; [|discriminate].
    intros [= ->]. now left.
Qed.

Lemma last_value_None (k : string) (l : list (string * string)) :
  last_value k l = None <-> ~ In k (map fst l).
Proof.
  induction l as [|[k' v'] l IH]; simpl; [tauto|].
  destruct (last_value k l) as [v''|] eqn:El.
  - split; [discriminate|]. intros H. exfalso. apply H. right.
    apply last_value_In in El. now apply (in_map fst) in El.
  - destruct (String.eqb_spec k' k) as [->|Hne].
    + split; [discriminate|]. intros H. exfalso. apply H. now left.
    + split; [|reflexivity]. intros _ [E|Hin]; [contradiction|].
      now apply IH in Hin.
Qed.

(** *** [parseAuthHeader] *)

Lemma parseAuthHeader_eq (authHeader : string) :
  parseAuthHeader authHeader =
  let p := fold_left assign (captures authHeader) (mkAuthParams "" "" ∅) in
  if String.eqb (realm p) "" || String.eqb (nonce p) ""
  then Throw missing_params else Ok p.
Proof. unfold parseAuthHeader, captures. now rewrite parse_loop_captures. Qed.

(** C6.  A challenge in which the pattern captures no pair with the key
    realm, or none with the key nonce, makes [parseAuthHeader] throw; a
    challenge in which it captures both makes it return parameters whose
    realm and nonce are the captured values (the last one of each when a key
    is repeated), and these are never empty: no partially filled challenge is
    ever returned. *)
Theorem parseAuthHeader_realm_nonce (authHeader : string) :
  (~ In "realm" (map fst (captures authHeader)) \/
   ~ In "nonce" (map fst (captures authHeader)) ->
   parseAuthHeader authHeader = Throw missing_params)
  /\ (In "realm" (map fst (captures authHeader)) ->
      In "nonce" (map fst (captures authHeader)) ->
      exists p r n,
        parseAuthHeader authHeader = Ok p /\
        last_value "realm" (captures authHeader) = Some r /\
        last_value "nonce" (captures authHeader) = Some n /\
        realm p = r /\ nonce p = n)
  /\ (forall p, parseAuthHeader authHeader = Ok p ->
      realm p <> "" /\ nonce p <> "" /\
      In ("realm", realm p) (captures authHeader) /\
      In ("nonce", nonce p) (captures authHeader)).
Proof.
  rewrite parseAuthHeader_eq. cbv zeta.
  rewrite realm_fold, nonce_fold. cbn [realm nonce].
  destruct (last_value "realm" (captures authHeader)) as [r|] eqn:Er;
    destruct (last_value "nonce" (captures authHeader)) as [n|] eqn:En;
    cbn [default].
  - pose proof (last_value_In _ _ _ Er) as Hr.
    pose proof (last_value_In _ _ _ En) as Hn.
    pose proof (captures_fuel_values _ _ _ _ Hr) as Hr0.
    pose proof (captures_fuel_values _ _ _ _ Hn) as Hn0.
    apply String.eqb_neq in Hr0 as Hr1. apply String.eqb_neq in Hn0 as Hn1.
    rewrite Hr1, Hn1. cbn [orb].
    split; [|split].
    + intros [H|H]; exfalso; apply H.
      * now apply (in_map fst) in Hr.
      * now apply (in_map fst) in Hn.
    + intros _ _. eexists _, r, n. split; [reflexivity|].
      rewrite realm_fold, nonce_fold, Er, En. now cbn [default].
    + intros p [= <-]. rewrite realm_fold, nonce_fold, Er, En. now cbn [default].
  - apply last_value_None in En. rewrite orb_true_r.
    split; [reflexivity | split; [tauto | discriminate]].
  - apply last_value_None in Er. rewrite String.eqb_refl. cbn [orb].
    split; [reflexivity | split; [tauto | discriminate]].
  - apply last_value_None in Er. rewrite String.eqb_refl. cbn [orb].
    split; [reflexivity | split; [tauto | discriminate]].
Qed.

#[local] Arguments md5_hex : simpl never.
#[local] Arguments digest_header_spec : simpl never.
#[local] Arguments hex : simpl never.
#[local] Arguments N.pow : simpl never.
#[local] Arguments N.mul : simpl never.

(** *** [constructDigestAuthHeader] *)

(** What one call does: it draws 16 random bytes, and its result is the
    header of the specification for the client nonce they spell. *)
Lemma constructDigestAuthHeader_run
      (E : Env) (authParams : AuthParams) (options : DigestOptions) (w : World) :
  constructDigestAuthHeader E authParams options w =
  (Ok (digest_header_spec
         (realm authParams) (nonce authParams)
         (username options) (password options)
         (default "POST" (method options)) (url options)
         (hex (map Byte.to_N (random_bytes E (randoms w) 16)))),
   count_random w).
Proof. reflexivity. Qed.

(** C1.  [constructDigestAuthHeader] takes 16 random bytes and nothing else
    from the world.  With the client nonce they spell in hexadecimal, its
    result is the literal header below, in which the response is the MD5 of
    HA1, the nonce, 00000001, the client nonce, auth and HA2, HA1 is the MD5
    of user name, realm and password, and HA2 the MD5 of method and uri: a
    function of these seven texts alone. *)
Theorem constructDigestAuthHeader_literal
        (E : Env) (authParams : AuthParams) (options : DigestOptions) (w : World) :
  let realm := realm authParams in
  let nonce := nonce authParams in
  let username := username options in
  let password := password options in
  let method := default "POST" (method options) in
  let uri := url options in
  let cnonce := hex (map Byte.to_N (random_bytes E (randoms w) 16)) in
  let HA1 := md5_hex (username +:+ ":" +:+ realm +:+ ":" +:+ password) in
  let HA2 := md5_hex (method +:+ ":" +:+ uri) in
  let response :=
    md5_hex (HA1 +:+ ":" +:+ nonce +:+ ":00000001:" +:+ cnonce +:+ ":auth:" +:+ HA2) in
  constructDigestAuthHeader E authParams options w =
  (Ok ("Digest username=" +:+ dq +:+ username +:+ dq
       +:+ ", realm=" +:+ dq +:+ realm +:+ dq
       +:+ ", nonce=" +:+ dq +:+ nonce +:+ dq
       +:+ ", uri=" +:+ dq +:+ uri +:+ dq
       +:+ ", cnonce=" +:+ dq +:+ cnonce +:+ dq
       +:+ ", nc=00000001, qop=auth, response=" +:+ dq +:+ response +:+ dq),
   count_random w)
  /\ "Digest username=" +:+ dq +:+ username +:+ dq
       +:+ ", realm=" +:+ dq +:+ realm +:+ dq
       +:+ ", nonce=" +:+ dq +:+ nonce +:+ dq
       +:+ ", uri=" +:+ dq +:+ uri +:+ dq
       +:+ ", cnonce=" +:+ dq +:+ cnonce +:+ dq
       +:+ ", nc=00000001, qop=auth, response=" +:+ dq +:+ response +:+ dq
     = digest_header_spec realm nonce username password method uri cnonce.
Proof. split; reflexivity. Qed.

(** *** [getDigestHeader] *)

Section Probe.
Variable E : Env.
Variables url username password method : string.
Variable headers : gmap string string.

Let req := probe_request url method headers.

Lemma probe_Some (w : World) (p : AuthParams) :
  challenge (probe_reply E (probes w) req) = Some p ->
  probe E url username password method headers w =
  (Ok (digest_header_spec (realm p) (nonce p) username password method url
         (hex (map Byte.to_N (random_bytes E (randoms w) 16)))),
   count_random (count_probe (log (Probe req) w))).
Proof.
  unfold challenge, probe, bind, fetch_probe. fold req.
  destruct (probe_reply E (probes w) req) as [response|e]; [|discriminate].
  destruct (res_headers response !! "www-authenticate") as [h|]; [|discriminate].
  destruct (parseAuthHeader h) as [p'|e] eqn:Ep; [|discriminate].
  intros [= ->].
  destruct h as [|c h]; [discriminate Ep|].
  unfold of_result. now rewrite constructDigestAuthHeader_run.
Qed.

Lemma probe_None (w : World) :
  challenge (probe_reply E (probes w) req) = None ->
  exists e, probe E url username password method headers w =
            (Throw e, count_probe (log (Probe req) w)).
Proof.
  unfold challenge, probe, bind, fetch_probe. fold req.
  destruct (probe_reply E (probes w) req) as [response|e]; [|now eexists].
  destruct (res_headers response !! "www-authenticate") as [h|]; [|now eexists].
  destruct h as [|c h]; [now eexists|].
  unfold of_result.
  destruct (parseAuthHeader (String c h)) as [p'|e] eqn:Ep; [discriminate|].
  now eexists.
Qed.
End Probe.

Section GetDigestHeader.
Variable E : Env.
Variable o : DigestOptions.

Let req := probe_request (url o) (default "GET" (method o)) (default ∅ (headers o)).

Lemma getDigestHeader_from_never_throws (left retryCount : nat) (w : World) :
  exists r w', getDigestHeader_from E left o retryCount w = (Ok r, w').
Proof.
  revert retryCount w. induction left as [|left IH]; intros retryCount w;
    cbn [getDigestHeader_from]; unfold try_catch, bind at 1.
  - destruct (probe E _ _ _ _ _ w) as [[h|e] w']; unfold ret; eauto.
  - destruct (probe E _ _ _ _ _ w) as [[h|e] w']; unfold ret; eauto.
    unfold bind, sleep. apply IH.
Qed.

Lemma getDigestHeader_from_succeeds (left k retryCount : nat) (w : World) (p : AuthParams) :
  (k <= left)%nat ->
  (forall i, (i < k)%nat -> challenge (probe_reply E (probes w + i) req) = None) ->
  challenge (probe_reply E (probes w + k) req) = Some p ->
  getDigestHeader_from E left o retryCount w =
  (Ok (Some (digest_header_spec (realm p) (nonce p) (username o) (password o)
               (default "GET" (method o)) (url o)
               (hex (map Byte.to_N (random_bytes E (randoms w) 16))))),
   count_random (probed req retryCount k w)).
Proof.
  revert left retryCount w. induction k as [|k IH]; intros left retryCount w Hk Hfail Hok.
  - rewrite Nat.add_0_r in Hok.
    destruct left; cbn [getDigestHeader_from]; unfold try_catch, bind at 1;
      rewrite (probe_Some E (url o) (username o) (password o) _ _ w p Hok); unfold ret, probed, count_random,
      count_probe, log; cbn; now rewrite Nat.add_0_r, Nat.add_1_r.
  - destruct left as [|left]; [lia|].
    cbn [getDigestHeader_from]. unfold try_catch, bind at 1.
    pose proof (Hfail 0%nat ltac:(lia)) as H0. rewrite Nat.add_0_r in H0.
    destruct (probe_None E (url o) (username o) (password o) _ _ w H0) as [e ->].
    unfold bind, sleep.
    rewrite (IH left (S retryCount) _ ltac:(lia)).
    + unfold probed, count_random, count_probe, log; cbn.
      rewrite <- !app_assoc. cbn. do 2 f_equal. f_equal; lia.
    + intros i Hi. cbn. rewrite <- (Hfail (S i)) by lia. do 2 f_equal. lia.
    + cbn. rewrite <- Hok. do 2 f_equal. lia.
Qed.

Lemma getDigestHeader_from_exhausted (left retryCount : nat) (w : World) :
  (forall i, (i <= left)%nat -> challenge (probe_reply E (probes w + i) req) = None) ->
  getDigestHeader_from E left o retryCount w = (Ok None, probed req retryCount left w).
Proof.
  revert retryCount w. induction left as [|left IH]; intros retryCount w Hfail;
    cbn [getDigestHeader_from]; unfold try_catch, bind at 1;
    pose proof (Hfail 0%nat ltac:(lia)) as H0; rewrite Nat.add_0_r in H0;
    destruct (probe_None E (url o) (username o) (password o) _ _ w H0) as [e ->].
  - unfold ret, probed, count_probe, log; cbn. now rewrite Nat.add_0_r, Nat.add_1_r.
  - unfold bind, sleep. rewrite IH.
    + unfold probed, count_probe, log; cbn.
      rewrite <- !app_assoc. cbn. f_equal. f_equal; lia.
    + intros i Hi. cbn. rewrite <- (Hfail (S i)) by lia. do 2 f_equal. lia.
Qed.

(** The challenge fetch touches neither the resolver nor the
    authenticated exchange, and what it adds to the trace is its own. *)
Lemma getDigestHeader_from_frame (left retryCount : nat) (w w' : World)
      (r : result (option string)) :
  getDigestHeader_from E left o retryCount w = (r, w') ->
  lookups w' = lookups w /\ posts w' = posts w /\ uuids w' = uuids w /\
  exists t, trace w' = trace w ++ t /\ AMT.executor_view t = [].
Proof.
  revert retryCount w. induction left as [|left IH]; intros retryCount w;
    cbn [getDigestHeader_from]; unfold try_catch, bind at 1;
    (destruct (challenge (probe_reply E (probes w) req)) as [p|] eqn:Hc;
     [ rewrite (probe_Some E (url o) (username o) (password o) _ _ w p Hc)
     | destruct (probe_None E (url o) (username o) (password o) _ _ w Hc) as [e ->] ]).
  - intros [= <- <-]. split_and!; try reflexivity. now exists [Probe req].
  - intros [= <- <-]. split_and!; try reflexivity. now exists [Probe req].
  - intros [= <- <-]. split_and!; try reflexivity. now exists [Probe req].
  - unfold bind, sleep. intros H.
    apply IH in H as (Hl & Hp & Hu & t & Ht & Hv).
    rewrite Hl, Hp, Hu, Ht. split_and!; try reflexivity.
    exists (Probe req :: ProbeWait (2 ^ N.of_nat retryCount * 1000) :: t).
    split; [cbn [trace count_probe log]; now rewrite <- !app_assoc | exact Hv].
Qed.
End GetDigestHeader.

(** The recursion of the source: on a failure with [retryCount < maxRetries],
    wait and call [getDigestHeader] with [retryCount + 1]; otherwise return
    [undefined]. *)
Lemma getDigestHeader_unfold (E : Env) (options : DigestHeaderOptions) (w : World) :
  let o := base options in
  let retryCount := default 0%nat (retryCount options) in
  let maxRetries := default 3%nat (maxRetries options) in
  getDigestHeader E options w =
  try_catch
    (digestHeader <- probe E (url o) (username o) (password o)
                           (default "GET" (method o)) (default ∅ (headers o)) ;;
     ret (Some digestHeader))%async
    (fun error =>
       if (retryCount <? maxRetries)%nat then
         (sleep ProbeWait (2 ^ N.of_nat retryCount * 1000) ;;;
          getDigestHeader E
            (mkDigestHeaderOptions o (Some (S retryCount)) (DigestAuth.maxRetries options)))%async
       else ret None) w.
Proof.
  cbv zeta. unfold getDigestHeader. cbn [base DigestAuth.retryCount DigestAuth.maxRetries default].
  set (rc := default 0%nat (retryCount options)).
  set (mr := default 3%nat (maxRetries options)).
  destruct (Nat.ltb_spec rc mr) as [Hlt|Hge].
  - replace (mr - rc)%nat with (S (mr - S rc)) by lia. reflexivity.
  - replace (mr - rc)%nat with 0%nat by lia. reflexivity.
Qed.

(** C4.  [getDigestHeader] never throws.  When every probe up to the retry
    bound fails (the exchange throws, the header is missing, or
    [parseAuthHeader] rejects it), it makes [maxRetries - retryCount + 1]
    probes, waits [2^attempt] seconds after each but the last, and returns
    [undefined].  When the probe after [k] such failures within the bound
    carries a challenge, it returns the header for that challenge after
    exactly those [k] waits. *)
Theorem getDigestHeader_retries (E : Env) (options : DigestHeaderOptions) (w : World) :
  let o := base options in
  let retryCount := default 0%nat (retryCount options) in
  let maxRetries := default 3%nat (maxRetries options) in
  let req := probe_request (url o) (default "GET" (method o)) (default ∅ (headers o)) in
  (exists r w', getDigestHeader E options w = (Ok r, w'))
  /\ ((forall i, (i <= maxRetries - retryCount)%nat ->
         challenge (probe_reply E (probes w + i) req) = None) ->
      getDigestHeader E options w =
      (Ok None, probed req retryCount (maxRetries - retryCount) w))
  /\ (forall k p,
        (k <= maxRetries - retryCount)%nat ->
        (forall i, (i < k)%nat ->
           challenge (probe_reply E (probes w + i) req) = None) ->
        challenge (probe_reply E (probes w + k) req) = Some p ->
        getDigestHeader E options w =
        (Ok (Some (digest_header_spec (realm p) (nonce p) (username o) (password o)
                     (default "GET" (method o)) (url o)
                     (hex (map Byte.to_N (random_bytes E (randoms w) 16))))),
         count_random (probed req retryCount k w))).
Proof.
  cbv zeta. unfold getDigestHeader. split_and!.
  - apply getDigestHeader_from_never_throws.
  - apply getDigestHeader_from_exhausted.
  - intros k p. apply getDigestHeader_from_succeeds.
Qed.

(** The failures the retry covers. *)
Lemma challenge_None (reply : result Response) :
  challenge reply = None <->
  (exists e, reply = Throw e) \/
  (exists response, reply = Ok response /\
     (res_headers response !! "www-authenticate" = None \/
      exists h e, res_headers response !! "www-authenticate" = Some h /\
                  parseAuthHeader h = Throw e)).
Proof.
  unfold challenge. destruct reply as [response|e].
  - destruct (res_headers response !! "www-authenticate") as [h|] eqn:Eh.
    + destruct (parseAuthHeader h) as [p|e] eqn:Ep.
      * split; [discriminate|].
        intros [[e [=]]|(r & [= <-] & [H|(h' & e & H & H')])]; congruence.
      * split; [|reflexivity]. intros _. right. exists response. split; [reflexivity|].
        right. now exists h, e.
    + split; [|reflexivity]. intros _. right. exists response. now split; [|left].
  - split; [|reflexivity]. intros _. left. now exists e.
Qed.

End DigestAuthFacts.

(** ** Facts about amt-manager.ts *)

Module AMTFacts.
Import Js Node DigestAuth AMT JsFacts NodeFacts DigestAuthFacts.
#[local] Arguments String.append !s1 s2 : simpl nomatch.
#[local] Arguments connection : simpl never.
#[local] Arguments request_options : simpl never.
#[local] Arguments protocol_error : simpl never.
#[local] Arguments resolution_error : simpl never.
#[local] Arguments exhausted : simpl never.
#[local] Arguments N.pow : simpl never.
#[local] Arguments N.mul : simpl never.

Lemma executor_view_app (a b : list Event) :
  executor_view (a ++ b) = executor_view a ++ executor_view b.
Proof. apply flat_map_app. Qed.

Lemma needs_resolve_connection (cfg : Config) (address : string) :
  needs_resolve (connection cfg address) = false.
Proof.
  unfold needs_resolve, connection. cbn [baseUrl agent is_null].
  rewrite orb_false_r. now destruct (show_opt id (c_protocol cfg)).
Qed.

Lemma is_connection_error_new (msg : string) :
  is_connection_error (new_Error msg) = false.
Proof. reflexivity. Qed.

Section Steps.
Variable E : Env.

Lemma resolveHost_Ok (s : Session) (address : string) :
  dns E (lookups (world s)) (c_host (config (self s)))
      (lookup_family (config (self s))) = Ok address ->
  resolveHost E s =
  (Ok tt, mkSession (connection (config (self s)) address)
                    (after_lookup (config (self s)) (world s))).
Proof.
  intros H.
  cbv [resolveHost bind get_this try_catch lift lookup set_this].
  now rewrite H.
Qed.

Lemma resolveHost_Throw (s : Session) (e : Error) :
  dns E (lookups (world s)) (c_host (config (self s)))
      (lookup_family (config (self s))) = Throw e ->
  resolveHost E s =
  (Throw (resolution_error (config (self s)) e),
   mkSession (self s) (after_lookup (config (self s)) (world s))).
Proof.
  intros H.
  cbv [resolveHost bind get_this try_catch lift lookup set_this throw].
  now rewrite H.
Qed.

Lemma ensureResolved_ready (s : Session) :
  needs_resolve (self s) = false -> ensureResolved E s = (Ok tt, s).
Proof.
  intros H. cbv [ensureResolved bind get_this ret]. now rewrite H.
Qed.

Lemma ensureResolved_resolves (s : Session) :
  needs_resolve (self s) = true -> ensureResolved E s = resolveHost E s.
Proof.
  intros H. cbv [ensureResolved bind get_this]. now rewrite H.
Qed.

Lemma prepareRequest_run (action body : string) (s : Session) :
  exists digestHeader w',
    getDigestHeader E (digest_options (self s)) (world s) = (Ok digestHeader, w') /\
    prepareRequest E action body s =
    (Ok (request_options (self s) digestHeader action body),
     mkSession (self s) w').
Proof.
  destruct (getDigestHeader_from_never_throws E
              (base (digest_options (self s)))
              (default 3%nat (maxRetries (digest_options (self s))) - 0) 0
              (world s)) as (dh & w' & H).
  exists dh, w'. split; [exact H|].
  cbv [prepareRequest bind get_this lift ret].
  change (getDigestHeader E (digest_options (self s)) (world s)) with
    (getDigestHeader_from E
       (default 3%nat (maxRetries (digest_options (self s))) - 0)
       (base (digest_options (self s))) 0 (world s)).
  now rewrite H.
Qed.

Lemma send_eq (r : Request) (s : Session) :
  send E r s =
  (attempt (post_reply E (posts (world s)) r),
   mkSession (self s) (after_post r (world s))).
Proof.
  cbv [send bind lift fetch_post throw ret text of_result attempt].
  destruct (post_reply E (posts (world s)) r) as [response|e]; [|reflexivity].
  destruct (ok response); [reflexivity|].
  now destruct (res_body response).
Qed.

Lemma attempt_Ok (reply : result Response) (response : Response) :
  attempt reply = Ok response <-> reply = Ok response /\ ok response = true.
Proof.
  unfold attempt. destruct reply as [r|e]; [|split; [discriminate | now intros [? _]]].
  destruct (ok r) eqn:Hr.
  - split; [now intros [= ->] | now intros [[= ->] _]].
  - split.
    + destruct (res_body r); discriminate.
    + intros [[= ->] H]. congruence.
Qed.

(** One round of [makeRequest] once the connection stands and the
    challenge fetch has answered [digestHeader]. *)
Lemma makeRequest_from_round (left : nat) (action body : string)
      (retryCount : nat) (s s1 : Session) (digestHeader : option string)
      (w2 : World) :
  ensureResolved E s = (Ok tt, s1) ->
  getDigestHeader E (digest_options (self s1)) (world s1) = (Ok digestHeader, w2) ->
  let r := request_options (self s1) digestHeader action body in
  let s3 := mkSession (self s1) (after_post r w2) in
  makeRequest_from E left action body retryCount s =
  match attempt (post_reply E (posts w2) r) with
  | Ok response => (Ok response, s3)
  | Throw e =>
      if is_connection_error e then
        match left with
        | S left' =>
            (lift (sleep RetryWait (2 ^ N.of_nat retryCount * 1000)) ;;;
             resolveHost E ;;;
             makeRequest_from E left' action body (S retryCount))%async s3
        | O => (Throw (exhausted (self s1) e), s3)
        end
      else (Throw e, s3)
  end.
Proof.
  intros H1 H2 r s3.
  destruct (prepareRequest_run action body s1) as (dh & w' & Hd & Hp).
  rewrite H2 in Hd. injection Hd as <- <-.
  assert (Hstart : forall left0,
    makeRequest_from E left0 action body retryCount s =
    try_catch (send E r)
      (fun systemError =>
         if is_connection_error systemError then
           match left0 with
           | S left' =>
               (lift (sleep RetryWait (2 ^ N.of_nat retryCount * 1000)) ;;;
                resolveHost E ;;;
                makeRequest_from E left' action body (S retryCount))%async
           | O => (this <- get_this ;; throw (exhausted this systemError))%async
           end
         else throw systemError) (mkSession (self s1) w2)).
  { intros left0. destruct left0; cbn [makeRequest_from];
      rewrite (bind_Ok _ _ _ _ _ H1), (bind_Ok _ _ _ _ _ Hp); reflexivity. }
  rewrite Hstart. unfold try_catch. rewrite send_eq. cbn [world self posts].
  fold r. fold s3.
  destruct (attempt (post_reply E (posts w2) r)) as [response|e].
  - reflexivity.
  - destruct (is_connection_error e); [|reflexivity].
    destruct left; reflexivity.
Qed.

Lemma makeRequest_from_unresolved (left : nat) (action body : string)
      (retryCount : nat) (s s1 : Session) (e : Error) :
  ensureResolved E s = (Throw e, s1) ->
  makeRequest_from E left action body retryCount s = (Throw e, s1).
Proof.
  intros H. destruct left; cbn [makeRequest_from];
    now rewrite (bind_Throw _ _ _ _ _ H).
Qed.
End Steps.

(** *** What a call adds to the world *)

Section Frames.
Variable E : Env.

Lemma resolveHost_frame (s s' : Session) (r : result unit) :
  resolveHost E s = (r, s') ->
  config (self s') = config (self s) /\
  posts (world s') = posts (world s) /\
  trace (world s') =
  trace (world s) ++ [Lookup (c_host (config (self s))) (lookup_family (config (self s)))].
Proof.
  destruct (dns E (lookups (world s)) (c_host (config (self s)))
                (lookup_family (config (self s)))) as [a|e] eqn:Hd.
  - rewrite (resolveHost_Ok E s a Hd). now intros [= <- <-].
  - rewrite (resolveHost_Throw E s e Hd). now intros [= <- <-].
Qed.

Lemma ensureResolved_frame (s s' : Session) (r : result unit) :
  ensureResolved E s = (r, s') ->
  config (self s') = config (self s) /\
  posts (world s') = posts (world s) /\
  trace (world s') =
  trace (world s) ++
  (if needs_resolve (self s)
   then [Lookup (c_host (config (self s))) (lookup_family (config (self s)))]
   else []).
Proof.
  destruct (needs_resolve (self s)) eqn:Hn.
  - rewrite (ensureResolved_resolves E s Hn). apply resolveHost_frame.
  - rewrite (ensureResolved_ready E s Hn). intros [= <- <-].
    now rewrite app_nil_r.
Qed.

Lemma getDigestHeader_frame (options : DigestHeaderOptions) (w w' : World)
      (r : result (option string)) :
  getDigestHeader E options w = (r, w') ->
  lookups w' = lookups w /\ posts w' = posts w /\ uuids w' = uuids w /\
  exists t, trace w' = trace w ++ t /\ executor_view t = [].
Proof. apply getDigestHeader_from_frame. Qed.

(** Whatever [makeRequest] does, the trace only grows. *)
Lemma makeRequest_from_grows (left : nat) (action body : string)
      (retryCount : nat) (s s' : Session) (r : result Response) :
  makeRequest_from E left action body retryCount s = (r, s') ->
  exists t, trace (world s') = trace (world s) ++ t.
Proof.
  revert retryCount s. induction left as [|left IH]; intros retryCount s.
  all: destruct (ensureResolved E s) as [[[]|e] s1] eqn:H1;
    [| rewrite (makeRequest_from_unresolved E _ _ _ _ _ _ _ H1);
       intros [= <- <-]; apply ensureResolved_frame in H1 as (_ & _ & ->); eauto ].
  all: destruct (prepareRequest_run E action body s1) as (dh & w2 & H2 & _).
  all: rewrite (makeRequest_from_round E _ _ _ _ _ _ _ _ H1 H2); cbv zeta.
  all: apply ensureResolved_frame in H1 as (_ & _ & Ht1).
  all: apply getDigestHeader_frame in H2 as (_ & _ & _ & t2 & Ht2 & _).
  all: set (rq := request_options (self s1) dh action body).
  all: assert (Hpost : trace (after_post rq w2) =
                       trace (world s) ++ (if needs_resolve (self s)
                         then [Lookup (c_host (config (self s)))
                                      (lookup_family (config (self s)))]
                         else []) ++ t2 ++ [Post rq])
    by (cbn [after_post count_post log trace]; rewrite Ht2, Ht1;
        now rewrite <- !app_assoc).
  all: destruct (attempt (post_reply E (posts w2) rq)) as [response|e].
  all: try (intros [= <- <-]; cbn [world]; eauto; fail).
  all: destruct (is_connection_error e); [|intros [= <- <-]; cbn [world]; eauto].
  - intros [= <- <-]; cbn [world]; eauto.
  - unfold bind at 1. cbv [lift sleep]. cbn [world self].
    unfold bind at 1.
    destruct (resolveHost E _) as [[[]|e'] s4] eqn:H4.
    + intros H. apply IH in H as (t & ->).
      apply resolveHost_frame in H4 as (_ & _ & ->).
      cbn [world log trace]. rewrite Hpost. rewrite <- !app_assoc. eauto.
    + intros [= <- <-].
      apply resolveHost_frame in H4 as (_ & _ & ->).
      cbn [world log trace]. rewrite Hpost. rewrite <- !app_assoc. eauto.
Qed.
End Frames.

(** *** The request executor *)

Lemma makeRequest_eq (E : Env) (action body : string) (retryCount : nat) (s : Session) :
  makeRequest E action body retryCount s =
  makeRequest_from E (default 0%nat (c_retries (config (self s))) - retryCount)
                   action body retryCount s.
Proof. reflexivity. Qed.

(** C5, as amended.  When the authenticated request is answered with a
    status outside 200..299, [makeRequest] reads the body.  If the body
    arrives, it throws an error whose message carries the status and the
    body, and the request is the last thing it does: one request, no wait, no
    second attempt, whatever the retry budget.  If the body does not arrive,
    the error of the read is handled like an error of the request itself: a
    connection fault is retried after a wait of [2^retryCount] seconds and a
    resolution while retries are left, and ends the call with the exhaustion
    error otherwise; any other error is thrown as it is. *)
Theorem makeRequest_protocol_error
        (E : Env) (action body : string) (retryCount : nat)
        (s s1 : Session) (digestHeader : option string) (w2 : World)
        (response : Response) :
  ensureResolved E s = (Ok tt, s1) ->
  getDigestHeader E (digest_options (self s1)) (world s1) = (Ok digestHeader, w2) ->
  post_reply E (posts w2) (request_options (self s1) digestHeader action body)
  = Ok response ->
  ok response = false ->
  let r := request_options (self s1) digestHeader action body in
  let s3 := mkSession (self s1) (after_post r w2) in
  let retries := default 0%nat (c_retries (config (self s))) in
  (forall responseText,
      res_body response = Ok responseText ->
      makeRequest E action body retryCount s =
      (Throw (protocol_error response responseText), s3)
      /\ message (protocol_error response responseText) =
         "AMT request failed: " +:+ show_N (status response) +:+ " "
         +:+ statusText response +:+ String "010" "Response: " +:+ responseText)
  /\ (forall e,
        res_body response = Throw e ->
        makeRequest E action body retryCount s =
        if is_connection_error e then
          if (retryCount <? retries)%nat then
            (lift (sleep RetryWait (2 ^ N.of_nat retryCount * 1000)) ;;;
             resolveHost E ;;;
             makeRequest E action body (S retryCount))%async s3
          else (Throw (exhausted (self s1) e), s3)
        else (Throw e, s3))
  /\ trace (after_post r w2) = trace w2 ++ [Post r]
  /\ posts (after_post r w2) = S (posts (world s)).
Proof.
  intros H1 H2 H3 H4 r s3 retries. subst r. rewrite makeRequest_eq.
  rewrite (makeRequest_from_round E _ _ _ _ _ _ _ _ H1 H2). cbv zeta.
  rewrite H3. cbn [attempt]. rewrite H4.
  pose proof H1 as H1'.
  apply ensureResolved_frame in H1' as (Hc1 & Hp1 & _).
  split_and!; try reflexivity.
  - intros responseText ->. split; reflexivity.
  - intros e ->. destruct (is_connection_error e); [|reflexivity].
    fold retries.
    destruct (Nat.ltb_spec retryCount retries) as [Hlt|Hge].
    + replace (retries - retryCount)%nat with (S (retries - S retryCount)) by lia.
      cbv [lift sleep bind]. cbn [world self]. fold s3.
      destruct (resolveHost E _) as [[[]|e'] s4] eqn:H4'; [|reflexivity].
      apply resolveHost_frame in H4' as (Hc4 & _ & _). cbn [self] in Hc4.
      rewrite makeRequest_eq, Hc4, Hc1. reflexivity.
    + replace (retries - retryCount)%nat with 0%nat by lia. reflexivity.
  - apply getDigestHeader_frame in H2 as (_ & Hp2 & _).
    cbn [after_post count_post log posts]. now rewrite Hp2, Hp1.
Qed.

(** C8.  When the manager has no connection yet and the lookup fails, every
    operation that propagates errors throws the resolution error; all that
    happened is that one lookup: no probe, no request, no wait.
    [testConnection] turns the same failure into [false]. *)
Theorem resolution_failure_is_fatal (E : Env) (s : Session) (e : Error) :
  needs_resolve (self s) = true ->
  dns E (lookups (world s)) (c_host (config (self s)))
      (lookup_family (config (self s))) = Throw e ->
  let cfg := config (self s) in
  let err := resolution_error cfg e in
  message err = "Failed to resolve host " +:+ c_host cfg +:+ ": " +:+ message e
  /\ (forall action body retryCount,
        makeRequest E action body retryCount s =
        (Throw err, mkSession (self s) (after_lookup cfg (world s))))
  /\ (forall powerState,
        changePowerState E powerState s =
        (Throw err, mkSession (self s) (after_lookup cfg (world s))))
  /\ getPowerState E s =
     (Throw err, mkSession (self s) (after_lookup cfg (count_uuid (world s))))
  /\ testConnection E s =
     (Ok false, mkSession (self s) (after_lookup cfg (count_uuid (world s))))
  /\ trace (after_lookup cfg (world s)) =
     trace (world s) ++ [Lookup (c_host cfg) (lookup_family cfg)].
Proof.
  intros Hn Hd cfg err.
  assert (Hm : forall action body retryCount,
             makeRequest E action body retryCount s =
             (Throw err, mkSession (self s) (after_lookup cfg (world s)))).
  { intros. rewrite makeRequest_eq. apply makeRequest_from_unresolved.
    rewrite (ensureResolved_resolves E s Hn). now apply resolveHost_Throw. }
  assert (Hg : getPowerState E s =
     (Throw err, mkSession (self s) (after_lookup cfg (count_uuid (world s))))).
  { unfold getPowerState. rewrite try_catch_rethrow.
    unfold bind at 1. cbv [createGetPowerStateRequest bind lift randomUUID ret].
    rewrite makeRequest_eq.
    rewrite (makeRequest_from_unresolved E _ _ _ _
               (mkSession (self s) (count_uuid (world s)))
               (mkSession (self s) (after_lookup cfg (count_uuid (world s)))) err);
      [reflexivity|].
    rewrite ensureResolved_resolves by exact Hn.
    now apply resolveHost_Throw. }
  split_and!; try reflexivity.
  - exact Hm.
  - intros ps. unfold changePowerState. rewrite try_catch_rethrow.
    unfold bind. now rewrite Hm.
  - exact Hg.
  - unfold testConnection, try_catch, bind. now rewrite Hg.
Qed.

(** A lookup that fails on the way to a retry ends the call as well: the
    resolution error is thrown and nothing is sent any more. *)
Lemma resolution_failure_during_retry
      (E : Env) (left : nat) (action body : string) (retryCount : nat)
      (s s1 : Session) (digestHeader : option string) (w2 : World) (e e' : Error) :
  ensureResolved E s = (Ok tt, s1) ->
  getDigestHeader E (digest_options (self s1)) (world s1) = (Ok digestHeader, w2) ->
  let r := request_options (self s1) digestHeader action body in
  let cfg := config (self s1) in
  post_reply E (posts w2) r = Throw e ->
  is_connection_error e = true ->
  dns E (lookups w2) (c_host cfg) (lookup_family cfg) = Throw e' ->
  makeRequest_from E (S left) action body retryCount s =
  (Throw (resolution_error cfg e'),
   mkSession (self s1)
     (after_lookup cfg
        (log (RetryWait (2 ^ N.of_nat retryCount * 1000)) (after_post r w2)))).
Proof.
  intros H1 H2 r cfg H3 H4 H5.
  rewrite (makeRequest_from_round E _ _ _ _ _ _ _ _ H1 H2). cbv zeta.
  fold r. rewrite H3. cbn [attempt]. rewrite H4.
  unfold bind at 1. cbv [lift sleep]. cbn [world self].
  unfold bind at 1. rewrite (resolveHost_Throw E _ e'); [reflexivity|].
  exact H5.
Qed.

(** C9.  When the challenge fetch has given up and answered [undefined],
    [makeRequest] goes on: it sends the request with the [Authorization]
    property present and [undefined]; the outcome is that of this request,
    and a success answer is returned as it is. *)
Theorem makeRequest_posts_without_header
        (E : Env) (left : nat) (action body : string) (retryCount : nat)
        (s s1 : Session) (w2 : World) :
  ensureResolved E s = (Ok tt, s1) ->
  getDigestHeader E (digest_options (self s1)) (world s1) = (Ok None, w2) ->
  let r := request_options (self s1) None action body in
  req_headers r !! "Authorization" = Some None
  /\ (forall res s', makeRequest_from E left action body retryCount s = (res, s') ->
        exists t, trace (world s') = trace w2 ++ Post r :: t)
  /\ (forall response,
        post_reply E (posts w2) r = Ok response -> ok response = true ->
        makeRequest_from E left action body retryCount s =
        (Ok response, mkSession (self s1) (after_post r w2))).
Proof.
  intros H1 H2 r. split_and!.
  - reflexivity.
  - intros res s'.
    rewrite (makeRequest_from_round E _ _ _ _ _ _ _ _ H1 H2). cbv zeta. fold r.
    destruct (attempt (post_reply E (posts w2) r)) as [response|e].
    + intros [= <- <-]; now exists [].
    + destruct (is_connection_error e); [|intros [= <- <-]; now exists []].
      destruct left as [|left]; [intros [= <- <-]; now exists []|].
      unfold bind at 1. cbv [lift sleep]. cbn [world self].
      unfold bind at 1.
      destruct (resolveHost E _) as [[[]|e'] s4] eqn:H4.
      * intros H. apply makeRequest_from_grows in H as (t & ->).
        apply resolveHost_frame in H4 as (_ & _ & ->).
        cbn [world log trace after_post count_post]. rewrite <- !app_assoc.
        cbn [app]. eauto.
      * intros [= <- <-].
        apply resolveHost_frame in H4 as (_ & _ & ->).
        cbn [world log trace after_post count_post]. rewrite <- !app_assoc.
        cbn [app]. eauto.
  - intros response H3 H4.
    rewrite (makeRequest_from_round E _ _ _ _ _ _ _ _ H1 H2). cbv zeta. fold r.
    rewrite H3. cbn [attempt]. now rewrite H4.
Qed.

(** *** Retries of the request executor *)

Lemma retries_view_waits (retryCount n : nat) :
  waits (retries_view retryCount n) =
  map (fun i => (2 ^ N.of_nat (retryCount + i) * 1000)%N) (seq 0 n).
Proof.
  revert retryCount. induction n as [|n IH]; intros retryCount; [reflexivity|].
  cbn [retries_view]. change (waits (Send :: Wait ?a :: Resolve :: ?l))
    with (a :: waits l).
  rewrite IH. cbn [seq map]. rewrite Nat.add_0_r. f_equal.
  rewrite <- seq_shift, map_map. apply map_ext. intros i.
  now rewrite Nat.add_succ_comm.
Qed.

Section Retry.
Variable E : Env.
Hypothesis dns_ok : forall n h f, exists a, dns E n h f = Ok a.
Variables action body : string.

Lemma resolveHost_succeeds (s : Session) :
  exists a, resolveHost E s =
            (Ok tt, mkSession (connection (config (self s)) a)
                              (after_lookup (config (self s)) (world s))).
Proof.
  destruct (dns_ok (lookups (world s)) (c_host (config (self s)))
                   (lookup_family (config (self s)))) as [a Ha].
  exists a. now apply resolveHost_Ok.
Qed.

Lemma ensureResolved_succeeds (s : Session) :
  exists s1, ensureResolved E s = (Ok tt, s1).
Proof.
  destruct (needs_resolve (self s)) eqn:Hn.
  - rewrite (ensureResolved_resolves E s Hn).
    destruct (resolveHost_succeeds s) as [a ->]. eauto.
  - rewrite (ensureResolved_ready E s Hn). eauto.
Qed.
End Retry.

(** *** Where the requests of a call go *)

Lemma posted_app (a b : list Event) : posted (a ++ b) = posted a ++ posted b.
Proof. apply flat_map_app. Qed.

Lemma resolved_app (a b : list Event) : resolved (a ++ b) = resolved a ++ resolved b.
Proof. apply flat_map_app. Qed.

(** The challenge fetch neither resolves nor sends an authenticated
    request. *)
Lemma executor_view_nil (t : list Event) :
  executor_view t = [] -> posted t = [] /\ resolved t = [].
Proof.
  induction t as [|e t IH]; [now split|].
  destruct e; cbn; intros H; try discriminate; now apply IH.
Qed.

Lemma baseUrl_connection (cfg : Config) (address : string) :
  baseUrl (connection cfg address) = wsman_url cfg address
  /\ resolvedHost (connection cfg address) = address
  /\ config (connection cfg address) = cfg.
Proof. now split_and!. Qed.

Section Schedule.
Variable E : Env.
Variables action body : string.

(** The connection a call starts with, when the lookup it may need
    answers [a]. *)
Lemma ensureResolved_addr (s : Session) (addr : nat -> string) :
  dns E (lookups (world s)) (c_host (config (self s)))
      (lookup_family (config (self s))) = Ok (addr 0%nat) ->
  exists s1,
    ensureResolved E s = (Ok tt, s1) /\
    config (self s1) = config (self s) /\
    needs_resolve (self s1) = false /\
    baseUrl (self s1) = attempt_url (self s) addr 0 /\
    resolvedHost (self s1) = attempt_address (self s) addr 0 /\
    lookups (world s1) = (lookups (world s) + first_lookups (self s))%nat.
Proof.
  intros Hd. unfold attempt_url, attempt_address, first_lookups.
  destruct (needs_resolve (self s)) eqn:Hn.
  - rewrite (ensureResolved_resolves E s Hn), (resolveHost_Ok E s _ Hd).
    eexists. split; [reflexivity|]. cbn [self world].
    split_and!; try reflexivity.
    + apply needs_resolve_connection.
    + cbn. lia.
  - rewrite (ensureResolved_ready E s Hn). exists s.
    split_and!; try reflexivity; [exact Hn | lia].
Qed.

(** [n] connection faults, then an answer [final] to attempt [n]: either a
    success answer, or one more connection fault when the budget is used
    up.  [addr k] is what the k-th lookup from now on answers. *)
Lemma makeRequest_from_schedule (n : nat) :
  forall (left retryCount : nat) (s : Session) (errs : nat -> Error)
         (addr : nat -> string) (final : result Response),
    (n <= left)%nat ->
    (forall k, dns E (lookups (world s) + k) (c_host (config (self s)))
                   (lookup_family (config (self s))) = Ok (addr k)) ->
    (forall i r, (i < n)%nat ->
                 post_reply E (posts (world s) + i) r = Throw (errs i)) ->
    (forall i, (i < n)%nat -> is_connection_error (errs i) = true) ->
    (forall r, post_reply E (posts (world s) + n) r = final) ->
    match final with
    | Ok response => ok response = true
    | Throw e => is_connection_error e = true /\ left = n
    end ->
    exists s' t,
      makeRequest_from E left action body retryCount s =
      (match final with
       | Ok response => Ok response
       | Throw e => Throw (exhausted (self s') e)
       end, s') /\
      config (self s') = config (self s) /\
      resolvedHost (self s') = attempt_address (self s) addr n /\
      trace (world s') = trace (world s) ++ t /\
      executor_view t =
      first_resolve (self s) ++ retries_view retryCount n ++ [Send] /\
      map req_url (posted t) = map (attempt_url (self s) addr) (seq 0 (S n)) /\
      resolved t =
      repeat (c_host (config (self s)), lookup_family (config (self s)))
             (first_lookups (self s) + n).
Proof.
  induction n as [|n IH];
    intros left retryCount s errs addr final Hle Hdns Hfail Herr Hfin Hlast.
  - pose proof (Hdns 0%nat) as Hd0. rewrite Nat.add_0_r in Hd0.
    destruct (ensureResolved_addr s addr Hd0) as (s1 & H1 & _ & _ & Hb1 & Hr1 & _).
    destruct (prepareRequest_run E action body s1) as (dh & w2 & H2 & _).
    rewrite (makeRequest_from_round E _ _ _ _ _ _ _ _ H1 H2). cbv zeta.
    apply ensureResolved_frame in H1 as (Hc1 & Hp1 & Ht1).
    apply getDigestHeader_frame in H2 as (_ & Hp2 & _ & t2 & Ht2 & Hv2).
    pose proof (executor_view_nil t2 Hv2) as [Hpo2 Hre2].
    rewrite Hp2, Hp1, <- (Nat.add_0_r (posts (world s))), Hfin.
    set (rq := request_options (self s1) dh action body).
    exists (mkSession (self s1) (after_post rq w2)).
    exists ((if needs_resolve (self s)
             then [Lookup (c_host (config (self s))) (lookup_family (config (self s)))]
             else []) ++ t2 ++ [Post rq]).
    split_and!.
    + destruct final as [response|e].
      * cbn [attempt]. now rewrite Hlast.
      * cbn [attempt]. destruct Hlast as [-> ->]. reflexivity.
    + exact Hc1.
    + exact Hr1.
    + cbn [world after_post count_post log trace]. rewrite Ht2, Ht1.
      now rewrite <- !app_assoc.
    + rewrite !executor_view_app, Hv2. unfold first_resolve.
      now destruct (needs_resolve (self s)).
    + rewrite !posted_app, Hpo2. cbn [seq map]. rewrite <- Hb1.
      now destruct (needs_resolve (self s)).
    + rewrite !resolved_app, Hre2. unfold first_lookups.
      now destruct (needs_resolve (self s)).
  - destruct left as [|left]; [lia|].
    pose proof (Hdns 0%nat) as Hd0. rewrite Nat.add_0_r in Hd0.
    destruct (ensureResolved_addr s addr Hd0)
      as (s1 & H1 & _ & _ & Hb1 & _ & Hl1).
    destruct (prepareRequest_run E action body s1) as (dh & w2 & H2 & _).
    rewrite (makeRequest_from_round E _ _ _ _ _ _ _ _ H1 H2). cbv zeta.
    apply ensureResolved_frame in H1 as (Hc1 & Hp1 & Ht1).
    apply getDigestHeader_frame in H2 as (Hl2 & Hp2 & _ & t2 & Ht2 & Hv2).
    pose proof (executor_view_nil t2 Hv2) as [Hpo2 Hre2].
    set (rq := request_options (self s1) dh action body).
    pose proof (Hfail 0%nat rq ltac:(lia)) as H0.
    rewrite Nat.add_0_r in H0. rewrite Hp2, Hp1, H0. cbn [attempt].
    rewrite (Herr 0%nat) by lia.
    unfold bind at 1. cbv [lift sleep]. cbn [world self].
    unfold bind at 1.
    set (s3 := mkSession (self s1)
                 (log (RetryWait (2 ^ N.of_nat retryCount * 1000)) (after_post rq w2))).
    set (a := addr (first_lookups (self s))).
    assert (Hd3 : dns E (lookups (world s3)) (c_host (config (self s3)))
                      (lookup_family (config (self s3))) = Ok a).
    { unfold s3. cbn [world self log after_post count_post lookups].
      rewrite Hl2, Hl1, Hc1. apply Hdns. }
    rewrite (resolveHost_Ok E s3 a Hd3).
    set (s5 := mkSession (connection (config (self s3)) a)
                         (after_lookup (config (self s3)) (world s3))).
    assert (Hc5 : config (self s5) = config (self s)) by exact Hc1.
    assert (Hn5 : needs_resolve (self s5) = false)
      by apply needs_resolve_connection.
    assert (Hp5 : posts (world s5) = S (posts (world s)))
      by (cbn; now rewrite Hp2, Hp1).
    assert (Hl5 : lookups (world s5) =
                  S (lookups (world s) + first_lookups (self s)))
      by (cbn; now rewrite Hl2, Hl1).
    destruct (IH left (S retryCount) s5 (fun i => errs (S i))
                 (fun k => addr (first_lookups (self s) + S k)%nat) final) as
        (s' & t & Hrun & Hc & Hr & Ht & Hv & Hu & Hre).
    + lia.
    + intros k. rewrite Hl5, Hc5, <- (Hdns (first_lookups (self s) + S k)%nat).
      f_equal. lia.
    + intros i r Hi. rewrite Hp5, <- (Hfail (S i) r) by lia.
      f_equal. lia.
    + intros i Hi. apply Herr. lia.
    + intros r. rewrite Hp5, <- (Hfin r). f_equal. lia.
    + destruct final as [response|e]; [exact Hlast|].
      destruct Hlast as [? ?]. split; [assumption | lia].
    + assert (Hf5 : first_lookups (self s5) = 0%nat)
        by (unfold first_lookups; now rewrite Hn5).
      assert (Hshift : forall i,
                 attempt_url (self s5) (fun k => addr (first_lookups (self s) + S k)%nat) i
                 = attempt_url (self s) addr (S i)
                 /\ attempt_address (self s5)
                      (fun k => addr (first_lookups (self s) + S k)%nat) i
                    = attempt_address (self s) addr (S i)).
      { intros [|j]; cbn [attempt_url attempt_address];
          rewrite ?Hn5, ?Hf5, ?Hc5; cbn [Nat.add].
        - rewrite Nat.add_0_r. split; [|reflexivity].
          unfold s5. cbn [self].
          destruct (baseUrl_connection (config (self s3)) a) as (-> & _ & _).
          unfold s3. cbn [self]. now rewrite Hc1.
        - split; reflexivity. }
      exists s'.
      exists ((if needs_resolve (self s)
               then [Lookup (c_host (config (self s))) (lookup_family (config (self s)))]
               else []) ++ t2 ++
              [Post rq; RetryWait (2 ^ N.of_nat retryCount * 1000);
               Lookup (c_host (config (self s3))) (lookup_family (config (self s3)))]
              ++ t).
      split_and!.
      * exact Hrun.
      * rewrite Hc. exact Hc5.
      * rewrite Hr. apply Hshift.
      * rewrite Ht. unfold s5, s3.
        cbn [world self after_lookup count_lookup after_post
                   count_post log trace].
        rewrite Ht2, Ht1. now rewrite <- !app_assoc.
      * rewrite !executor_view_app, Hv2, Hv.
        unfold first_resolve. rewrite Hn5.
        now destruct (needs_resolve (self s)).
      * rewrite !posted_app, Hpo2, !List.map_app, Hu.
        change (seq 0 (S (S n))) with (0%nat :: seq 1 (S n)).
        rewrite <- seq_shift. cbn [map]. rewrite List.map_map.
        replace (posted (if needs_resolve (self s)
                   then [Lookup (c_host (config (self s)))
                                (lookup_family (config (self s)))]
                   else [])) with (@nil Request)
          by now destruct (needs_resolve (self s)).
        cbn [posted flat_map app map]. f_equal.
        -- exact Hb1.
        -- apply map_ext. intros i. apply Hshift.
      * rewrite !resolved_app, Hre2, Hre, Hc5, Hf5. cbn [Nat.add].
        cbn [resolved flat_map app].
        change (config (self s3)) with (config (self s1)). rewrite Hc1.
        unfold first_lookups.
        now destruct (needs_resolve (self s)).
Qed.
End Schedule.

(** C2.  With a resolver that answers [addr k] to the k-th lookup from now
    on, and [n] connection faults in a row on the authenticated request:
    (1) if [n] is within the configured retries and attempt [n] is answered
    with a success status, [makeRequest] returns that answer after [n]
    retries, each a wait of [2^attempt] seconds followed by a new lookup of
    the configured host, and every attempt is sent to the address the lookup
    before it answered; (2) if [n] equals the configured retries and attempt
    [n] is one more connection fault, [makeRequest] throws, after the same
    [n] retries, an error that names that last fault, the address the last
    attempt went to and the port. *)
Theorem makeRequest_retry_schedule
        (E : Env) (action body : string) (s : Session)
        (n maxRetries : nat) (errs : nat -> Error) (addr : nat -> string) :
  c_retries (config (self s)) = Some maxRetries ->
  (forall k, dns E (lookups (world s) + k) (c_host (config (self s)))
                 (lookup_family (config (self s))) = Ok (addr k)) ->
  (forall i r, (i < n)%nat ->
               post_reply E (posts (world s) + i) r = Throw (errs i)) ->
  (forall i, (i <= n)%nat -> is_connection_error (errs i) = true) ->
  (forall response,
      (n <= maxRetries)%nat ->
      (forall r, post_reply E (posts (world s) + n) r = Ok response) ->
      ok response = true ->
      exists s' t,
        makeRequest E action body 0 s = (Ok response, s') /\
        trace (world s') = trace (world s) ++ t /\
        executor_view t = first_resolve (self s) ++ retries_view 0 n ++ [Send] /\
        waits (executor_view t) =
        map (fun i => (2 ^ N.of_nat i * 1000)%N) (seq 0 n) /\
        resolved t =
        repeat (c_host (config (self s)), lookup_family (config (self s)))
               (first_lookups (self s) + n) /\
        map req_url (posted t) = map (attempt_url (self s) addr) (seq 0 (S n)))
  /\ (n = maxRetries ->
      (forall r, post_reply E (posts (world s) + n) r = Throw (errs n)) ->
      exists e s' t,
        makeRequest E action body 0 s = (Throw e, s') /\
        message e =
          "Failed to connect to AMT device after " +:+ show_N (N.of_nat maxRetries)
          +:+ " attempts. Last error: " +:+ message (errs n)
          +:+ " (" +:+ attempt_address (self s) addr n +:+ ":"
          +:+ show_opt show_N (c_port (config (self s))) +:+ ")" /\
        trace (world s') = trace (world s) ++ t /\
        executor_view t = first_resolve (self s) ++ retries_view 0 n ++ [Send] /\
        waits (executor_view t) =
        map (fun i => (2 ^ N.of_nat i * 1000)%N) (seq 0 n) /\
        resolved t =
        repeat (c_host (config (self s)), lookup_family (config (self s)))
               (first_lookups (self s) + n) /\
        map req_url (posted t) = map (attempt_url (self s) addr) (seq 0 (S n))).
Proof.
  intros Hcfg Hdns Hfail Herr.
  assert (Hw : forall m, waits (first_resolve m ++ retries_view 0 n ++ [Send]) =
                         map (fun i => (2 ^ N.of_nat i * 1000)%N) (seq 0 n)).
  { intros m. unfold waits at 1. rewrite !flat_map_app.
    fold (waits (retries_view 0 n)). rewrite retries_view_waits.
    unfold first_resolve. destruct (needs_resolve m); cbn [flat_map app];
      now rewrite app_nil_r. }
  split.
  - intros response Hle Hfin Hok.
    destruct (makeRequest_from_schedule E action body n
                (maxRetries - 0) 0 s errs addr (Ok response))
      as (s' & t & Hrun & _ & _ & Ht & Hv & Hu & Hre); try assumption; [lia | |].
    + intros i Hi. apply Herr. lia.
    + exists s', t. rewrite makeRequest_eq, Hcfg. cbn [default].
      rewrite Hv, Hw. now split_and!.
  - intros <- Hfin.
    destruct (makeRequest_from_schedule E action body n
                (n - 0) 0 s errs addr (Throw (errs n)))
      as (s' & t & Hrun & Hc & Hr & Ht & Hv & Hu & Hre); try assumption; [lia | | |].
    + intros i Hi. apply Herr. lia.
    + split; [apply Herr; lia | lia].
    + exists (exhausted (self s') (errs n)), s', t.
      rewrite makeRequest_eq, Hcfg. cbn [default].
      rewrite Hv, Hw. split_and!; try assumption; try reflexivity.
      unfold exhausted. cbn [message new_Error]. rewrite Hc, Hcfg, Hr. reflexivity.
Qed.

(** *** The recursion of the source *)

(** [makeRequest] as the source writes it: on a connection fault with
    [retryCount < this.config.retries], wait, resolve and call [makeRequest]
    with [retryCount + 1]. *)
Lemma makeRequest_unfold (E : Env) (action body : string) (retryCount : nat)
      (s : Session) :
  makeRequest E action body retryCount s =
  (ensureResolved E ;;;
   requestOptions <- prepareRequest E action body ;;
   try_catch
     (send E requestOptions)
     (fun systemError =>
        if is_connection_error systemError then
          this <- get_this ;;
          if (retryCount <? default 0%nat (c_retries (config this)))%nat then
            lift (sleep RetryWait (2 ^ N.of_nat retryCount * 1000)) ;;;
            resolveHost E ;;;
            makeRequest E action body (S retryCount)
          else throw (exhausted this systemError)
        else throw systemError))%async s.
Proof.
  rewrite makeRequest_eq.
  set (mr := default 0%nat (c_retries (config (self s)))).
  destruct (ensureResolved E s) as [[[]|e] s1] eqn:H1.
  2:{ rewrite (makeRequest_from_unresolved E _ _ _ _ _ _ _ H1).
      now rewrite (bind_Throw _ _ _ _ _ H1). }
  rewrite (bind_Ok _ _ _ _ _ H1).
  destruct (prepareRequest_run E action body s1) as (dh & w2 & H2 & Hp).
  rewrite (makeRequest_from_round E _ _ _ _ _ _ _ _ H1 H2). cbv zeta.
  rewrite (bind_Ok _ _ _ _ _ Hp). unfold try_catch. rewrite send_eq.
  cbn [world self posts].
  apply ensureResolved_frame in H1 as (Hc1 & _ & _).
  set (rq := request_options (self s1) dh action body).
  destruct (attempt (post_reply E (posts w2) rq)) as [response|e]; [reflexivity|].
  destruct (is_connection_error e); [|reflexivity].
  cbv [bind get_this]. cbn [self world]. rewrite Hc1. fold mr.
  destruct (Nat.ltb_spec retryCount mr) as [Hlt|Hge].
  - replace (mr - retryCount)%nat with (S (mr - S retryCount)) by lia.
    cbv [lift sleep bind]. cbn [world self].
    destruct (resolveHost E _) as [[[]|e'] s4] eqn:H4; [|reflexivity].
    apply resolveHost_frame in H4 as (Hc4 & _ & _). cbn [self] in Hc4.
    rewrite makeRequest_eq, Hc4, Hc1. reflexivity.
  - replace (mr - retryCount)%nat with 0%nat by lia. reflexivity.
Qed.

(** *** The power operations *)

(** C3.  For the answer [makeRequest] gives it, [changePowerState] reads
    the body and returns whether it contains the marker: [true] exactly when
    the marker occurs in it, [false] otherwise, and no error in either case.
    It throws only what [makeRequest] throws or what reading the body
    throws. *)
Theorem changePowerState_marker (E : Env) (powerState : PowerState) (s : Session) :
  (forall response s',
      makeRequest E power_action (createPowerStateChangeRequest powerState) 0 s
      = (Ok response, s') ->
      (forall text,
          res_body response = Ok text ->
          changePowerState E powerState s =
          (Ok (includes text "ReturnValue>0</"), s')
          /\ (includes text "ReturnValue>0</" = true <->
              exists pre post, text = pre +:+ "ReturnValue>0</" +:+ post)
          /\ (includes text "ReturnValue>0</" = false <->
              forall pre post, text <> pre +:+ "ReturnValue>0</" +:+ post))
      /\ (forall e,
            res_body response = Throw e ->
            changePowerState E powerState s = (Throw e, s')))
  /\ (forall e s',
        makeRequest E power_action (createPowerStateChangeRequest powerState) 0 s
        = (Throw e, s') ->
        changePowerState E powerState s = (Throw e, s')).
Proof.
  split.
  - intros response s' H. split.
    + intros text Hb. split_and!.
      * unfold changePowerState. rewrite try_catch_rethrow.
        rewrite (bind_Ok _ _ _ _ _ H). cbv [bind Node.text of_result ret].
        now rewrite Hb.
      * apply includes_true.
      * apply includes_false.
    + intros e Hb. unfold changePowerState. rewrite try_catch_rethrow.
      rewrite (bind_Ok _ _ _ _ _ H). cbv [bind Node.text of_result].
      now rewrite Hb.
  - intros e s' H. unfold changePowerState. rewrite try_catch_rethrow.
    now rewrite (bind_Throw _ _ _ _ _ H).
Qed.

(** *** The pattern of [getPowerState] *)

Lemma digit_then_close (c : ascii) (r : string) :
  is_digit c = true -> lit "</r:PowerState>" (String c r) = None.
Proof.
  intros Hc.
  change (lit "</r:PowerState>" (String c r))
    with (if Ascii.eqb "<"%char c then lit "/r:PowerState>" r else None).
  destruct (Ascii.eqb_spec "<"%char c) as [<-|]; [discriminate Hc | reflexivity].
Qed.

Lemma power_regex_at_eq (s : string) :
  power_regex_at s =
  match lit "<r:PowerState>" s with
  | None => None
  | Some s1 =>
      match fst (span is_digit s1) with
      | EmptyString => None
      | ds =>
          match lit "</r:PowerState>" (snd (span is_digit s1)) with
          | None => None
          | Some _ => Some ds
          end
      end
  end.
Proof.
  unfold power_regex_at. destruct (lit "<r:PowerState>" s) as [s1|]; [|reflexivity].
  rewrite plus_greedy_commits; [reflexivity|].
  intros acc c r Hc. now rewrite digit_then_close.
Qed.

Lemma power_regex_at_intro (ds post : string) :
  ds <> "" -> forallb_str is_digit ds = true ->
  power_regex_at ("<r:PowerState>" +:+ ds +:+ "</r:PowerState>" +:+ post) = Some ds.
Proof.
  intros Hne Hd. rewrite power_regex_at_eq, lit_app.
  rewrite (span_run is_digit ds ("</r:PowerState>" +:+ post) Hd) by reflexivity.
  cbn [fst snd]. destruct ds; [contradiction|]. now rewrite lit_app.
Qed.

Lemma power_regex_at_Some (s ds : string) :
  power_regex_at s = Some ds ->
  ds <> "" /\ forallb_str is_digit ds = true /\
  exists post, s = "<r:PowerState>" +:+ ds +:+ "</r:PowerState>" +:+ post.
Proof.
  rewrite power_regex_at_eq.
  destruct (lit "<r:PowerState>" s) as [s1|] eqn:E1; [|discriminate].
  pose proof (span_app is_digit s1) as Hs.
  pose proof (span_forallb is_digit s1) as Hd.
  destruct (fst (span is_digit s1)) as [|d0 d]; [discriminate|].
  destruct (lit "</r:PowerState>" (snd (span is_digit s1))) as [post|] eqn:E2;
    [|discriminate].
  intros [= <-]. apply lit_Some in E1, E2.
  split_and!; [discriminate | exact Hd |].
  exists post. now rewrite E1, Hs, E2.
Qed.

(** Without the text of the opening tag there is no match. *)
Lemma power_regex_match_needs_tag (text : string) :
  includes text "<r:PowerState>" = false -> power_regex_match text = None.
Proof.
  intros H. apply search_None. intros pre suf ->.
  destruct (power_regex_at suf) as [ds|] eqn:Hm; [|reflexivity].
  apply power_regex_at_Some in Hm as (_ & _ & post & ->).
  rewrite includes_false in H. now destruct (H pre (ds +:+ "</r:PowerState>" +:+ post)).
Qed.

(** *** [parseInt] on a run of digits *)

Lemma digit_not_space (c : ascii) : is_digit c = true -> is_space c = false.
Proof.
  destruct c as [[] [] [] [] [] [] [] []]; vm_compute; congruence.
Qed.

Lemma parseInt_digits (ds : string) :
  ds <> "" -> forallb_str is_digit ds = true ->
  parseInt ds = to_double (decimal_value 0 ds).
Proof.
  intros Hne Hd. destruct ds as [|c ds]; [contradiction|].
  pose proof Hd as Hd'. cbn [forallb_str] in Hd'.
  apply andb_true_iff in Hd' as [Hc _].
  unfold parseInt. cbn [trim_start]. rewrite (digit_not_space c Hc).
  destruct (Ascii.eqb_spec c "-"%char) as [->|_]; [discriminate Hc|].
  destruct (Ascii.eqb_spec c "+"%char) as [->|_]; [discriminate Hc|].
  pose proof (span_run is_digit (String c ds) "" Hd I) as Hs.
  rewrite str_app_nil_r in Hs. rewrite Hs. cbn [fst].
  now destruct (to_double (decimal_value 0 (String c ds))).
Qed.

Lemma to_double_exact (n : N) :
  (n < 2 ^ 53)%N -> to_double n = Finite (Z.of_N n).
Proof.
  intros H. unfold to_double.
  destruct (N.leb_spec (N.size n) 53) as [_|Hgt]; [reflexivity|].
  exfalso. pose proof (N.size_le n) as Hsz.
  rewrite N.succ_double_spec in Hsz.
  assert (Hpow : (2 ^ 54 <= 2 ^ N.size n)%N) by (apply N.pow_le_mono_r; lia).
  change (2 ^ 54)%N with (2 * 2 ^ 53)%N in Hpow. lia.
Qed.

Lemma getPowerState_run
      (E : Env) (s s0 s' : Session) (body : string) (response : Response) :
  createGetPowerStateRequest E s = (Ok body, s0) ->
  makeRequest E enumerate_action body 0 s0 = (Ok response, s') ->
  getPowerState E s =
  (match res_body response with
   | Ok text => Ok (power_state_of text)
   | Throw e => Throw e
   end, s').
Proof.
  intros H0 H1. unfold getPowerState. rewrite try_catch_rethrow.
  rewrite (bind_Ok _ _ _ _ _ H0), (bind_Ok _ _ _ _ _ H1).
  cbv [bind Node.text of_result ret]. now destruct (res_body response).
Qed.

(** *** The elements of the specification and the pattern *)

Lemma first_element_match (text pre ds post : string) :
  first_element text pre ds post -> power_regex_match text = Some ds.
Proof.
  intros [(Ht & Hne & Hd) Hfirst]. rewrite Ht.
  apply search_leftmost; [now apply power_regex_at_intro|].
  intros a b -> Hb.
  destruct (power_regex_at
              (b +:+ "<r:PowerState>" +:+ ds +:+ "</r:PowerState>" +:+ post))
    as [ds'|] eqn:Hm; [|reflexivity].
  exfalso. apply power_regex_at_Some in Hm as (Hne' & Hd' & post' & Heq).
  assert (He : element_at text a ds' post').
  { split_and!; [|assumption..]. now rewrite Ht, str_app_assoc, Heq. }
  apply Hfirst in He. rewrite str_app_length in He.
  destruct b; [contradiction | simpl in He; lia].
Qed.

Lemma no_element_match (text : string) :
  no_element text -> power_regex_match text = None.
Proof.
  intros Hno. apply search_None. intros pre suf ->.
  destruct (power_regex_at suf) as [ds|] eqn:Hm; [|reflexivity].
  apply power_regex_at_Some in Hm as (Hne & Hd & post & ->).
  now destruct (Hno pre ds post).
Qed.

(** Every body has a first element or none. *)
Lemma element_cases (text : string) :
  (exists pre ds post, first_element text pre ds post) \/ no_element text.
Proof.
  destruct (power_regex_match text) as [ds|] eqn:H.
  - left. apply search_Some_first in H as (pre & suf & Ht & Hm & Hfirst).
    apply power_regex_at_Some in Hm as (Hne & Hd & post & ->).
    exists pre, ds, post. split; [now split_and!|].
    intros pre' ds' post' (Ht' & Hne' & Hd').
    destruct (Nat.le_gt_cases (String.length pre) (String.length pre'))
      as [Hle|Hlt]; [exact Hle|].
    exfalso. specialize (Hfirst pre' _ Ht' Hlt).
    now rewrite power_regex_at_intro in Hfirst.
  - right. intros pre ds post (Ht & Hne & Hd).
    unfold power_regex_match in H. rewrite search_None in H.
    specialize (H pre _ Ht).
    now rewrite power_regex_at_intro in H.
Qed.

(** C7, as amended.  For the answer [makeRequest] gives it, [getPowerState]
    reads the body and returns the number [parseInt] reads from the digits of
    the first [<r:PowerState>] element whose content is a non-empty run of
    decimal digits: the integer they write when it is below [2^53], and the
    nearest double otherwise.  It returns [-1], without an error, for every
    body that holds no such element; every body is one of the two.  When the
    body cannot be read, it throws the error of the read. *)
Theorem getPowerState_first_element
        (E : Env) (s s0 s' : Session) (body : string) (response : Response) :
  createGetPowerStateRequest E s = (Ok body, s0) ->
  makeRequest E enumerate_action body 0 s0 = (Ok response, s') ->
  (forall text,
      res_body response = Ok text ->
      (forall pre ds post,
          first_element text pre ds post ->
          getPowerState E s = (Ok (to_double (decimal_value 0 ds)), s')
          /\ ((decimal_value 0 ds < 2 ^ 53)%N ->
              getPowerState E s = (Ok (Finite (Z.of_N (decimal_value 0 ds))), s')))
      /\ (no_element text -> getPowerState E s = (Ok (Finite (-1)), s'))
      /\ ((exists pre ds post, first_element text pre ds post) \/ no_element text))
  /\ (forall e,
        res_body response = Throw e -> getPowerState E s = (Throw e, s')).
Proof.
  intros H0 H1.
  pose proof (getPowerState_run E s s0 s' body response H0 H1) as Hrun.
  split.
  - intros text Hb. rewrite Hb in Hrun. split_and!.
    + intros pre ds post Hfirst.
      pose proof (first_element_match _ _ _ _ Hfirst) as Hm.
      destruct Hfirst as [(_ & Hne & Hd) _].
      rewrite Hrun. unfold power_state_of. rewrite Hm, (parseInt_digits ds Hne Hd).
      split; [reflexivity|]. intros Hlt. now rewrite (to_double_exact _ Hlt).
    + intros Hno. rewrite Hrun. unfold power_state_of.
      now rewrite (no_element_match _ Hno).
    + apply element_cases.
  - intros e Hb. now rewrite Hb in Hrun.
Qed.

(** C10.  The pattern is tied to the prefix [r:]: when the text
    [<r:PowerState>] does not occur in the body that was read,
    [getPowerState] returns [-1], whatever other power state element the body
    holds. *)
Theorem getPowerState_prefix_is_literal
        (E : Env) (s s0 s' : Session) (body text : string) (response : Response) :
  createGetPowerStateRequest E s = (Ok body, s0) ->
  makeRequest E enumerate_action body 0 s0 = (Ok response, s') ->
  res_body response = Ok text ->
  includes text "<r:PowerState>" = false ->
  getPowerState E s = (Ok (Finite (-1)), s').
Proof.
  intros H0 H1 Hb Hno.
  rewrite (getPowerState_run E s s0 s' body response H0 H1), Hb.
  unfold power_state_of. now rewrite (power_regex_match_needs_tag _ Hno).
Qed.

End AMTFacts.

(** ** The theorems on the scenarios *)

Module ScenarioFacts.
Import Js Node DigestAuth AMT Scenario JsFacts NodeFacts DigestAuthFacts AMTFacts.

(** The header of the RFC 2617 example, byte for byte. *)
Lemma constructDigestAuthHeader_rfc :
  fst (constructDigestAuthHeader (device 0 (Ok (answer ""))) rfc_params rfc_options world0)
  = Ok rfc_header.
Proof.
  destruct (constructDigestAuthHeader_literal (device 0 (Ok (answer "")))
              rfc_params rfc_options world0) as [-> _].
  vm_compute. reflexivity.
Defined.

(** The challenge of the device is accepted with its realm and nonce. *)
Lemma parseAuthHeader_challenge :
  exists p, parseAuthHeader challenge_header = Ok p /\
            realm p = "Digest:A4070000000000000000000000000000" /\
            nonce p = "k3VhAAkGAAAAAAAAtvKcM9Wt1Qd0rFBD".
Proof.
  destruct (parseAuthHeader_realm_nonce challenge_header) as (_ & H & _).
  destruct H as (p & r & n & Hp & Hr & Hn & Hrp & Hnp).
  - vm_compute. auto.
  - vm_compute. auto.
  - exists p. split; [exact Hp|].
    vm_compute in Hr, Hn. injection Hr as <-. injection Hn as <-. now split.
Defined.

(** A device that never answers the probe: four probes, waits of one, two
    and four seconds, no header, no error. *)
Lemma getDigestHeader_mute :
  let w := snd (getDigestHeader (mute_device (Ok (answer "")))
                                (digest_options (manager Absent)) world0) in
  fst (getDigestHeader (mute_device (Ok (answer "")))
                       (digest_options (manager Absent)) world0) = Ok None
  /\ probes w = 4%nat
  /\ flat_map (fun e => match e with ProbeWait ms => [ms] | _ => [] end) (trace w)
     = [1000; 2000; 4000]%N.
Proof.
  destruct (getDigestHeader_retries (mute_device (Ok (answer "")))
              (digest_options (manager Absent)) world0) as (_ & H & _).
  cbv zeta. rewrite H by reflexivity. vm_compute. auto.
Defined.

(** Two dropped requests, then an answer, behind a name whose address
    changes: two retries after one and two seconds, each attempt goes to the
    address looked up before it, and the answer is returned.  With a budget of
    two retries and a third fault, the error names the address of the last
    attempt. *)
Lemma makeRequest_two_faults :
  (exists s' t,
      makeRequest (roaming_device 2 (Ok (answer "ok"))) "urn:action" "<body/>" 0 fresh
      = (Ok (answer "ok"), s') /\
      trace (world s') = trace (world fresh) ++ t /\
      executor_view t =
      [Resolve; Send; Wait 1000; Resolve; Send; Wait 2000; Resolve; Send] /\
      waits (executor_view t) = [1000; 2000]%N /\
      resolved t = [("amt.local", 4%N); ("amt.local", 4%N); ("amt.local", 4%N)] /\
      map req_url (posted t) =
      ["http://10.0.0.5:16992/wsman"; "http://10.0.0.6:16992/wsman";
       "http://10.0.0.7:16992/wsman"])
  /\ (exists e s',
        makeRequest (roaming_device 3 (Ok (answer "ok"))) "urn:action" "<body/>" 0
                    (mkSession (manager (Given 2%nat)) world0) = (Throw e, s') /\
        message e =
        "Failed to connect to AMT device after 2 attempts. Last error: socket hang up (10.0.0.7:16992)").
Proof.
  split.
  - destruct (makeRequest_retry_schedule (roaming_device 2 (Ok (answer "ok")))
                "urn:action" "<body/>" fresh 2 3 (fun _ => econnreset)
                (fun k => nth k ["10.0.0.5"; "10.0.0.6"; "10.0.0.7"] "10.0.0.8"))
      as [H _].
    + reflexivity.
    + intros k. reflexivity.
    + intros i r Hi. destruct i as [|[|i]]; [reflexivity | reflexivity | lia].
    + intros i _. reflexivity.
    + apply H; [lia | reflexivity | reflexivity].
  - destruct (makeRequest_retry_schedule (roaming_device 3 (Ok (answer "ok")))
                "urn:action" "<body/>" (mkSession (manager (Given 2%nat)) world0)
                2 2 (fun _ => econnreset)
                (fun k => nth k ["10.0.0.5"; "10.0.0.6"; "10.0.0.7"] "10.0.0.8"))
      as [_ H].
    + reflexivity.
    + intros k. reflexivity.
    + intros i r Hi. destruct i as [|[|i]]; [reflexivity | reflexivity | lia].
    + intros i _. reflexivity.
    + destruct H as (e & s' & t & Hrun & Hm & _); [reflexivity | reflexivity |].
      exists e, s'. split; [exact Hrun | exact Hm].
Defined.

(** A 401 with the body unauthorized: the error carries both, and nothing
    is retried. *)
Lemma makeRequest_unauthorized :
  fst (makeRequest (device 0 (Ok unauthorized)) "urn:action" "<body/>" 0 fresh)
  = Throw (new_Error ("AMT request failed: 401 Unauthorized"
                      +:+ String "010" "Response: unauthorized"))
  /\ posts (world (snd (makeRequest (device 0 (Ok unauthorized))
                                    "urn:action" "<body/>" 0 fresh))) = 1%nat.
Proof.
  set (E := device 0 (Ok unauthorized)).
  pose (s1 := snd (ensureResolved E fresh)).
  pose (d := getDigestHeader E (digest_options (self s1)) (world s1)).
  destruct (makeRequest_protocol_error E "urn:action" "<body/>" 0 fresh s1
              (match fst d with Ok h => h | Throw _ => None end) (snd d) unauthorized)
    as (H & _ & _ & Hp).
  - vm_compute. reflexivity.
  - vm_compute. reflexivity.
  - reflexivity.
  - reflexivity.
  - destruct (H "unauthorized" eq_refl) as [Hr _].
    rewrite Hr. cbn [fst snd world]. split; [reflexivity | exact Hp].
Defined.

(** C5, the claim as stated fails: a 500 whose body breaks off is a
    response with a status outside 200..299, yet the request is sent a second
    time after one second, and the error thrown is the exhaustion error, which
    carries neither the status nor a body. *)
Lemma makeRequest_retries_broken_failure :
  let run := makeRequest (device 0 (Ok broken_failure)) "urn:action" "<body/>" 0
                         (mkSession (manager (Given 1%nat)) world0) in
  status broken_failure = 500%N /\ ok broken_failure = false
  /\ fst run =
     Throw (new_Error "Failed to connect to AMT device after 1 attempts. Last error: Invalid response body while trying to fetch http://10.0.0.5:16992/wsman: Premature close (10.0.0.5:16992)")
  /\ posts (world (snd run)) = 2%nat
  /\ waits (executor_view (trace (world (snd run)))) = [1000%N].
Proof. vm_compute. now split_and!. Qed.

(** A name that does not resolve: one lookup, the resolution error, and
    nothing else. *)
Lemma powerOn_unresolvable :
  powerOn unresolvable fresh =
  (Throw (new_Error "Failed to resolve host amt.local: getaddrinfo ENOTFOUND amt.local"),
   mkSession (manager Absent)
             (mkWorld 1 0 0 0 0 [Lookup "amt.local" 4])).
Proof.
  destruct (resolution_failure_is_fatal unresolvable fresh enotfound)
    as (_ & _ & H & _); [reflexivity | reflexivity |].
  unfold powerOn. rewrite H. reflexivity.
Defined.

(** A device that never answers the probe but answers the request: the
    request goes out with [Authorization] undefined and its answer is
    returned. *)
Lemma makeRequest_mute :
  exists s',
    makeRequest (mute_device (Ok (answer "ok"))) "urn:action" "<body/>" 0 fresh
    = (Ok (answer "ok"), s') /\
    exists r, last (trace (world s')) = Some (Post r) /\
              req_headers r !! "Authorization" = Some None.
Proof.
  set (E := mute_device (Ok (answer "ok"))).
  pose (s1 := snd (ensureResolved E fresh)).
  pose (w2 := snd (getDigestHeader E (digest_options (self s1)) (world s1))).
  destruct (makeRequest_posts_without_header E 3 "urn:action" "<body/>" 0 fresh s1 w2)
    as (Ha & _ & H).
  - vm_compute. reflexivity.
  - vm_compute. reflexivity.
  - eexists. split.
    + rewrite makeRequest_eq. apply H; reflexivity.
    + eexists. split; [|exact Ha]. vm_compute. reflexivity.
Defined.

(** A non-zero return value is [false], not an error. *)
Lemma changePowerState_nonzero :
  fst (changePowerState (device 0 (Ok (answer "<g:ReturnValue>2</g:ReturnValue>")))
                        PowerOn fresh) = Ok false
  /\ fst (changePowerState (device 0 (Ok (answer "<g:ReturnValue>0</g:ReturnValue>")))
                           PowerOn fresh) = Ok true.
Proof.
  split.
  - destruct (changePowerState_marker
                (device 0 (Ok (answer "<g:ReturnValue>2</g:ReturnValue>"))) PowerOn fresh)
      as [H _].
    destruct (H (answer "<g:ReturnValue>2</g:ReturnValue>")
                (snd (makeRequest
                        (device 0 (Ok (answer "<g:ReturnValue>2</g:ReturnValue>")))
                        power_action (createPowerStateChangeRequest PowerOn) 0 fresh)))
      as [Ht _]; [vm_compute; reflexivity |].
    destruct (Ht "<g:ReturnValue>2</g:ReturnValue>" eq_refl) as [-> _].
    reflexivity.
  - destruct (changePowerState_marker
                (device 0 (Ok (answer "<g:ReturnValue>0</g:ReturnValue>"))) PowerOn fresh)
      as [H _].
    destruct (H (answer "<g:ReturnValue>0</g:ReturnValue>")
                (snd (makeRequest
                        (device 0 (Ok (answer "<g:ReturnValue>0</g:ReturnValue>")))
                        power_action (createPowerStateChangeRequest PowerOn) 0 fresh)))
      as [Ht _]; [vm_compute; reflexivity |].
    destruct (Ht "<g:ReturnValue>0</g:ReturnValue>" eq_refl) as [-> _].
    reflexivity.
Defined.

(** The body of the specification's example gives 8. *)
Lemma getPowerState_eight :
  fst (getPowerState (device 0 (Ok (answer "<r:PowerState>8</r:PowerState>"))) fresh)
  = Ok (Finite 8).
Proof.
  set (E := device 0 (Ok (answer "<r:PowerState>8</r:PowerState>"))).
  pose (c := createGetPowerStateRequest E fresh).
  pose (m := makeRequest E enumerate_action
                         (match fst c with Ok b => b | Throw _ => "" end) 0 (snd c)).
  destruct (getPowerState_first_element E fresh (snd c) (snd m)
              (match fst c with Ok b => b | Throw _ => "" end)
              (answer "<r:PowerState>8</r:PowerState>"))
    as (H & _).
  - reflexivity.
  - vm_compute. reflexivity.
  - destruct (H "<r:PowerState>8</r:PowerState>" eq_refl) as (Hv & _).
    destruct (Hv "" "8" "") as [_ Hx].
    + split.
      * split_and!; [reflexivity | discriminate | reflexivity].
      * intros pre' ds' post' _. simpl. lia.
    + rewrite Hx; [reflexivity | vm_compute; reflexivity].
Defined.

(** C7, the claim as stated fails: the element writes the integer
    9007199254740993, and [getPowerState] returns 9007199254740992.  Two of
    the claim's wordings do not describe the code either when they are read
    to the letter: a body that contains the element with 8 gives 2 when an
    element with 2 stands before it, and gives 8 when the element before it
    holds no number; and an element whose content [parseInt] reads as 8 is
    not found when the content starts with a space. *)
Lemma getPowerState_rounds_large_value :
  (fst (getPowerState
          (device 0 (Ok (answer "<r:PowerState>9007199254740993</r:PowerState>")))
          fresh)
   = Ok (Finite 9007199254740992)
   /\ decimal_value 0 "9007199254740993" = 9007199254740993%N
   /\ Finite 9007199254740992 <> Finite 9007199254740993)
  /\ fst (getPowerState
            (device 0 (Ok (answer "<r:PowerState>2</r:PowerState><r:PowerState>8</r:PowerState>")))
            fresh)
     = Ok (Finite 2)
  /\ fst (getPowerState
            (device 0 (Ok (answer "<r:PowerState>x</r:PowerState><r:PowerState>8</r:PowerState>")))
            fresh)
     = Ok (Finite 8)
  /\ (fst (getPowerState
             (device 0 (Ok (answer "<r:PowerState> 8</r:PowerState>"))) fresh)
      = Ok (Finite (-1))
      /\ parseInt " 8" = Finite 8).
Proof.
  split_and!; try (vm_compute; reflexivity). discriminate.
Qed.

(** Another prefix, or none, gives -1. *)
Lemma getPowerState_other_prefix :
  fst (getPowerState (device 0 (Ok (answer "<g:PowerState>8</g:PowerState>"))) fresh)
  = Ok (Finite (-1)).
Proof.
  set (E := device 0 (Ok (answer "<g:PowerState>8</g:PowerState>"))).
  pose (c := createGetPowerStateRequest E fresh).
  pose (m := makeRequest E enumerate_action
                         (match fst c with Ok b => b | Throw _ => "" end) 0 (snd c)).
  rewrite (getPowerState_prefix_is_literal E fresh (snd c) (snd m)
             (match fst c with Ok b => b | Throw _ => "" end)
             "<g:PowerState>8</g:PowerState>"
             (answer "<g:PowerState>8</g:PowerState>"));
    [reflexivity | reflexivity | vm_compute; reflexivity | reflexivity | reflexivity].
Defined.

Example getPowerState_no_prefix :
  fst (getPowerState (device 0 (Ok (answer "<PowerState>8</PowerState>"))) fresh)
  = Ok (Finite (-1)).
Proof. vm_compute. reflexivity. Qed.

End ScenarioFacts.

(** ** More about digest-auth.ts *)

Module DigestAuthMore.
Import Js Node DigestAuth Trace Challenge JsFacts NodeFacts DigestAuthFacts.
#[local] Arguments String.append !s1 s2 : simpl nomatch.
#[local] Arguments md5_hex : simpl never.
#[local] Arguments digest_header_spec : simpl never.
#[local] Arguments hex : simpl never.
#[local] Arguments N.pow : simpl never.
#[local] Arguments N.mul : simpl never.

(** *** What [parseAuthHeader] keeps *)

Lemma others_set_param (k v k' : string) (p : AuthParams) :
  others (set_param k v p) !! k' =
  if String.eqb k "realm" || String.eqb k "nonce" || String.eqb k "__proto__"
  then others p !! k'
  else if String.eqb k k' then Some v else others p !! k'.
Proof.
  unfold set_param.
  destruct (String.eqb k "realm"); [reflexivity|].
  destruct (String.eqb k "nonce"); [reflexivity|].
  destruct (String.eqb k "__proto__"); [reflexivity|].
  cbn [orb others]. destruct (String.eqb_spec k k') as [->|Hne].
  - apply lookup_insert_eq.
  - now apply lookup_insert_ne.
Qed.

Lemma others_fold (l : list (string * string)) (p : AuthParams) (k : string) :
  others (fold_left assign l p) !! k =
  if String.eqb k "realm" || String.eqb k "nonce" || String.eqb k "__proto__"
  then others p !! k
  else match last_value k l with
       | Some v => Some v
       | None => others p !! k
       end.
Proof.
  fold (reserved k).
  revert p. induction l as [|[k0 v0] l IH]; intros p.
  - cbn. now destruct (reserved k).
  - cbn [fold_left last_value]. rewrite IH.
    change (assign p (k0, v0)) with (set_param k0 v0 p).
    rewrite !others_set_param. fold (reserved k0).
    destruct (reserved k) eqn:Hk.
    + destruct (reserved k0) eqn:Hk0; [reflexivity|].
      destruct (String.eqb_spec k0 k) as [->|]; [congruence | reflexivity].
    + destruct (last_value k l); [reflexivity|].
      destruct (String.eqb_spec k0 k) as [->|].
      * now rewrite Hk.
      * now destruct (reserved k0).
Qed.

(** X1.  Every directive the pattern captures under a key other than realm,
    nonce and __proto__ is kept under that key, with the value of its last
    occurrence; nothing else is kept, and __proto__ is never stored. *)
Theorem parseAuthHeader_keeps_directives (authHeader : string) (p : AuthParams) :
  parseAuthHeader authHeader = Ok p ->
  forall k,
    others p !! k =
    if String.eqb k "realm" || String.eqb k "nonce" || String.eqb k "__proto__"
    then None
    else last_value k (captures authHeader).
Proof.
  rewrite parseAuthHeader_eq. cbv zeta.
  destruct (String.eqb _ "" || String.eqb _ ""); [discriminate|]. intros [= <-] k.
  rewrite others_fold. cbn [others]. rewrite lookup_empty.
  fold (reserved k). destruct (reserved k); [reflexivity|].
  now destruct (last_value k (captures authHeader)).
Qed.

Lemma captures_fuel_classes (fuel : nat) (s k v : string) :
  In (k, v) (captures_fuel fuel s) ->
  k <> "" /\ forallb_str is_word k = true /\ forallb_str not_dquote v = true.
Proof.
  revert s. induction fuel as [|fuel IH]; intros s; simpl; [contradiction|].
  destruct (auth_regex_exec s) as [[[k' v'] rest]|] eqn:Ex; [|contradiction].
  intros [[= -> ->]|H]; [|now apply (IH rest)].
  now apply auth_regex_exec_Some in Ex as (_ & _ & ? & ? & _ & ?).
Qed.

(** X2.  What [parseAuthHeader] returns was written in the challenge: the realm,
    the nonce and every other value kept stand in the challenge as key,
    equals sign and quoted value, and no value is empty or holds a double
    quote. *)
Theorem parseAuthHeader_values_quoted (authHeader : string) (p : AuthParams) :
  parseAuthHeader authHeader = Ok p ->
  forall k v,
    (k = "realm" /\ v = realm p) \/ (k = "nonce" /\ v = nonce p) \/
    others p !! k = Some v ->
    v <> "" /\ forallb_str not_dquote v = true /\
    exists pre post,
      authHeader = pre +:+ k +:+ "=" +:+ dq +:+ v +:+ dq +:+ post.
Proof.
  intros Hp k v Hkv.
  assert (Hin : In (k, v) (captures authHeader)).
  { pose proof Hp as Hp'. rewrite parseAuthHeader_eq in Hp'. cbv zeta in Hp'.
    destruct (String.eqb _ "" || String.eqb _ "") eqn:Hz; [discriminate|].
    injection Hp' as Hp'. apply orb_false_iff in Hz as [Hr Hn].
    rewrite realm_fold in Hr. rewrite nonce_fold in Hn. cbn [realm nonce] in Hr, Hn.
    destruct Hkv as [[-> ->]|[[-> ->]|Ho]].
    - rewrite <- Hp', realm_fold. cbn [realm].
      destruct (last_value "realm" (captures authHeader)) eqn:E;
        [now apply last_value_In | discriminate Hr].
    - rewrite <- Hp', nonce_fold. cbn [nonce].
      destruct (last_value "nonce" (captures authHeader)) eqn:E;
        [now apply last_value_In | discriminate Hn].
    - rewrite <- Hp', others_fold in Ho. cbn [others] in Ho.
      rewrite lookup_empty in Ho.
      fold (reserved k) in Ho. destruct (reserved k); [discriminate|].
      destruct (last_value k (captures authHeader)) eqn:E; [|discriminate].
      injection Ho as <-. now apply last_value_In. }
  split_and!.
  - now apply captures_fuel_values in Hin.
  - now apply captures_fuel_classes in Hin.
  - now apply captures_fuel_occur in Hin.
Qed.

(** *** The standard form of a challenge is read back *)

(** Text without equals sign that ends outside the word characters stops
    every attempt that starts in it. *)
Lemma span_junk (b tail : string) :
  b <> "" ->
  forallb_str (fun c => negb (Ascii.eqb c "="%char)) b = true ->
  (forall b' c, b = b' +:+ String c "" -> is_word c = false) ->
  exists run c r,
    span is_word (b +:+ tail) = (run, String c r) /\
    Ascii.eqb "="%char c = false.
Proof.
  induction b as [|x b IH]; intros Hne Hno Hlast; [contradiction|].
  cbn [forallb_str] in Hno. apply andb_true_iff in Hno as [Hx Hno].
  cbn [String.append span].
  destruct (is_word x) eqn:Hw.
  - destruct b as [|y b].
    + rewrite (Hlast "" x eq_refl) in Hw. discriminate.
    + destruct IH as (run & c & r & Hs & Hc); [discriminate | exact Hno | |].
      * intros b' c Hb. apply (Hlast (String x b') c). cbn. now rewrite Hb.
      * rewrite Hs. now exists (String x run), c, r.
  - exists "", x, (b +:+ tail). split; [reflexivity|].
    rewrite Ascii.eqb_sym. now apply negb_true_iff.
Qed.

Lemma auth_regex_at_junk (b tail : string) :
  b <> "" ->
  forallb_str (fun c => negb (Ascii.eqb c "="%char)) b = true ->
  (forall b' c, b = b' +:+ String c "" -> is_word c = false) ->
  auth_regex_at (b +:+ tail) = None.
Proof.
  intros Hne Hno Hlast.
  destruct (span_junk b tail Hne Hno Hlast) as (run & c & r & Hs & Hc).
  rewrite auth_regex_at_eq, Hs. cbn [fst snd].
  destruct run; [reflexivity|].
  change (lit ("=" +:+ dq) (String c r))
    with (if Ascii.eqb "="%char c then lit dq r else None).
  now rewrite Hc.
Qed.

Lemma forallb_str_app (q : ascii -> bool) (a b : string) :
  forallb_str q (a +:+ b) = forallb_str q a && forallb_str q b.
Proof.
  induction a as [|x a IH]; [reflexivity|]. cbn [String.append forallb_str].
  now rewrite IH, andb_assoc.
Qed.

Lemma last_char_unique (j j' : string) (c c' : ascii) :
  j +:+ String c "" = j' +:+ String c' "" -> c = c'.
Proof.
  revert j'. induction j as [|x j IH]; intros [|y j'] H; cbn in H.
  - congruence.
  - injection H as _ H. destruct j'; discriminate.
  - injection H as _ H. destruct j; discriminate.
  - injection H as _ H. now apply (IH j').
Qed.

(** After text without equals sign that ends outside the word characters,
    the next match is the directive that follows. *)
Lemma auth_regex_exec_skip (junk : string) (kv : string * string) (rest : string) :
  forallb_str (fun c => negb (Ascii.eqb c "="%char)) junk = true ->
  (forall j c, junk = j +:+ String c "" -> is_word c = false) ->
  well_formed kv ->
  auth_regex_exec (junk +:+ directive kv +:+ rest) = Some (fst kv, snd kv, rest).
Proof.
  intros Hno Hlast (Hk & Hkw & Hv & Hvq). unfold auth_regex_exec, directive.
  rewrite !str_app_assoc.
  apply search_leftmost.
  - now apply auth_regex_at_intro.
  - intros a b Hab Hb. subst junk.
    rewrite forallb_str_app in Hno. apply andb_true_iff in Hno as [_ Hno].
    apply auth_regex_at_junk; [exact Hb | exact Hno |].
    intros b' c ->. apply (Hlast (a +:+ b') c). now rewrite str_app_assoc.
Qed.

Lemma auth_regex_exec_scheme (kv : string * string) (rest : string) :
  well_formed kv ->
  auth_regex_exec ("Digest " +:+ directive kv +:+ rest) = Some (fst kv, snd kv, rest).
Proof.
  apply auth_regex_exec_skip; [reflexivity|].
  intros j c H. now rewrite (last_char_unique j "Digest" c " "%char (eq_sym H)).
Qed.

Lemma auth_regex_exec_comma (kv : string * string) (rest : string) :
  well_formed kv ->
  auth_regex_exec (", " +:+ directive kv +:+ rest) = Some (fst kv, snd kv, rest).
Proof.
  apply auth_regex_exec_skip; [reflexivity|].
  intros j c H. now rewrite (last_char_unique j "," c " "%char (eq_sym H)).
Qed.

(** The directives after the first one. *)
Lemma captures_tail (l : list (string * string)) :
  Forall well_formed l ->
  captures (match l with [] => "" | _ => ", " +:+ directives l end) = l.
Proof.
  induction 1 as [|kv l Hkv Hl IH]; [reflexivity|].
  rewrite captures_unfold. cbn [directives].
  destruct l as [|kv' l].
  - rewrite <- (str_app_nil_r (directive kv)).
    rewrite (auth_regex_exec_comma kv "" Hkv). destruct kv. cbn [fst snd].
    now rewrite captures_unfold.
  - rewrite (auth_regex_exec_comma kv _ Hkv). destruct kv. cbn [fst snd].
    now rewrite IH.
Qed.

(** X3.  A challenge in the standard form is read back: the pairs
    [parseAuthHeader] captures from the text written for a list of
    directives are that list, in order; so the challenge is accepted exactly
    when it names a realm and a nonce, with the last value of each. *)
Theorem standard_challenge_read_back (l : list (string * string)) :
  Forall well_formed l ->
  captures (render l) = l
  /\ parseAuthHeader (render l) =
     match last_value "realm" l, last_value "nonce" l with
     | Some r, Some n =>
         Ok (fold_left assign l (mkAuthParams "" "" ∅))
     | _, _ => Throw missing_params
     end
  /\ (forall r n, last_value "realm" l = Some r -> last_value "nonce" l = Some n ->
      exists p, parseAuthHeader (render l) = Ok p /\ realm p = r /\ nonce p = n).
Proof.
  intros Hl.
  assert (Hc : captures (render l) = l).
  { unfold render. destruct Hl as [|kv l Hkv Hl]; [reflexivity|].
    rewrite captures_unfold. cbn [directives].
    destruct l as [|kv' l].
    - rewrite <- (str_app_nil_r (directive kv)).
      rewrite (auth_regex_exec_scheme kv "" Hkv). destruct kv. cbn [fst snd].
      now rewrite captures_unfold.
    - rewrite (auth_regex_exec_scheme kv _ Hkv). destruct kv. cbn [fst snd].
      f_equal. exact (captures_tail (kv' :: l) Hl). }
  assert (Hv : forall k v, last_value k l = Some v -> String.eqb v "" = false).
  { intros k v H. apply last_value_In in H.
    apply (proj1 (List.Forall_forall _ _) Hl) in H.
    destruct H as (_ & _ & H & _). now apply String.eqb_neq. }
  assert (Hp : parseAuthHeader (render l) =
     match last_value "realm" l, last_value "nonce" l with
     | Some r, Some n => Ok (fold_left assign l (mkAuthParams "" "" ∅))
     | _, _ => Throw missing_params
     end).
  { rewrite parseAuthHeader_eq, Hc. cbv zeta. rewrite realm_fold, nonce_fold.
    cbn [realm nonce].
    destruct (last_value "realm" l) as [r|] eqn:Er; cbn [default].
    - rewrite (Hv _ _ Er).
      destruct (last_value "nonce" l) as [n|] eqn:En; cbn [default];
        [now rewrite (Hv _ _ En) | reflexivity].
    - reflexivity. }
  split_and!; [exact Hc | exact Hp |].
  intros r n Er En. rewrite Hp, Er, En. eexists. split; [reflexivity|].
  rewrite realm_fold, nonce_fold, Er, En. now cbn.
Qed.

(** *** The shape of the header fields *)

Lemma hex_length (bs : list N) : String.length (hex bs) = (2 * List.length bs)%nat.
Proof.
  induction bs as [|b bs IH]; [reflexivity|].
  change (hex (b :: bs)) with
    (String (hex_digit (N.shiftr b 4)) (String (hex_digit (N.land b 15)) (hex bs))).
  cbn [String.length List.length]. rewrite IH. lia.
Qed.

Lemma hex_digit_ok (n : N) : (n < 16)%N -> is_hex_digit (hex_digit n) = true.
Proof.
  intros H.
  assert (Hn : In n [0; 1; 2; 3; 4; 5; 6; 7; 8; 9; 10; 11; 12; 13; 14; 15]%N).
  { cbn. lia. }
  cbn in Hn. repeat (destruct Hn as [<-|Hn]; [vm_compute; reflexivity|]).
  contradiction.
Qed.

Lemma hex_ok (bs : list N) :
  List.Forall (fun b => (b < 256)%N) bs -> forallb_str is_hex_digit (hex bs) = true.
Proof.
  induction 1 as [|b bs Hb _ IH]; [reflexivity|].
  change (hex (b :: bs)) with
    (String (hex_digit (N.shiftr b 4)) (String (hex_digit (N.land b 15)) (hex bs))).
  cbn [forallb_str]. rewrite IH, !hex_digit_ok; [reflexivity | |].
  - change 15%N with (N.ones 4). rewrite N.land_ones. now apply N.mod_lt.
  - rewrite N.shiftr_div_pow2. apply N.Div0.div_lt_upper_bound.
    change (2 ^ 4 * 16)%N with 256%N. exact Hb.
Qed.

Lemma bytes_bounded (bs : list Byte.byte) :
  List.Forall (fun b => (b < 256)%N) (map Byte.to_N bs).
Proof.
  induction bs as [|b bs IH]; constructor; [|exact IH].
  pose proof (Byte.to_N_bounded b). lia.
Qed.

Lemma le_bytes_length (n : nat) (w : N) : List.length (Md5.le_bytes n w) = n.
Proof.
  revert w. induction n as [|n IH]; intros w; [reflexivity|].
  cbn [Md5.le_bytes List.length]. now rewrite IH.
Qed.

Lemma le_bytes_bounded (n : nat) (w : N) :
  List.Forall (fun b => (b < 256)%N) (Md5.le_bytes n w).
Proof.
  revert w. induction n as [|n IH]; intros w; constructor; [|apply IH].
  change 255%N with (N.ones 8). rewrite N.land_ones. now apply N.mod_lt.
Qed.

Lemma md5_hex_shape (text : string) :
  String.length (md5_hex text) = 32%nat /\
  forallb_str is_hex_digit (md5_hex text) = true.
Proof.
  unfold md5_hex, Md5.digest. cbv zeta.
  set (st := fold_left Md5.compress _ Md5.init).
  split.
  - rewrite hex_length, !List.length_app, !le_bytes_length. reflexivity.
  - apply hex_ok. rewrite !List.Forall_app. repeat split; apply le_bytes_bounded.
Qed.

(** X4.  When the random source hands out 16 bytes, the client nonce and
    the response in the header are 32 lower-case hexadecimal digits each, so
    neither can end its quoted field early. *)
Theorem digest_header_fields_are_hex
        (E : Env) (authParams : AuthParams) (options : DigestOptions) (w : World) :
  List.length (random_bytes E (randoms w) 16) = 16%nat ->
  exists cnonce response,
    String.length cnonce = 32%nat /\ forallb_str is_hex_digit cnonce = true /\
    String.length response = 32%nat /\ forallb_str is_hex_digit response = true /\
    fst (constructDigestAuthHeader E authParams options w) =
    Ok ("Digest username=" +:+ dq +:+ username options +:+ dq
        +:+ ", realm=" +:+ dq +:+ realm authParams +:+ dq
        +:+ ", nonce=" +:+ dq +:+ nonce authParams +:+ dq
        +:+ ", uri=" +:+ dq +:+ url options +:+ dq
        +:+ ", cnonce=" +:+ dq +:+ cnonce +:+ dq
        +:+ ", nc=00000001, qop=auth, response=" +:+ dq +:+ response +:+ dq).
Proof.
  intros Hlen.
  set (cnonce := hex (map Byte.to_N (random_bytes E (randoms w) 16))).
  pose (response :=
    md5_hex (md5_hex (username options +:+ ":" +:+ realm authParams +:+ ":"
                      +:+ password options)
             +:+ ":" +:+ nonce authParams +:+ ":00000001:" +:+ cnonce +:+ ":auth:"
             +:+ md5_hex (default "POST" (method options) +:+ ":" +:+ url options))).
  exists cnonce, response. split_and!.
  - unfold cnonce. rewrite hex_length, length_map, Hlen. reflexivity.
  - apply hex_ok, bytes_bounded.
  - apply md5_hex_shape.
  - apply md5_hex_shape.
  - rewrite constructDigestAuthHeader_run. reflexivity.
Qed.

(** *** The probes of one call *)


Lemma failed_probes_total (r : Request) (retryCount k : nat) :
  (total (probe_waits (failed_probes r retryCount k)) + 2 ^ N.of_nat retryCount * 1000
   = 2 ^ N.of_nat (retryCount + k) * 1000)%N.
Proof.
  revert retryCount. induction k as [|k IH]; intros retryCount.
  - now rewrite Nat.add_0_r.
  - cbn [failed_probes]. change (probe_waits (Probe ?a :: ProbeWait ?b :: ?l))
      with (b :: probe_waits l).
    cbn [total fold_right]. fold (total (probe_waits (failed_probes r (S retryCount) k))).
    specialize (IH (S retryCount)).
    rewrite <- Nat.add_succ_comm, <- IH.
    rewrite Nat2N.inj_succ, N.pow_succ_r'. lia.
Qed.

Lemma failed_probes_requests (r : Request) (retryCount k : nat) :
  probed_requests (failed_probes r retryCount k) = repeat r k.
Proof.
  revert retryCount. induction k as [|k IH]; intros retryCount; [reflexivity|].
  cbn [failed_probes repeat].
  change (probed_requests (Probe ?a :: ProbeWait ?b :: ?l))
    with (a :: probed_requests l).
  now rewrite IH.
Qed.

Section Shape.
Variable E : Env.
Variable o : DigestOptions.

Let req := probe_request (url o) (default "GET" (method o)) (default ∅ (headers o)).

(** Every run is some failed probes and one more probe. *)
Lemma getDigestHeader_from_shape (left retryCount : nat) (w w' : World)
    (r : result (option string)) :
getDigestHeader_from E left o retryCount w = (r, w') ->
exists k, (k <= left)%nat /\
          probes w' = (probes w + k + 1)%nat /\
          trace w' = trace w ++ failed_probes req retryCount k ++ [Probe req] /\
          (r = Ok None -> k = left).
Proof.
revert retryCount w. induction left as [|left IH]; intros retryCount w;
  cbn [getDigestHeader_from]; unfold try_catch, bind at 1;
  (destruct (challenge (probe_reply E (probes w) req)) as [p|] eqn:Hc;
   [ rewrite (probe_Some E (url o) (username o) (password o) _ _ w p Hc)
   | destruct (probe_None E (url o) (username o) (password o) _ _ w Hc) as [e ->] ]).
- intros [= <- <-]. exists 0%nat. split_and!; [lia | cbn; lia | reflexivity | discriminate].
- intros [= <- <-]. exists 0%nat. split_and!; [lia | cbn; lia | reflexivity | reflexivity].
- intros [= <- <-]. exists 0%nat. split_and!; [lia | cbn; lia | reflexivity | discriminate].
- unfold bind, sleep. intros H.
  apply IH in H as (k & Hk & Hp & Ht & Hn).
  exists (S k). split_and!.
  + lia.
  + rewrite Hp. cbn. lia.
  + rewrite Ht. cbn [trace count_probe log failed_probes].
    now rewrite <- !app_assoc.
  + intros Hr. now rewrite (Hn Hr).
Qed.
End Shape.


End DigestAuthMore.

(** ** More about amt-manager.ts *)

Module AMTMore.
Import Js Node DigestAuth AMT Trace JsFacts NodeFacts DigestAuthFacts AMTFacts
       DigestAuthMore.
#[local] Arguments String.append !s1 s2 : simpl nomatch.
#[local] Arguments connection : simpl never.
#[local] Arguments request_options : simpl never.
#[local] Arguments protocol_error : simpl never.
#[local] Arguments resolution_error : simpl never.
#[local] Arguments exhausted : simpl never.
#[local] Arguments N.pow : simpl never.
#[local] Arguments N.mul : simpl never.

Lemma probed_requests_app (a b : list Event) :
  probed_requests (a ++ b) = probed_requests a ++ probed_requests b.
Proof. apply flat_map_app. Qed.

Lemma all_waits_app (a b : list Event) : all_waits (a ++ b) = all_waits a ++ all_waits b.
Proof. apply flat_map_app. Qed.

Lemma total_app (a b : list N) : total (a ++ b) = (total a + total b)%N.
Proof.
  induction a as [|x a IH]; [reflexivity|]. cbn [app total fold_right].
  fold (total (a ++ b)). fold (total a). rewrite IH. lia.
Qed.

Lemma posted_failed_probes (r : Request) (retryCount k : nat) :
  posted (failed_probes r retryCount k) = [].
Proof.
  revert retryCount. induction k as [|k IH]; intros retryCount; [reflexivity|].
  cbn [failed_probes]. exact (IH (S retryCount)).
Qed.

Lemma all_waits_failed_probes (r : Request) (retryCount k : nat) :
  all_waits (failed_probes r retryCount k) = probe_waits (failed_probes r retryCount k).
Proof.
  revert retryCount. induction k as [|k IH]; intros retryCount; [reflexivity|].
  cbn [failed_probes].
  change (all_waits (Probe ?a :: ProbeWait ?b :: ?l)) with (b :: all_waits l).
  change (probe_waits (Probe ?a :: ProbeWait ?b :: ?l)) with (b :: probe_waits l).
  now rewrite IH.
Qed.

(** Events before a request that hold no request: they leave the mark of a
    probe as it is, and set it when a probe is among them. *)
Lemma each_post_probed_keep (a t : list Event) :
  posted a = [] -> each_post_probed true (a ++ t) = each_post_probed true t.
Proof.
  induction a as [|e a IH]; [reflexivity|].
  destruct e; cbn; intros H; try discriminate; now apply IH.
Qed.

Lemma each_post_probed_skip (b : bool) (a t : list Event) :
  posted a = [] -> probed_requests a = [] ->
  each_post_probed b (a ++ t) = each_post_probed b t.
Proof.
  induction a as [|e a IH]; [reflexivity|].
  destruct e; cbn; intros H1 H2; try discriminate; now apply IH.
Qed.

Lemma each_post_probed_set (b : bool) (a t : list Event) :
  posted a = [] -> (1 <= List.length (probed_requests a))%nat ->
  each_post_probed b (a ++ t) = each_post_probed true t.
Proof.
  induction a as [|e a IH]; [cbn; lia|].
  destruct e; cbn; intros H1 H2; try discriminate; try now apply IH.
  now apply each_post_probed_keep.
Qed.

Lemma request_options_sent_as (this : AMTManager) (digestHeader : option string)
      (action body : string) :
  sent_as action body (request_options this digestHeader action body).
Proof. repeat split. Qed.

Section Invariants.
Variable E : Env.

(** What the challenge fetch of [makeRequest] adds: probes, and at least
  one. *)
Lemma getDigestHeader_adds (options : DigestHeaderOptions) (w w' : World)
    (r : result (option string)) :
getDigestHeader E options w = (r, w') ->
uuids w' = uuids w /\ posts w' = posts w /\
exists t, trace w' = trace w ++ t /\ posted t = [] /\
          (1 <= List.length (probed_requests t))%nat.
Proof.
intros H.
pose proof (getDigestHeader_frame E _ _ _ _ H) as (_ & Hp & Hu & _).
apply getDigestHeader_from_shape in H as (k & _ & _ & Ht & _).
split_and!; [exact Hu | exact Hp |].
eexists. split; [exact Ht|]. split.
- rewrite posted_app, posted_failed_probes. reflexivity.
- rewrite probed_requests_app, List.length_app. cbn. lia.
Qed.

Lemma resolveHost_effect (s s' : Session) (r : result unit) :
resolveHost E s = (r, s') ->
uuids (world s') = uuids (world s) /\
match r with
| Ok _ => needs_resolve (self s') = false
| Throw _ => self s' = self s
end.
Proof.
destruct (dns E (lookups (world s)) (c_host (config (self s)))
              (lookup_family (config (self s)))) as [a|e] eqn:Hd.
- rewrite (resolveHost_Ok E s a Hd). intros [= <- <-].
  split; [reflexivity | apply needs_resolve_connection].
- rewrite (resolveHost_Throw E s e Hd). now intros [= <- <-].
Qed.

Lemma ensureResolved_effect (s s' : Session) (r : result unit) :
ensureResolved E s = (r, s') ->
uuids (world s') = uuids (world s) /\
match r with
| Ok _ => needs_resolve (self s') = false
| Throw _ => self s' = self s
end.
Proof.
destruct (needs_resolve (self s)) eqn:Hn.
- rewrite (ensureResolved_resolves E s Hn). apply resolveHost_effect.
- rewrite (ensureResolved_ready E s Hn). now intros [= <- <-].
Qed.

Lemma makeRequest_from_invariants (left : nat) (action body : string) :
forall (retryCount : nat) (s s' : Session) (r : result Response),
  makeRequest_from E left action body retryCount s = (r, s') ->
  config (self s') = config (self s) /\
  (needs_resolve (self s) = false -> needs_resolve (self s') = false) /\
  (forall response, r = Ok response -> needs_resolve (self s') = false) /\
  uuids (world s') = uuids (world s) /\
  exists t,
    trace (world s') = trace (world s) ++ t /\
    List.Forall (sent_as action body) (posted t) /\
    posts (world s') = (posts (world s) + List.length (posted t))%nat /\
    (List.length (posted t) <= left + 1)%nat /\
    (List.length (posted t) <= List.length (probed_requests t))%nat /\
    each_post_probed false t = true.
Proof.
induction left as [|left IH]; intros retryCount s s' r.
all: destruct (ensureResolved E s) as [[[]|e] s1] eqn:H1;
  [| rewrite (makeRequest_from_unresolved E _ _ _ _ _ _ _ H1);
     intros [= <- <-];
     pose proof (ensureResolved_effect _ _ _ H1) as (Hu & Hs);
     apply ensureResolved_frame in H1 as (Hc & Hp & Ht);
     cbn beta iota in Hs; split_and!;
     [ exact Hc | now rewrite Hs | discriminate | exact Hu
     | eexists; split; [exact Ht|];
       destruct (needs_resolve (self s)); cbn;
       (split_and!; [constructor | lia | lia | lia | reflexivity]) ] ].
all: destruct (prepareRequest_run E action body s1) as (dh & w2 & H2 & _).
all: rewrite (makeRequest_from_round E _ _ _ _ _ _ _ _ H1 H2); cbv zeta.
all: pose proof (ensureResolved_effect _ _ _ H1) as (Hu1 & Hn1); cbn beta iota in Hn1.
all: apply ensureResolved_frame in H1 as (Hc1 & Hp1 & Ht1).
all: apply getDigestHeader_adds in H2 as (Hu2 & Hp2 & t2 & Ht2 & Hpo2 & Hpr2).
all: set (rq := request_options (self s1) dh action body).
all: set (t1 := if needs_resolve (self s)
                then [Lookup (c_host (config (self s))) (lookup_family (config (self s)))]
                else []) in *.
all: assert (Hpt1 : posted t1 = [] /\ probed_requests t1 = [])
  by (unfold t1; now destruct (needs_resolve (self s))).
all: destruct Hpt1 as [Hpo1 Hpr1].
all: assert (Hround : trace (after_post rq w2) = trace (world s) ++ t1 ++ t2 ++ [Post rq])
  by (cbn [after_post count_post log trace]; rewrite Ht2, Ht1;
      now rewrite <- !app_assoc).
all: assert (Hone : forall res,
  (res, mkSession (self s1) (after_post rq w2)) = (r, s') ->
  config (self s') = config (self s) /\
  (needs_resolve (self s) = false -> needs_resolve (self s') = false) /\
  (forall response, r = Ok response -> needs_resolve (self s') = false) /\
  uuids (world s') = uuids (world s) /\
  exists t,
    trace (world s') = trace (world s) ++ t /\
    List.Forall (sent_as action body) (posted t) /\
    posts (world s') = (posts (world s) + List.length (posted t))%nat /\
    (List.length (posted t) <= 1)%nat /\
    (List.length (posted t) <= List.length (probed_requests t))%nat /\
    each_post_probed false t = true).
all: try (intros res [= <- <-]; cbn [self world]; split_and!;
  [ exact Hc1 | intros _; exact Hn1 | intros _ _; exact Hn1
  | cbn; now rewrite Hu2, Hu1
  | exists (t1 ++ t2 ++ [Post rq]); split; [exact Hround|];
    rewrite (each_post_probed_skip false t1 _ Hpo1 Hpr1),
      (each_post_probed_set false t2 _ Hpo2 Hpr2);
    rewrite !posted_app, !probed_requests_app, Hpo1, Hpo2, Hpr1, !List.length_app;
    cbn [posted flat_map app List.length];
    split_and!;
    [ repeat constructor | cbn; rewrite Hp2, Hp1; lia | lia | lia | reflexivity ] ]).
all: destruct (attempt (post_reply E (posts w2) rq)) as [response|e].
all: try (intros Hrun; apply Hone in Hrun;
          destruct Hrun as (? & ? & ? & ? & t & ? & ? & ? & ? & ? & ?);
          split_and!; try assumption; exists t; split_and!; try assumption; lia).
all: destruct (is_connection_error e);
  [| intros Hrun; apply Hone in Hrun;
     destruct Hrun as (? & ? & ? & ? & t & ? & ? & ? & ? & ? & ?);
     split_and!; try assumption; exists t; split_and!; try assumption; lia ].
- intros Hrun; apply Hone in Hrun;
    destruct Hrun as (? & ? & ? & ? & t & ? & ? & ? & ? & ? & ?);
    split_and!; try assumption; exists t; split_and!; try assumption; lia.
- clear Hone. unfold bind at 1. cbv [lift sleep]. cbn [world self].
  unfold bind at 1.
  set (s3 := mkSession (self s1)
               (log (RetryWait (2 ^ N.of_nat retryCount * 1000)) (after_post rq w2))).
  destruct (resolveHost E s3) as [[[]|e'] s4] eqn:H4.
  + intros Hrun.
    pose proof (resolveHost_effect _ _ _ H4) as (Hu4 & Hn4). cbn beta iota in Hn4.
    apply resolveHost_frame in H4 as (Hc4 & Hp4 & Ht4).
    apply IH in Hrun as (Hc & Hk & Hok & Hu & t & Ht & Hf & Hp & Hl & Hpp & He).
    split_and!.
    * rewrite Hc, Hc4. exact Hc1.
    * intros _. now apply Hk.
    * exact Hok.
    * rewrite Hu, Hu4. cbn. now rewrite Hu2, Hu1.
    * exists (t1 ++ t2 ++ [Post rq; RetryWait (2 ^ N.of_nat retryCount * 1000);
                           Lookup (c_host (config (self s3)))
                                  (lookup_family (config (self s3)))] ++ t).
      split_and!.
      -- rewrite Ht, Ht4. unfold s3. cbn [world log trace]. rewrite Hround.
         now rewrite <- !app_assoc.
      -- rewrite !posted_app, Hpo1, Hpo2. cbn [posted flat_map app].
         constructor; [apply request_options_sent_as | exact Hf].
      -- rewrite Hp, Hp4. unfold s3. cbn [world log posts after_post count_post].
         rewrite !posted_app, Hpo1, Hpo2, Hp2, Hp1. cbn [posted flat_map app List.length].
         lia.
      -- rewrite !posted_app, Hpo1, Hpo2. cbn [posted flat_map app List.length]. lia.
      -- rewrite !posted_app, !probed_requests_app, Hpo1, Hpo2, Hpr1, !List.length_app.
         cbn [posted probed_requests flat_map app List.length]. lia.
      -- rewrite (each_post_probed_skip false t1 _ Hpo1 Hpr1),
           (each_post_probed_set false t2 _ Hpo2 Hpr2).
         exact He.
  + intros [= <- <-].
    pose proof (resolveHost_effect _ _ _ H4) as (Hu4 & Hs4). cbn beta iota in Hs4.
    apply resolveHost_frame in H4 as (Hc4 & Hp4 & Ht4).
    split_and!.
    * rewrite Hc4. exact Hc1.
    * intros _. rewrite Hs4. exact Hn1.
    * discriminate.
    * rewrite Hu4. cbn. now rewrite Hu2, Hu1.
    * exists (t1 ++ t2 ++ [Post rq; RetryWait (2 ^ N.of_nat retryCount * 1000);
                           Lookup (c_host (config (self s3)))
                                  (lookup_family (config (self s3)))]).
      split_and!.
      -- rewrite Ht4. unfold s3. cbn [world log trace]. rewrite Hround.
         now rewrite <- !app_assoc.
      -- rewrite !posted_app, Hpo1, Hpo2. cbn [posted flat_map app].
         constructor; [apply request_options_sent_as | constructor].
      -- rewrite Hp4. unfold s3. cbn [world log posts after_post count_post].
         rewrite !posted_app, Hpo1, Hpo2, Hp2, Hp1. cbn [posted flat_map app List.length].
         lia.
      -- rewrite !posted_app, Hpo1, Hpo2. cbn [posted flat_map app List.length]. lia.
      -- rewrite !posted_app, !probed_requests_app, Hpo1, Hpo2, Hpr1, !List.length_app.
         cbn [posted probed_requests flat_map app List.length]. lia.
      -- rewrite (each_post_probed_skip false t1 _ Hpo1 Hpr1),
           (each_post_probed_set false t2 _ Hpo2 Hpr2).
         reflexivity.
Qed.
End Invariants.

(** X6.  A call of [makeRequest] never changes the configuration, never
    drops a connection it found, and leaves one behind whenever it returns an
    answer: the next call on the same manager starts without a lookup. *)
Theorem makeRequest_keeps_connection
        (E : Env) (action body : string) (retryCount : nat)
        (s s' : Session) (r : result Response) :
  makeRequest E action body retryCount s = (r, s') ->
  config (self s') = config (self s)
  /\ (needs_resolve (self s) = false -> needs_resolve (self s') = false)
  /\ (forall response, r = Ok response -> ensureResolved E s' = (Ok tt, s')).
Proof.
  rewrite makeRequest_eq. intros H.
  apply makeRequest_from_invariants in H as (Hc & Hk & Hok & _).
  split_and!; [exact Hc | exact Hk |].
  intros response Hr. apply ensureResolved_ready. now apply (Hok response).
Qed.

(** X7.  Every authenticated request of one call is a POST with the same
    action, the same body and the SOAP content type; there are at most
    [retries + 1] of them, each counted once; and each comes after a probe of
    its own: in the trace of the call a probe stands before the first
    request and between any two requests. *)
Theorem makeRequest_sends_same_request
        (E : Env) (action body : string) (s s' : Session) (r : result Response) :
  makeRequest E action body 0 s = (r, s') ->
  exists t,
    trace (world s') = trace (world s) ++ t /\
    List.Forall (sent_as action body) (posted t) /\
    posts (world s') = (posts (world s) + List.length (posted t))%nat /\
    (List.length (posted t) <= default 0%nat (c_retries (config (self s))) + 1)%nat /\
    (List.length (posted t) <= List.length (probed_requests t))%nat /\
    each_post_probed false t = true.
Proof.
  rewrite makeRequest_eq. intros H.
  apply makeRequest_from_invariants in H
    as (_ & _ & _ & _ & t & Ht & Hf & Hp & Hl & Hpp & He).
  exists t. split_and!; try assumption. lia.
Qed.

(** X8.  An error of the authenticated request that is no connection fault
    (no code among the three, no type system) is thrown again as it is: one
    request, no wait, no second attempt, whatever the retry budget. *)
Theorem makeRequest_rethrows_other_errors
        (E : Env) (action body : string) (retryCount : nat)
        (s s1 : Session) (digestHeader : option string) (w2 : World) (e : Error) :
  ensureResolved E s = (Ok tt, s1) ->
  getDigestHeader E (digest_options (self s1)) (world s1) = (Ok digestHeader, w2) ->
  post_reply E (posts w2) (request_options (self s1) digestHeader action body)
  = Throw e ->
  is_connection_error e = false ->
  let r := request_options (self s1) digestHeader action body in
  makeRequest E action body retryCount s =
  (Throw e, mkSession (self s1) (after_post r w2))
  /\ trace (after_post r w2) = trace w2 ++ [Post r].
Proof.
  intros H1 H2 H3 H4 r. subst r. rewrite makeRequest_eq.
  rewrite (makeRequest_from_round E _ _ _ _ _ _ _ _ H1 H2). cbv zeta.
  rewrite H3. cbn [attempt]. now rewrite H4.
Qed.

(** X9.  When the configuration gives [retries] as [undefined] or as 0, a
    connection fault of the authenticated request is never retried: the call
    throws at once, and the message counts the attempts as the configured
    value reads.  The challenge fetch, which is handed the same value, still
    retries three times when it is [undefined]. *)
Theorem makeRequest_without_retries
        (E : Env) (action body : string)
        (s s1 : Session) (digestHeader : option string) (w2 : World) (e : Error) :
  default 0%nat (c_retries (config (self s))) = 0%nat ->
  ensureResolved E s = (Ok tt, s1) ->
  getDigestHeader E (digest_options (self s1)) (world s1) = (Ok digestHeader, w2) ->
  post_reply E (posts w2) (request_options (self s1) digestHeader action body)
  = Throw e ->
  is_connection_error e = true ->
  let r := request_options (self s1) digestHeader action body in
  makeRequest E action body 0 s =
  (Throw (exhausted (self s1) e), mkSession (self s1) (after_post r w2))
  /\ message (exhausted (self s1) e) =
     "Failed to connect to AMT device after "
     +:+ show_opt (fun n => show_N (N.of_nat n)) (c_retries (config (self s)))
     +:+ " attempts. Last error: " +:+ message e
     +:+ " (" +:+ resolvedHost (self s1) +:+ ":"
     +:+ show_opt show_N (c_port (config (self s))) +:+ ")"
  /\ default 3%nat (maxRetries (digest_options (self s1))) =
     match c_retries (config (self s)) with Some _ => 0%nat | None => 3%nat end.
Proof.
  intros H0 H1 H2 H3 H4 r. subst r. rewrite makeRequest_eq, H0.
  rewrite (makeRequest_from_round E _ _ _ _ _ _ _ _ H1 H2). cbv zeta.
  rewrite H3. cbn [attempt]. rewrite H4.
  apply ensureResolved_frame in H1 as (Hc1 & _ & _).
  split_and!.
  - reflexivity.
  - unfold exhausted. cbn [message new_Error]. now rewrite Hc1.
  - cbn [digest_options maxRetries]. rewrite Hc1.
    destruct (c_retries (config (self s))) as [n|]; [exact H0 | reflexivity].
Qed.

(** *** Both retry loops at once *)

Section Worst.
Variable E : Env.
Hypothesis dns_ok : forall n h f, exists a, dns E n h f = Ok a.
Hypothesis probes_fail : forall n r, challenge (probe_reply E n r) = None.
Hypothesis posts_fail :
forall n r, exists e, post_reply E n r = Throw e /\ is_connection_error e = true.
Variables action body : string.
Variable maxRetries : nat.

Lemma makeRequest_from_worst (left : nat) :
forall (retryCount : nat) (s : Session),
  c_retries (config (self s)) = Some maxRetries ->
  exists e s' t,
    makeRequest_from E left action body retryCount s = (Throw e, s') /\
    config (self s') = config (self s) /\
    trace (world s') = trace (world s) ++ t /\
    List.length (probed_requests t) = ((left + 1) * (maxRetries + 1))%nat /\
    List.length (posted t) = (left + 1)%nat /\
    (total (all_waits t) + N.of_nat (left + 1) * 1000 + 2 ^ N.of_nat retryCount * 1000
     = N.of_nat (left + 1) * (2 ^ N.of_nat maxRetries * 1000)
       + 2 ^ N.of_nat (retryCount + left) * 1000)%N.
Proof.
induction left as [|left IH]; intros retryCount s Hcfg.
all: destruct (ensureResolved_succeeds E dns_ok s) as [s1 H1].
all: pose proof (ensureResolved_frame E _ _ _ H1) as (Hc1 & Hp1 & Ht1).
all: set (o := base (digest_options (self s1))).
all: set (req := probe_request (url o) (default "GET" (method o))
                               (default ∅ (headers o))).
all: assert (H2 : getDigestHeader E (digest_options (self s1)) (world s1) =
                  (Ok None, probed req 0 maxRetries (world s1)))
  by (unfold getDigestHeader; cbn [digest_options DigestAuth.maxRetries
                                    DigestAuth.retryCount default];
      rewrite Hc1, Hcfg; cbn [default]; rewrite Nat.sub_0_r;
      apply getDigestHeader_from_exhausted; intros i _; apply probes_fail).
all: rewrite (makeRequest_from_round E _ _ _ _ _ _ _ _ H1 H2); cbv zeta.
all: set (rq := request_options (self s1) None action body).
all: destruct (posts_fail (posts (probed req 0 maxRetries (world s1))) rq)
  as (e & He & Hce); rewrite He; cbn [attempt]; rewrite Hce; clear He Hce.
all: set (t1 := if needs_resolve (self s)
                then [Lookup (c_host (config (self s))) (lookup_family (config (self s)))]
                else []) in *.
all: assert (Hpt1 : posted t1 = [] /\ probed_requests t1 = [] /\ all_waits t1 = [])
  by (unfold t1; now destruct (needs_resolve (self s))).
all: destruct Hpt1 as (Hpo1 & Hpr1 & Hw1).
all: set (tp := failed_probes req 0 maxRetries ++ [Probe req]).
all: assert (Htp : posted tp = [] /\
                   List.length (probed_requests tp) = (maxRetries + 1)%nat /\
                   (total (all_waits tp) + 1000 = 2 ^ N.of_nat maxRetries * 1000)%N).
all: try (unfold tp; split_and!;
  [ now rewrite posted_app, posted_failed_probes
  | rewrite probed_requests_app, List.length_app, failed_probes_requests,
      repeat_length; reflexivity
  | rewrite all_waits_app, total_app, all_waits_failed_probes;
    pose proof (failed_probes_total req 0 maxRetries) as Hf;
    cbn [Nat.add] in Hf; change (2 ^ N.of_nat 0 * 1000)%N with 1000%N in Hf;
    cbn [all_waits flat_map total fold_right app]; lia ]).
all: destruct Htp as (Hpop & Hprp & Hwp).
all: assert (Hround : trace (after_post rq (probed req 0 maxRetries (world s1))) =
                      trace (world s) ++ t1 ++ tp ++ [Post rq])
  by (cbn [after_post count_post log trace probed]; rewrite Ht1; unfold tp;
      now rewrite <- !app_assoc).
- exists (exhausted (self s1) e).
  exists (mkSession (self s1) (after_post rq (probed req 0 maxRetries (world s1)))).
  exists (t1 ++ tp ++ [Post rq]).
  split_and!; [reflexivity | exact Hc1 | exact Hround | | |].
  + rewrite !probed_requests_app, !List.length_app, Hpr1, Hprp. cbn. lia.
  + rewrite !posted_app, Hpo1, Hpop. reflexivity.
  + rewrite !all_waits_app, !total_app, Hw1. rewrite Nat.add_0_r.
    cbn [all_waits flat_map total fold_right app Nat.add].
    change (N.of_nat 1) with 1%N. lia.
- unfold bind at 1. cbv [lift sleep]. cbn [world self].
  unfold bind at 1.
  set (s3 := mkSession (self s1)
               (log (RetryWait (2 ^ N.of_nat retryCount * 1000))
                    (after_post rq (probed req 0 maxRetries (world s1))))).
  destruct (resolveHost_succeeds E dns_ok s3) as [a ->].
  set (s5 := mkSession (connection (config (self s3)) a)
                       (after_lookup (config (self s3)) (world s3))).
  destruct (IH (S retryCount) s5) as (e' & s' & t & Hrun & Hc & Ht & Hpr & Hpo & Hw).
  { unfold s5, s3. cbn. now rewrite Hc1. }
  exists e', s'.
  exists (t1 ++ tp ++ [Post rq; RetryWait (2 ^ N.of_nat retryCount * 1000);
                       Lookup (c_host (config (self s3)))
                              (lookup_family (config (self s3)))] ++ t).
  split_and!.
  + exact Hrun.
  + rewrite Hc. cbn. exact Hc1.
  + rewrite Ht. unfold s5, s3.
    cbn [world self after_lookup count_lookup log trace]. rewrite Hround.
    now rewrite <- !app_assoc.
  + rewrite !probed_requests_app, !List.length_app, Hpr1, Hprp, Hpr. cbn. lia.
  + rewrite !posted_app, !List.length_app, Hpo1, Hpop, Hpo. cbn. lia.
  + rewrite !all_waits_app, !total_app, Hw1.
    cbn [all_waits flat_map total fold_right app].
    replace (N.of_nat (S left + 1)) with (N.of_nat (left + 1) + 1)%N by lia.
    replace (retryCount + S left)%nat with (S retryCount + left)%nat by lia.
    rewrite Nat2N.inj_succ, N.pow_succ_r' in Hw.
    rewrite N.mul_add_distr_r, !N.mul_1_l.
    set (X := (N.of_nat (left + 1) * (2 ^ N.of_nat maxRetries * 1000))%N) in *.
    set (Y := (2 ^ N.of_nat (S retryCount + left) * 1000)%N) in *.
    set (Z := (2 ^ N.of_nat retryCount)%N) in *.
    set (P := (2 ^ N.of_nat maxRetries * 1000)%N) in *.
    lia.
Qed.
End Worst.

(** X10.  The two retry loops multiply.  When the resolver answers, every
    probe fails and every authenticated request ends in a connection fault,
    one call with [retries = n] makes [(n + 1) * (n + 1)] probes and [n + 1]
    requests before it throws, and the waits of both loops add up to
    [(n + 2) * (2^n - 1)] seconds. *)
Theorem makeRequest_worst_case
        (E : Env) (action body : string) (s : Session) (n : nat) :
  c_retries (config (self s)) = Some n ->
  (forall k h f, exists a, dns E k h f = Ok a) ->
  (forall k r, challenge (probe_reply E k r) = None) ->
  (forall k r, exists e, post_reply E k r = Throw e /\ is_connection_error e = true) ->
  exists e s' t,
    makeRequest E action body 0 s = (Throw e, s') /\
    trace (world s') = trace (world s) ++ t /\
    List.length (probed_requests t) = ((n + 1) * (n + 1))%nat /\
    List.length (posted t) = (n + 1)%nat /\
    (total (all_waits t) + N.of_nat (n + 2) * 1000
     = N.of_nat (n + 2) * (2 ^ N.of_nat n * 1000))%N.
Proof.
  intros Hcfg Hdns Hprobe Hpost.
  destruct (makeRequest_from_worst E Hdns Hprobe Hpost action body n n 0 s Hcfg)
    as (e & s' & t & Hrun & _ & Ht & Hpr & Hpo & Hw).
  exists e, s', t. rewrite makeRequest_eq, Hcfg. cbn [default]. rewrite Nat.sub_0_r.
  split_and!; try assumption.
  cbn [Nat.add] in Hw. change (2 ^ N.of_nat 0 * 1000)%N with 1000%N in Hw.
  replace (N.of_nat (n + 2)) with (N.of_nat (n + 1) + 1)%N by lia.
  rewrite !N.mul_add_distr_r, !N.mul_1_l.
  set (X := (N.of_nat (n + 1) * (2 ^ N.of_nat n * 1000))%N) in *.
  set (P := (2 ^ N.of_nat n * 1000)%N) in *.
  lia.
Qed.

(** *** The envelopes *)

Lemma str_app_inv_head (a x y : string) : a +:+ x = a +:+ y -> x = y.
Proof.
  induction a as [|c a IH]; cbn [String.append]; [trivial|].
  intros [= H]. now apply IH.
Qed.

Lemma str_app_inv_tail (x y b : string) : x +:+ b = y +:+ b -> x = y.
Proof.
  revert y. induction x as [|c x IH]; intros [|d y] H; cbn [String.append] in H.
  - reflexivity.
  - exfalso. apply (f_equal String.length) in H.
    cbn [String.length] in H. rewrite str_app_length in H. lia.
  - exfalso. apply (f_equal String.length) in H.
    cbn [String.length] in H. rewrite str_app_length in H. lia.
  - injection H as -> H. now rewrite (IH y H).
Qed.

(** X11.  The query envelope tells its message identifiers apart: two
    envelopes are equal only if their identifiers are; and every call of
    [getPowerState] takes exactly one identifier from the random source,
    whether it succeeds or throws. *)
Theorem getPowerState_message_id (E : Env) (s : Session) :
  (forall u1 u2,
      createGetPowerStateRequest_with u1 = createGetPowerStateRequest_with u2 ->
      u1 = u2)
  /\ createGetPowerStateRequest E s =
     (Ok (createGetPowerStateRequest_with (random_uuid E (uuids (world s)))),
      mkSession (self s) (count_uuid (world s)))
  /\ uuids (world (snd (getPowerState E s))) = S (uuids (world s)).
Proof.
  split_and!.
  - intros u1 u2 H. unfold createGetPowerStateRequest_with in H.
    repeat (apply str_app_inv_head in H).
    now apply str_app_inv_tail in H.
  - reflexivity.
  - unfold getPowerState. rewrite try_catch_rethrow.
    unfold bind at 1.
    cbv [createGetPowerStateRequest bind lift randomUUID ret Node.text of_result].
    destruct (makeRequest E enumerate_action _ 0 _) as [[response|e] s'] eqn:Hm;
      rewrite makeRequest_eq in Hm;
      apply makeRequest_from_invariants in Hm as (_ & _ & _ & Hu & _);
      [destruct (res_body response)|]; cbn [snd]; rewrite Hu; reflexivity.
Qed.

(** X12.  The pattern of [getPowerState] reads the command envelope back:
    for each of the three states, the envelope [createPowerStateChangeRequest]
    builds holds the element [<r:PowerState>code</r:PowerState>] at the head
    of the [RequestPowerStateChange_INPUT] payload, and the pattern reads the
    code of the state (2, 8, 10) from the envelope. *)
Theorem power_state_envelope_read_back (powerState : PowerState) :
  power_state_of (createPowerStateChangeRequest powerState)
  = Finite (Z.of_N (PowerState_code powerState))
  /\ includes (createPowerStateChangeRequest powerState)
       ("<r:RequestPowerStateChange_INPUT xmlns:r=" +:+ dq
        +:+ "http://schemas.dmtf.org/wbem/wscim/1/cim-schema/2/CIM_PowerManagementService"
        +:+ dq +:+ ">" +:+ String "010" "            <r:PowerState>"
        +:+ show_N (PowerState_code powerState) +:+ "</r:PowerState>") = true.
Proof. destruct powerState; vm_compute; split; reflexivity. Qed.

(** *** The values of [getPowerState] *)

Lemma to_double_cases (n : N) :
  to_double n = Infinity \/ exists m, to_double n = Finite (Z.of_N m).
Proof.
  unfold to_double. destruct (N.size n <=? 53)%N; [right; eauto|].
  cbv zeta. destruct (2 ^ 1024 <=? _)%N; [now left | right; eauto].
Qed.

(** X13.  The number [getPowerState] computes from a body is never NaN
    and never negative except for the -1 that stands for no element; it is an
    infinity only when the body has a first element of decimal digits and
    these digits write a value of 2^53 or more. *)
Theorem power_state_of_range (text : string) :
  power_state_of text <> NaN
  /\ (forall z, power_state_of text = Finite z -> z = (-1)%Z \/ (0 <= z)%Z)
  /\ (power_state_of text = Infinity ->
      exists pre ds post,
        first_element text pre ds post /\ (2 ^ 53 <= decimal_value 0 ds)%N).
Proof.
  unfold power_state_of.
  destruct (element_cases text) as [(pre & ds & post & Hfirst)|Hno].
  - rewrite (first_element_match _ _ _ _ Hfirst).
    pose proof Hfirst as [(_ & Hne & Hd) _].
    rewrite (parseInt_digits ds Hne Hd).
    destruct (to_double_cases (decimal_value 0 ds)) as [Hi|[m Hf]].
    + rewrite Hi. split_and!; [discriminate | discriminate |].
      intros _. exists pre, ds, post. split; [exact Hfirst|].
      destruct (N.lt_ge_cases (decimal_value 0 ds) (2 ^ 53)) as [Hlt|Hge]; [|exact Hge].
      rewrite (to_double_exact _ Hlt) in Hi. discriminate.
    + rewrite Hf. split_and!; [discriminate | | discriminate].
      intros z [= <-]. right. lia.
  - rewrite (no_element_match _ Hno). split_and!; [discriminate | | discriminate].
    intros z [= <-]. now left.
Qed.

(** X14.  [testConnection] never throws.  It answers [true] exactly when
    the request of [getPowerState] is answered and the body of the answer
    arrives, whatever the body says (also when no power state can be read
    from it); it answers [false] when that request throws and when reading
    the body throws. *)
Theorem testConnection_reports_the_request
        (E : Env) (s s0 s' : Session) (body : string) (r : result Response) :
  createGetPowerStateRequest E s = (Ok body, s0) ->
  makeRequest E enumerate_action body 0 s0 = (r, s') ->
  testConnection E s =
  (Ok (match r with
       | Ok response =>
           match res_body response with Ok _ => true | Throw _ => false end
       | Throw _ => false
       end), s').
Proof.
  intros H0 H1. unfold testConnection.
  unfold try_catch at 1. unfold bind at 1.
  destruct r as [response|e].
  - rewrite (getPowerState_run E s s0 s' body response H0 H1).
    now destruct (res_body response).
  - unfold getPowerState. rewrite try_catch_rethrow.
    rewrite (bind_Ok _ _ _ _ _ H0). now rewrite (bind_Throw _ _ _ _ _ H1).
Qed.

End AMTMore.

(** ** Facts about index.ts *)

Module CliFacts.
Import Js Node DigestAuth AMT Cli JsFacts NodeFacts AMTFacts.
#[local] Arguments String.append !s1 s2 : simpl nomatch.
#[local] Arguments connection : simpl never.

(** What a run of [executeCommand] ends with, given how the operation
    behind the command ended. *)
Lemma executeCommand_after {A} (c : M Session A) (s : Session) :
  try_catch (x <- c ;; ret Completes)%async (fun error => ret (Exits 1)) s =
  (Ok (match fst (c s) with Ok _ => Completes | Throw _ => Exits 1 end),
   snd (c s)).
Proof. unfold try_catch, bind, ret. now destruct (c s) as [[a|e] s']. Qed.

Lemma changePowerState_run (E : Env) (powerState : PowerState)
      (s s' : Session) (r : result Response) :
  makeRequest E power_action (createPowerStateChangeRequest powerState) 0 s = (r, s') ->
  changePowerState E powerState s =
  (match r with
   | Ok response =>
       match res_body response with
       | Ok text => Ok (includes text "ReturnValue>0</")
       | Throw e => Throw e
       end
   | Throw e => Throw e
   end, s').
Proof.
  intros H. unfold changePowerState. rewrite try_catch_rethrow.
  unfold bind at 1. rewrite H. destruct r as [response|e]; [|reflexivity].
  cbv [bind Node.text of_result ret]. now destruct (res_body response).
Qed.

(** X15.  The first front end never lets an error escape, and its exit
    status tells only whether the operation threw.  A command outside the
    four exits with 1 before anything is sent.  Each of power-on, power-off
    and reset sends the envelope of its own power state, and status sends the
    query: when the request is answered and the body of the answer arrives,
    the run goes to its end whatever the body says (also when the result is
    [false] or -1); when the request or the reading of the body throws, it
    exits with 1. *)
Theorem executeCommand_exit_status (E : Env) (command : string) (s : Session) :
  let exit_of (r : result Response) :=
    match r with
    | Ok response =>
        match res_body response with Ok _ => Completes | Throw _ => Exits 1 end
    | Throw _ => Exits 1
    end in
  (exists x s', executeCommand E command s = (Ok x, s'))
  /\ (command <> "power-on" -> command <> "power-off" -> command <> "reset" ->
      command <> "status" ->
      executeCommand E command s = (Ok (Exits 1), s))
  /\ (forall r s',
        makeRequest E power_action (createPowerStateChangeRequest PowerOn) 0 s
        = (r, s') ->
        executeCommand E "power-on" s = (Ok (exit_of r), s'))
  /\ (forall r s',
        makeRequest E power_action (createPowerStateChangeRequest PowerOff) 0 s
        = (r, s') ->
        executeCommand E "power-off" s = (Ok (exit_of r), s'))
  /\ (forall r s',
        makeRequest E power_action (createPowerStateChangeRequest Reset) 0 s
        = (r, s') ->
        executeCommand E "reset" s = (Ok (exit_of r), s'))
  /\ (forall body s0 r s',
        createGetPowerStateRequest E s = (Ok body, s0) ->
        makeRequest E enumerate_action body 0 s0 = (r, s') ->
        executeCommand E "status" s = (Ok (exit_of r), s')).
Proof.
  intros exit_of.
  assert (Hpower : forall powerState r s',
             makeRequest E power_action (createPowerStateChangeRequest powerState) 0 s
             = (r, s') ->
             try_catch (x <- changePowerState E powerState ;; ret Completes)%async
                       (fun error => ret (Exits 1)) s = (Ok (exit_of r), s')).
  { intros ps r s' H. rewrite executeCommand_after, (changePowerState_run E ps s s' r H).
    cbn [fst snd]. destruct r as [response|e]; [|reflexivity].
    unfold exit_of. now destruct (res_body response). }
  split_and!.
  - unfold executeCommand.
    repeat (match goal with
            | |- context [if ?b then _ else _] => destruct b
            end);
      rewrite ?executeCommand_after; eauto.
  - intros H1 H2 H3 H4. unfold executeCommand, try_catch.
    apply String.eqb_neq in H1, H2, H3, H4. now rewrite H1, H2, H3, H4.
  - intros r s' H. exact (Hpower PowerOn r s' H).
  - intros r s' H. exact (Hpower PowerOff r s' H).
  - intros r s' H. exact (Hpower Reset r s' H).
  - intros body s0 r s' H0 H1.
    change (executeCommand E "status" s) with
      (try_catch (x <- getPowerState E ;; ret Completes)%async
                 (fun error => ret (Exits 1)) s).
    rewrite executeCommand_after.
    destruct r as [response|e].
    + rewrite (getPowerState_run E s s0 s' body response H0 H1). cbn [fst snd].
      unfold exit_of. now destruct (res_body response).
    + unfold getPowerState. rewrite try_catch_rethrow.
      rewrite (bind_Ok _ _ _ _ _ H0), (bind_Throw _ _ _ _ _ H1). reflexivity.
Qed.

(** X16.  The first front end writes [port] and [protocol] into its
    configuration also when their environment variables are not set, as
    [undefined]; the constructor's defaults (16992, http) then do not apply,
    and the base URL built after the lookup reads
    [undefined://address:undefined/wsman]. *)
Theorem cli_undefined_overrides_defaults
        (env : Environment) (host username password : string) :
  env !! "AMT_PORT" = None ->
  env !! "AMT_PROTOCOL" = None ->
  exists m,
    new_manager (env_config env host username password) = Some m /\
    c_port (config m) = None /\ c_protocol (config m) = None /\
    (forall (E : Env) (w : World) (address : string),
        dns E (lookups w) host (lookup_family (config m)) = Ok address ->
        exists s',
          ensureResolved E (mkSession m w) = (Ok tt, s') /\
          baseUrl (self s') = "undefined://" +:+ address +:+ ":undefined/wsman")
    /\ (forall cfg, port cfg = Absent -> protocol cfg = Absent ->
        c_port (config (constructor cfg)) = Some 16992%N /\
        c_protocol (config (constructor cfg)) = Some "http").
Proof.
  intros Hport Hproto.
  unfold env_config, new_manager. rewrite Hport, Hproto.
  cbn [truthy_string e_port port_of e_host e_username e_password e_protocol
       e_verifySSL e_forceIPv4].
  eexists. split; [reflexivity|]. split_and!; try reflexivity.
  - intros E w address Hd. eexists. split.
    + rewrite ensureResolved_resolves by reflexivity.
      apply resolveHost_Ok. exact Hd.
    + reflexivity.
  - intros cfg Hp Hq. unfold constructor. cbn [config c_port c_protocol].
    now rewrite Hp, Hq.
Qed.

(** X17.  The first front end takes its arguments for complete exactly when
    there are at least four and none of the first four is empty: an empty
    password counts as missing. *)
Theorem missing_argument_iff (argv : list string) :
  missing_argument argv = false <->
  exists command host username password rest,
    argv = command :: host :: username :: password :: rest /\
    command <> "" /\ host <> "" /\ username <> "" /\ password <> "".
Proof.
  unfold missing_argument. split.
  - intros H. apply orb_false_iff in H as [H Hp].
    apply orb_false_iff in H as [H Hu]. apply orb_false_iff in H as [Hc Hh].
    destruct argv as [|c [|h [|u [|p rest]]]]; try discriminate.
    exists c, h, u, p, rest. cbn in Hc, Hh, Hu, Hp.
    destruct c, h, u, p; try discriminate. now split_and!.
  - intros (c & h & u & p & rest & -> & Hc & Hh & Hu & Hp).
    now destruct c, h, u, p.
Qed.

Lemma or_else_nonempty (a : option string) (b : string) :
  b <> "" -> or_else a b <> "".
Proof. intros Hb. destruct a as [[|c s]|]; cbn; [exact Hb | discriminate | exact Hb]. Qed.

(** X18.  In the second front end the test for missing parameters can never
    succeed: host, user name and password fall back on the environment and
    then on a built-in value, so none is ever empty; and the port is 16992
    when its variable is not set or empty. *)
Theorem missing_parameters_never (argv : list string) (env : Environment) :
  missing_parameters argv env = false
  /\ amtHost argv env <> "" /\ amtUsername argv env <> "" /\ amtPassword argv env <> ""
  /\ (env !! "AMT_PORT" = None \/ env !! "AMT_PORT" = Some "" ->
      defaultPort env = Finite 16992).
Proof.
  assert (Hh : amtHost argv env <> "")
    by (apply or_else_nonempty, or_else_nonempty; discriminate).
  assert (Hu : amtUsername argv env <> "")
    by (apply or_else_nonempty, or_else_nonempty; discriminate).
  assert (Hp : amtPassword argv env <> "")
    by (apply or_else_nonempty, or_else_nonempty; discriminate).
  split_and!; try assumption.
  - unfold missing_parameters. apply String.eqb_neq in Hh, Hu, Hp.
    now rewrite Hh, Hu, Hp.
  - intros [H|H]; unfold defaultPort; rewrite H; vm_compute; reflexivity.
Qed.

End CliFacts.

(** ** The further theorems on the scenarios *)

Module ScenarioMore.
Import Js Node DigestAuth AMT Scenario Trace Cli Challenge Scenario2.
Import JsFacts NodeFacts DigestAuthFacts AMTFacts DigestAuthMore AMTMore CliFacts.

(** The challenge of the device: qop and stale are kept, realm is not kept
    a second time. *)
Lemma parseAuthHeader_keeps_qop :
  exists p, parseAuthHeader challenge_header = Ok p /\
            others p !! "qop" = Some "auth" /\
            others p !! "stale" = Some "false" /\
            others p !! "realm" = None.
Proof.
  pose (p := match parseAuthHeader challenge_header with
             | Ok p => p
             | Throw _ => mkAuthParams "" "" ∅
             end).
  assert (H : parseAuthHeader challenge_header = Ok p) by (vm_compute; reflexivity).
  exists p. split; [exact H|].
  rewrite !(parseAuthHeader_keeps_directives challenge_header p H).
  vm_compute. auto.
Defined.

(** The value kept under qop stands quoted in the challenge. *)
Lemma parseAuthHeader_qop_quoted :
  "auth" <> "" /\ forallb_str not_dquote "auth" = true /\
  exists pre post,
    challenge_header = pre +:+ "qop" +:+ "=" +:+ dq +:+ "auth" +:+ dq +:+ post.
Proof.
  pose (p := match parseAuthHeader challenge_header with
             | Ok p => p
             | Throw _ => mkAuthParams "" "" ∅
             end).
  apply (parseAuthHeader_values_quoted challenge_header p).
  - vm_compute. reflexivity.
  - right. right. vm_compute. reflexivity.
Defined.

(** Four directives written in the standard form are read back. *)
Lemma full_challenge_read_back :
  captures (render full_challenge) = full_challenge
  /\ exists p, parseAuthHeader (render full_challenge) = Ok p /\
               realm p = "Digest:A4070000000000000000000000000000" /\
               nonce p = "k3VhAAkGAAAAAAAAtvKcM9Wt1Qd0rFBD".
Proof.
  destruct (standard_challenge_read_back full_challenge) as (H1 & _ & H3).
  - repeat constructor; try discriminate.
  - split; [exact H1|]. apply H3; reflexivity.
Defined.

(** The header of the RFC 2617 example holds two fields of 32 hexadecimal
    digits. *)
Lemma digest_header_rfc_fields :
  exists cnonce response,
    String.length cnonce = 32%nat /\ forallb_str is_hex_digit cnonce = true /\
    String.length response = 32%nat /\ forallb_str is_hex_digit response = true /\
    fst (constructDigestAuthHeader (device 0 (Ok (answer ""))) rfc_params rfc_options world0) =
    Ok ("Digest username=" +:+ dq +:+ DigestAuth.username rfc_options +:+ dq
        +:+ ", realm=" +:+ dq +:+ realm rfc_params +:+ dq
        +:+ ", nonce=" +:+ dq +:+ nonce rfc_params +:+ dq
        +:+ ", uri=" +:+ dq +:+ DigestAuth.url rfc_options +:+ dq
        +:+ ", cnonce=" +:+ dq +:+ cnonce +:+ dq
        +:+ ", nc=00000001, qop=auth, response=" +:+ dq +:+ response +:+ dq).
Proof.
  apply (digest_header_fields_are_hex (device 0 (Ok (answer ""))) rfc_params
           rfc_options world0).
  reflexivity.
Defined.


(** After an answered call the manager holds its connection: the next call
    starts without a lookup. *)
Lemma makeRequest_then_ready :
  let E := device 0 (Ok (answer "ok")) in
  let s' := snd (makeRequest E "urn:action" "<body/>" 0 fresh) in
  config (self s') = config (self fresh) /\ ensureResolved E s' = (Ok tt, s').
Proof.
  intros E s'.
  destruct (makeRequest_keeps_connection E "urn:action" "<body/>" 0 fresh s'
              (Ok (answer "ok"))) as (H1 & _ & H3).
  - vm_compute. reflexivity.
  - split; [exact H1 | apply (H3 (answer "ok")); reflexivity].
Defined.

(** Two dropped requests, then an answer: the three requests carry the
    same action and body, and each has a probe before it. *)
Lemma makeRequest_two_faults_requests :
  let s' := snd (makeRequest (device 2 (Ok (answer "ok"))) "urn:action" "<body/>" 0 fresh) in
  exists t,
    trace (world s') = trace (world fresh) ++ t /\
    List.Forall (sent_as "urn:action" "<body/>") (posted t) /\
    posts (world s') = (posts (world fresh) + List.length (posted t))%nat /\
    (List.length (posted t) <= default 0%nat (c_retries (config (self fresh))) + 1)%nat /\
    (List.length (posted t) <= List.length (probed_requests t))%nat /\
    each_post_probed false t = true.
Proof.
  intros s'.
  apply (makeRequest_sends_same_request (device 2 (Ok (answer "ok")))
           "urn:action" "<body/>" fresh s' (Ok (answer "ok"))).
  vm_compute. reflexivity.
Defined.

(** The timeout of node-fetch is no connection fault: it is thrown as it
    is after one request. *)
Lemma makeRequest_timeout_is_final :
  fst (makeRequest slow_device "urn:action" "<body/>" 0 fresh) = Throw request_timeout
  /\ posts (world (snd (makeRequest slow_device "urn:action" "<body/>" 0 fresh))) = 1%nat.
Proof.
  pose (s1 := snd (ensureResolved slow_device fresh)).
  pose (d := getDigestHeader slow_device (digest_options (self s1)) (world s1)).
  destruct (makeRequest_rethrows_other_errors slow_device "urn:action" "<body/>" 0
              fresh s1 (match fst d with Ok h => h | Throw _ => None end) (snd d)
              request_timeout) as [H _].
  - vm_compute. reflexivity.
  - vm_compute. reflexivity.
  - reflexivity.
  - reflexivity.
  - rewrite H. split; reflexivity.
Defined.

(** A manager whose configuration writes [retries: undefined]: the first
    connection fault is the end, after undefined attempts. *)
Lemma makeRequest_undefined_retries :
  exists e s',
    makeRequest (device 1 (Ok (answer "ok"))) "urn:action" "<body/>" 0
                (mkSession (manager Undefined) world0) = (Throw e, s') /\
    message e =
    "Failed to connect to AMT device after undefined attempts. Last error: socket hang up (10.0.0.5:16992)"
    /\ posts (world s') = 1%nat.
Proof.
  set (E := device 1 (Ok (answer "ok"))).
  set (s := mkSession (manager Undefined) world0).
  pose (s1 := snd (ensureResolved E s)).
  pose (d := getDigestHeader E (digest_options (self s1)) (world s1)).
  destruct (makeRequest_without_retries E "urn:action" "<body/>" s s1
              (match fst d with Ok h => h | Throw _ => None end) (snd d) econnreset)
    as (H & Hm & _).
  - reflexivity.
  - vm_compute. reflexivity.
  - vm_compute. reflexivity.
  - reflexivity.
  - reflexivity.
  - eexists. eexists. split; [exact H|]. split.
    + rewrite Hm. vm_compute. reflexivity.
    + reflexivity.
Defined.

(** A device that answers nothing, with the default of three retries:
    sixteen probes, four requests and thirty-five seconds of waiting before
    the call throws. *)
Lemma makeRequest_dead_device :
  exists e s' t,
    makeRequest dead_device "urn:action" "<body/>" 0 fresh = (Throw e, s') /\
    trace (world s') = trace (world fresh) ++ t /\
    List.length (probed_requests t) = 16%nat /\
    List.length (posted t) = 4%nat /\
    total (all_waits t) = 35000%N.
Proof.
  destruct (makeRequest_worst_case dead_device "urn:action" "<body/>" fresh 3)
    as (e & s' & t & H & Ht & Hp & Hq & Hw).
  - reflexivity.
  - intros k h f. now exists "10.0.0.5".
  - intros k r. reflexivity.
  - intros k r. exists econnreset. split; reflexivity.
  - exists e, s', t. split_and!; [exact H | exact Ht | exact Hp | exact Hq |].
    change (total (all_waits t) + 5000 = 40000)%N in Hw. lia.
Defined.

(** An answer without any power state still counts as a connection; an
    answer whose body breaks off does not. *)
Lemma testConnection_without_state :
  fst (testConnection (device 0 (Ok (answer "no state here"))) fresh) = Ok true
  /\ fst (testConnection (device 0 (Ok broken_answer)) fresh) = Ok false.
Proof.
  split.
  - set (E := device 0 (Ok (answer "no state here"))).
    pose (c := createGetPowerStateRequest E fresh).
    pose (m := makeRequest E enumerate_action
                           (match fst c with Ok b => b | Throw _ => "" end) 0 (snd c)).
    rewrite (testConnection_reports_the_request E fresh (snd c) (snd m)
               (match fst c with Ok b => b | Throw _ => "" end)
               (Ok (answer "no state here")));
      [reflexivity | reflexivity | vm_compute; reflexivity].
  - set (E := device 0 (Ok broken_answer)).
    pose (c := createGetPowerStateRequest E fresh).
    pose (m := makeRequest E enumerate_action
                           (match fst c with Ok b => b | Throw _ => "" end) 0 (snd c)).
    rewrite (testConnection_reports_the_request E fresh (snd c) (snd m)
               (match fst c with Ok b => b | Throw _ => "" end)
               (Ok broken_answer));
      [reflexivity | reflexivity | vm_compute; reflexivity].
Defined.

(** With an empty environment the front end's manager builds the base URL
    from two undefined values. *)
Lemma cli_empty_environment :
  exists m,
    new_manager (env_config ∅ "amt.local" "admin" "secret") = Some m /\
    baseUrl (self (snd (ensureResolved (device 0 (Ok (answer "")))
                                       (mkSession m world0))))
    = "undefined://10.0.0.5:undefined/wsman".
Proof.
  destruct (cli_undefined_overrides_defaults ∅ "amt.local" "admin" "secret")
    as (m & Hm & _ & _ & H & _).
  - reflexivity.
  - reflexivity.
  - exists m. split; [exact Hm|].
    destruct (H (device 0 (Ok (answer ""))) world0 "10.0.0.5") as (s' & Hs & Hb).
    + reflexivity.
    + rewrite Hs. exact Hb.
Defined.

End ScenarioMore.
